(** * Verification of the ssulhwa workflow helpers

    Shallow embedding of [src/ssulhwa/workflow/validate.py] (the episode
    linter) and [src/ssulhwa/workflow/context_assembly.py] (the context
    assembler), with the properties of their specification stated and
    proved over that embedding.

    A Python [str] is a sequence of Unicode code points: it is modelled as a
    list of integers, so that [len], indexing, slicing and [ord] are the list
    operations.  Literals are written as UTF-8 text and decoded by [lit]. *)

From Stdlib Require Import ZArith List Lia String Ascii.
From Stdlib Require Strings.Byte DecimalPos.
From stdpp Require Import base list gmap.
Import ListNotations.

(** ** Python strings *)

Module PyStr.

Abbreviation str := (list Z).

(** Decoding of the UTF-8 bytes of a literal into code points. *)
Fixpoint utf8_decode (bs : list Z) : str :=
  match bs with
  | [] => []
  | b0 :: t0 =>
    if (b0 <? 128)%Z then b0 :: utf8_decode t0
    else match t0 with
    | [] => []
    | b1 :: t1 =>
      if (b0 <? 224)%Z then
        Z.lor (Z.shiftl (Z.land b0 31) 6) (Z.land b1 63) :: utf8_decode t1
      else match t1 with
      | [] => []
      | b2 :: t2 =>
        if (b0 <? 240)%Z then
          Z.lor (Z.shiftl (Z.land b0 15) 12)
            (Z.lor (Z.shiftl (Z.land b1 63) 6) (Z.land b2 63)) :: utf8_decode t2
        else match t2 with
        | [] => []
        | b3 :: t3 =>
          Z.lor (Z.shiftl (Z.land b0 7) 18)
            (Z.lor (Z.shiftl (Z.land b1 63) 12)
               (Z.lor (Z.shiftl (Z.land b2 63) 6) (Z.land b3 63))) :: utf8_decode t3
        end
      end
    end
  end.

Definition lit (s : string) : str :=
  utf8_decode (map (fun b => Z.of_N (Byte.to_N b)) (list_byte_of_string s)).

Definition chr_eqb (a b : Z) : bool := (a =? b)%Z.

Definition mem (c : Z) (cs : str) : bool := existsb (chr_eqb c) cs.

(** [str.isspace] on one character, which is also the class [\s] of [re] on
    [str] patterns: the white-space characters of the Unicode database. *)
Definition is_space (c : Z) : bool :=
  ((9 <=? c) && (c <=? 13) || (28 <=? c) && (c <=? 32) || (c =? 133)
   || (c =? 160) || (c =? 5760) || (8192 <=? c) && (c <=? 8202)
   || (c =? 8232) || (c =? 8233) || (c =? 8239) || (c =? 8287)
   || (c =? 12288))%Z.

Fixpoint lstrip_by (p : Z -> bool) (s : str) : str :=
  match s with
  | [] => []
  | c :: t => if p c then lstrip_by p t else s
  end.

Definition rstrip_by (p : Z -> bool) (s : str) : str :=
  reverse (lstrip_by p (reverse s)).

(** [s.rstrip(chars)] and [s.strip()]. *)
Definition rstrip (chars : str) (s : str) : str :=
  rstrip_by (fun c => mem c chars) s.

Definition strip (s : str) : str := rstrip_by is_space (lstrip_by is_space s).

(** [s[-k]] for [k >= 1]; [None] is Python's [IndexError]. *)
Definition from_end (s : str) (k : nat) : option Z :=
  if decide (1 <= k <= length s) then s !! (length s - k) else None.

Fixpoint startswith (p s : str) : bool :=
  match p, s with
  | [], _ => true
  | a :: p', b :: s' => chr_eqb a b && startswith p' s'
  | _ :: _, [] => false
  end.

Definition endswith (p s : str) : bool := startswith (reverse p) (reverse s).

Definition str_eqb (a b : str) : bool :=
  (length a =? length b) && startswith a b.

(** [s[-n:]] for [n >= 1]. *)
Definition last_chars (n : nat) (s : str) : str := drop (length s - n) s.

Definition nl : str := [10%Z].

(** [l[j]] for a Python integer [j], negative indices counting from the
    end; [None] is [IndexError]. *)
Definition getitem {A} (l : list A) (j : Z) : option A :=
  if (j <? 0)%Z then
    (if (Z.of_nat (length l) + j <? 0)%Z then None
     else l !! Z.to_nat (Z.of_nat (length l) + j))
  else l !! Z.to_nat j.

(** [range(a, b)]. *)
Definition range (a b : Z) : list Z :=
  map (fun k => (a + Z.of_nat k)%Z) (seq 0 (Z.to_nat (b - a))).

(** [s.split("\n")] and [sep.join(ls)]. *)
Fixpoint split_lines (s : str) : list str :=
  match s with
  | [] => [[]]
  | c :: t =>
    if chr_eqb c 10 then [] :: split_lines t
    else match split_lines t with
         | l :: ls => (c :: l) :: ls
         | [] => [[c]]
         end
  end.

Fixpoint join (sep : str) (ls : list str) : str :=
  match ls with
  | [] => []
  | [l] => l
  | l :: ls' => l ++ sep ++ join sep ls'
  end.

(** [needle in s]. *)
Fixpoint contains (needle s : str) : bool :=
  startswith needle s ||
  match s with
  | [] => false
  | _ :: t => contains needle t
  end.

(** Decimal digits of an integer. *)
Fixpoint uint_chars (d : Decimal.uint) : str :=
  match d with
  | Decimal.Nil => []
  | Decimal.D0 d' => 48%Z :: uint_chars d'
  | Decimal.D1 d' => 49%Z :: uint_chars d'
  | Decimal.D2 d' => 50%Z :: uint_chars d'
  | Decimal.D3 d' => 51%Z :: uint_chars d'
  | Decimal.D4 d' => 52%Z :: uint_chars d'
  | Decimal.D5 d' => 53%Z :: uint_chars d'
  | Decimal.D6 d' => 54%Z :: uint_chars d'
  | Decimal.D7 d' => 55%Z :: uint_chars d'
  | Decimal.D8 d' => 56%Z :: uint_chars d'
  | Decimal.D9 d' => 57%Z :: uint_chars d'
  end.

(** The format [{n}] of an integer. *)
Definition format_d (n : Z) : str :=
  match Z.to_int n with
  | Decimal.Pos d => uint_chars d
  | Decimal.Neg d => 45%Z :: uint_chars d
  end.

(** The format [{n:02d}]: the sign, then the digits padded with zeros up to
    a width of two. *)
Definition format_02d (n : Z) : str :=
  match Z.to_int n with
  | Decimal.Pos d =>
    let ds := uint_chars d in
    replicate (2 - length ds) 48%Z ++ ds
  | Decimal.Neg d => 45%Z :: uint_chars d
  end.

End PyStr.
Import PyStr.

(** ** Backtracking matching, as [re] does it

    A pattern is transcribed piece by piece, each piece taking the
    continuation that matches what follows it in the pattern.  A continuation
    is tried on the rest of the input and answers [None] when the match
    fails there, which makes the piece before it try its next alternative:
    a greedy repetition gives back one character at a time, a lazy one takes
    one more. *)

Module Re.

Definition any_chr (c : Z) : bool := true.
Definition not_nl (c : Z) : bool := negb (chr_eqb c 10).

Section Matcher.
Context {A : Type}.

Definition cont := str -> option A.

Definition or_else (a b : option A) : option A :=
  match a with
  | Some r => Some r
  | None => b
  end.

(** A literal string. *)
Definition literal (p : str) (k : cont) : cont :=
  fun s => if startswith p s then k (drop (length p) s) else None.

(** [X*] and [X+] for a character class [X], greedy; the continuation also
    receives the text matched by the repetition. *)
Fixpoint greedy_star (cls : Z -> bool) (k : str -> cont) (acc : str) (s : str)
  : option A :=
  match s with
  | c :: t =>
    if cls c then or_else (greedy_star cls k (acc ++ [c]) t) (k acc s)
    else k acc s
  | [] => k acc []
  end.

Definition greedy_plus (cls : Z -> bool) (k : str -> cont) : cont :=
  fun s =>
    match s with
    | c :: t => if cls c then greedy_star cls k [c] t else None
    | [] => None
    end.

(** [c?] for one character [c], greedy. *)
Definition optional (c : Z) (k : cont) : cont :=
  fun s =>
    match s with
    | x :: t => if chr_eqb x c then or_else (k t) (k s) else k s
    | [] => k []
    end.

(** [(X+?)]: characters of the class, as few as possible, at least one; the
    continuation receives the group.  [.] is [any_chr] under [re.DOTALL] and
    [not_nl] without it. *)
Fixpoint lazy_star (cls : Z -> bool) (k : str -> cont) (acc : str) (s : str)
  : option A :=
  or_else (k acc s)
    match s with
    | c :: t => if cls c then lazy_star cls k (acc ++ [c]) t else None
    | [] => None
    end.

Definition lazy_plus (cls : Z -> bool) (k : str -> cont) : cont :=
  fun s =>
    match s with
    | c :: t => if cls c then lazy_star cls k [c] t else None
    | [] => None
    end.

(** [\Z]: only at the end of the input. *)
Definition at_end (k : cont) : cont :=
  fun s =>
    match s with
    | [] => k []
    | _ :: _ => None
    end.

(** [$] without [re.MULTILINE]: at the end of the input, or before a
    line feed that ends it. *)
Definition at_dollar (k : cont) : cont :=
  fun s =>
    match s with
    | [] => k s
    | [c] => if chr_eqb c 10 then k s else None
    | _ => None
    end.

(** [X|Y]. *)
Definition alt (m1 m2 : cont) : cont :=
  fun s => or_else (m1 s) (m2 s).

(** [re.search]: the first position, from the left, where the pattern
    matches ([re.match] is the pattern applied to the input itself). *)
Fixpoint search (m : cont) (s : str) : option A :=
  or_else (m s)
    match s with
    | _ :: t => search m t
    | [] => None
    end.

End Matcher.

(** A look-ahead [(?=X)]: [X] is tried, nothing is consumed. *)
Definition lookahead {A} (m : str -> option unit) (k : @cont A) : @cont A :=
  fun s =>
    match m s with
    | Some _ => k s
    | None => None
    end.

(** [re.findall] for a pattern without groups: the matches from left to
    right, without overlap.  The matcher answers the rest of the input after
    the match; [skip] counts the characters of the last match that are still
    to be stepped over. *)
Fixpoint findall_from (m : str -> option str) (skip : nat) (s : str) : list str :=
  match s with
  | [] =>
    match skip, m [] with
    | O, Some _ => [[]]
    | _, _ => []
    end
  | _ :: t =>
    match skip with
    | S n => findall_from m n t
    | O =>
      match m s with
      | Some rest =>
        let n := length s - length rest in
        take n s :: findall_from m (n - 1) t
      | None => findall_from m 0 t
      end
    end
  end.

Definition findall (m : str -> option str) (s : str) : list str :=
  findall_from m 0 s.

(** [re.findall] for a pattern that begins with [^] under [re.MULTILINE]:
    the rest of the pattern is tried only at the start of the input and just
    after a line feed; [bol] tells whether the position is one of these. *)
Fixpoint findall_bol_from (m : str -> option str) (bol : bool) (skip : nat) (s : str)
  : list str :=
  match s with
  | [] =>
    match skip, (if bol then m [] else None) with
    | O, Some _ => [[]]
    | _, _ => []
    end
  | c :: t =>
    match skip with
    | S n => findall_bol_from m (chr_eqb c 10) n t
    | O =>
      match (if bol then m s else None) with
      | Some rest =>
        let n := length s - length rest in
        take n s :: findall_bol_from m (chr_eqb c 10) (n - 1) t
      | None => findall_bol_from m (chr_eqb c 10) 0 t
      end
    end
  end.

Definition findall_bol (m : str -> option str) (s : str) : list str :=
  findall_bol_from m true 0 s.

(** [re.split] for a pattern without groups that matches no empty string:
    the pieces between the matches.  The matcher is given the character
    before the position, for a look-behind, and answers the rest of the input
    after the match; [cur] is the piece being read. *)
Fixpoint split_from (m : option Z -> str -> option str) (prev : option Z) (skip : nat)
  (cur : str) (s : str) : list str :=
  match s with
  | [] => [cur]
  | c :: t =>
    match skip with
    | S n => split_from m (Some c) n cur t
    | O =>
      match m prev s with
      | Some rest =>
        cur :: split_from m (Some c) (length s - length rest - 1) [] t
      | None => split_from m (Some c) 0 (cur ++ [c]) t
      end
    end
  end.

Definition split (m : option Z -> str -> option str) (s : str) : list str :=
  split_from m None 0 [] s.

End Re.

(** ** The episode linter of [validate.py] *)

Module Validate.

(** *** [_has_ssang_siot_batchim] and [_classify_ending] *)

Inductive Category := PAST | OTHER_DA | NON_DA.

Definition Category_eqb (a b : Category) : bool :=
  match a, b with
  | PAST, PAST | OTHER_DA, OTHER_DA | NON_DA, NON_DA => true
  | _, _ => false
  end.

(** The syllables named in the source: 다, 있 and 겠. *)
Definition da : Z := 0xB2E4.
Definition iss : Z := 0xC788.
Definition gess : Z := 0xACA0.

Definition _has_ssang_siot_batchim (char : Z) : bool :=
  let code := (char - 0xAC00)%Z in
  if ((code <? 0) || (code >? 11171))%Z then false
  else (code mod 28 =? 20)%Z.

Definition ending_punct : str := lit ".!? " ++ [9%Z].

Definition _classify_ending (sentence : str) : Category :=
  let clean := rstrip ending_punct sentence in
  match bool_decide (2 <= length clean), from_end clean 1, from_end clean 2 with
  | true, Some c, Some prev =>
    if chr_eqb c da then
      if _has_ssang_siot_batchim prev then
        if mem prev [iss; gess] then OTHER_DA else PAST
      else OTHER_DA
    else NON_DA
  | _, _, _ => NON_DA
  end.

(** *** [extract_body], [check_f1_char_count] and [check_f2_img_markers] *)

(** The pattern [\[IMG:[^\]]+\]], which [re.findall] applies to the text
    and which [re.match] applies to a stripped line between [^] and [$]. *)
Definition close_bracket : Z := 93.

Definition img_marker {A} (k : @Re.cont A) : @Re.cont A :=
  Re.literal (lit "[IMG:")
    (Re.greedy_plus (fun c => negb (chr_eqb c close_bracket))
       (fun _ => Re.literal [close_bracket] k)).

Definition is_img_line (stripped : str) : bool :=
  match img_marker (Re.at_dollar (fun _ => Some tt)) stripped with
  | Some _ => true
  | None => false
  end.

Definition img_markers (text : str) : list str :=
  Re.findall (img_marker Some) text.

Definition preview_label : str := lit "**다음 화 예고**".
Definition preview_label_nospace : str := lit "**다음화 예고**".
Definition rule_line : str := lit "---".

(** The loop of [extract_body]: what one line does to [in_body] and to
    [body_lines]. *)
Inductive line_action := Skip | Append | Break.

Definition body_step (in_body : bool) (line : str) : bool * line_action :=
  let stripped := strip line in
  if startswith (lit "# EP-") stripped then (true, Skip)
  else if startswith (lit ">") stripped && negb in_body then (in_body, Skip)
  else if negb in_body then
    (if str_eqb stripped rule_line then (true, Skip) else (in_body, Skip))
  else if startswith preview_label stripped
          || startswith preview_label_nospace stripped then (in_body, Break)
  else if is_img_line stripped then (in_body, Skip)
  else if str_eqb stripped rule_line then (in_body, Skip)
  else (in_body, Append).

Fixpoint body_loop (lines : list str) (in_body : bool) (body_lines : list str)
  : list str :=
  match lines with
  | [] => body_lines
  | line :: rest =>
    match body_step in_body line with
    | (in_body', Skip) => body_loop rest in_body' body_lines
    | (in_body', Append) => body_loop rest in_body' (body_lines ++ [line])
    | (_, Break) => body_lines
    end
  end.

Definition extract_body (text : str) : str :=
  join nl (body_loop (split_lines text) false []).

(** [s.replace(c, "")] for a one-character [c]. *)
Definition remove_chr (c : Z) (s : str) : str :=
  filter (fun x => x <> c) s.

Inductive Verdict := PASS | FAIL.

Record CheckResult := {
  id : str;
  name : str;
  result : Verdict;
  value : Z;
  criteria : str;
  detail : str;
}.

(** The note [({'부족' if n < low else '초과'})] of a failed count. *)
Definition shortage_note (passed : bool) (n low : Z) : str :=
  if passed then []
  else lit " (" ++ (if (n <? low)%Z then lit "부족" else lit "초과") ++ lit ")".

Definition verdict_of (passed : bool) : Verdict := if passed then PASS else FAIL.

Definition f1_char_count (text : str) : Z :=
  let body := extract_body text in
  Z.of_nat (length (remove_chr 32 (remove_chr 10 body))).

Definition check_f1_char_count (text : str) : CheckResult :=
  let char_count := f1_char_count text in
  let passed := ((9000 <=? char_count) && (char_count <=? 11000))%Z in
  {| id := lit "F1";
     name := lit "글자 수";
     result := verdict_of passed;
     value := char_count;
     criteria := lit "9,000~11,000자";
     detail := lit "본문 " ++ format_d char_count ++ lit "자"
               ++ shortage_note passed char_count 9000 |}.

Definition check_f2_img_markers (text : str) : CheckResult :=
  let markers := img_markers text in
  let count := Z.of_nat (length markers) in
  let passed := ((3 <=? count) && (count <=? 5))%Z in
  {| id := lit "F2";
     name := lit "[IMG] 마커";
     result := verdict_of passed;
     value := count;
     criteria := lit "3~5개";
     detail := lit "[IMG] 마커 " ++ format_d count ++ lit "개"
               ++ shortage_note passed count 3 |}.

(** *** [check_f6_sentence_endings], from the list of sentences on *)

(** The middle loop of [check_f6_sentence_endings]: short fragments and
    dialogue are left out, the other sentences are kept with their class.
    [None] is the [IndexError] of [stripped[0]] on an empty string. *)
Definition is_dialogue_open (c : Z) : bool := mem c [34; 0x201C; 0x300C]%Z.

Fixpoint classify_sentences (sentences : list str)
  : option (list str * list Category) :=
  match sentences with
  | [] => Some ([], [])
  | s :: rest =>
    if bool_decide (length s < 10) then classify_sentences rest
    else
      let stripped := strip s in
      match stripped with
      | [] => None
      | c0 :: _ =>
        if is_dialogue_open c0 then classify_sentences rest
        else if startswith [39%Z] stripped && endswith [39%Z] stripped
        then classify_sentences rest
        else
          match classify_sentences rest with
          | Some (texts, cats) =>
            Some (stripped :: texts, _classify_ending stripped :: cats)
          | None => None
          end
      end
  end.

(** The run detector of [check_f6_sentence_endings]: the loop over
    [enumerate(categories)] with its variables [start], [consecutive] and
    [violation_groups], then the test after the loop.  [None] is the
    [IndexError] of [sentence_texts[j]]. *)
Record ViolationGroup := {
  g_start : Z;
  g_length : Z;
  g_samples : list str;
}.

Record scan_state := {
  start : Z;
  consecutive : Z;
  violation_groups : list ViolationGroup;
}.

Definition make_group (sentence_texts : list str) (start consecutive : Z)
  : option ViolationGroup :=
  match mapM (fun j => last_chars 30 <$> getitem sentence_texts j)
             (range start (start + Z.min consecutive 3)) with
  | Some samples =>
    Some {| g_start := start; g_length := consecutive; g_samples := samples |}
  | None => None
  end.

Definition flush_run (sentence_texts : list str) (st : scan_state)
  : option (list ViolationGroup) :=
  if (3 <=? consecutive st)%Z then
    match make_group sentence_texts (start st) (consecutive st) with
    | Some g => Some (violation_groups st ++ [g])
    | None => None
    end
  else Some (violation_groups st).

Definition scan_step (sentence_texts : list str) (st : scan_state) (i : Z)
  (cat : Category) : option scan_state :=
  if Category_eqb cat PAST then
    Some {| start := if (consecutive st =? 0)%Z then i else start st;
            consecutive := consecutive st + 1;
            violation_groups := violation_groups st |}
  else
    match flush_run sentence_texts st with
    | Some groups =>
      Some {| start := -1; consecutive := 0; violation_groups := groups |}
    | None => None
    end.

Fixpoint scan_loop (sentence_texts : list str) (st : scan_state) (i : Z)
  (categories : list Category) : option scan_state :=
  match categories with
  | [] => Some st
  | cat :: rest =>
    match scan_step sentence_texts st i cat with
    | Some st' => scan_loop sentence_texts st' (i + 1) rest
    | None => None
    end
  end.

Definition scan_init : scan_state :=
  {| start := -1; consecutive := 0; violation_groups := [] |}.

Definition find_violation_groups (categories : list Category)
  (sentence_texts : list str) : option (list ViolationGroup) :=
  match scan_loop sentence_texts scan_init 0 categories with
  | Some st => flush_run sentence_texts st
  | None => None
  end.

End Validate.
Import Validate.

(** ** The context assembler of [context_assembly.py] *)

Module ContextAssembly.

Record KeywordRule := {
  keywords : list str;
  sections : list str;
}.

(** The dictionaries keep the order in which their entries are written. *)
Definition WORLD_KEYWORDS : list (string * KeywordRule) := [
  ("energy"%string,
   {| keywords := map lit ["전투"; "마나"; "기운"; "폭주"; "마법"; "에너지";
                           "서클"; "공격"; "방어"; "검"]%string;
      sections := map lit ["에너지원 체계"; "에너지 작용 원리"; "안정화 매개체";
                           "마나 운용 메커니즘"; "마법 분류 체계";
                           "실전 마법 운용"]%string |});
  ("geography"%string,
   {| keywords := map lit ["루미나리아"; "아스트라"; "크론하임"; "실바렌"; "수도";
                           "도시"; "숲"; "산맥"; "동굴"]%string;
      sections := map lit ["사회/거점"; "지리 개요";
                           "거점/기관 이중 구조"]%string |});
  ("integration"%string,
   {| keywords := map lit ["또아리"; "통합"; "조율"; "동적"; "꼬기"; "3에너지";
                           "해체"]%string;
      sections := map lit ["에너지 통합 이론"; "또아리 조율";
                           "동적 조율"]%string |});
  ("politics"%string,
   {| keywords := map lit ["왕실"; "견제파"; "심사"; "카르마"; "정치"; "왕가";
                           "맹약"]%string;
      sections := map lit ["왕가-엔타리스 관계"; "왕립 초능력원"]%string |});
  ("dragon"%string,
   {| keywords := map lit ["드래곤"; "코오리"; "호노오"; "드래고니안";
                           "폴리모프"]%string;
      sections := map lit ["드래고니안"; "드래곤 사회 규칙"]%string |});
  ("circle"%string,
   {| keywords := [];
      sections := map lit ["서클 체계"]%string |})
].

Definition CHARACTER_NAMES : list (str * str) := [
  (lit "사일라즈", lit "사일라즈 엔타리스");
  (lit "마일스", lit "마일스 엔타리스");
  (lit "카르마", lit "카르마 엔타리스");
  (lit "소피아", lit "소피아");
  (lit "코오리", lit "츠메타이 코오리");
  (lit "알드릭", lit "알드릭 아우렐리스");
  (lit "루시안", lit "루시안 아우렐리스")
].

(** [d[key]] on a dictionary with string keys. *)
Fixpoint dict_get {V} (d : list (string * V)) (key : string) : option V :=
  match d with
  | [] => None
  | (k, v) :: d' => if String.eqb k key then Some v else dict_get d' key
  end.

(** *** [parse_ep_number] *)

Inductive parsed :=
  | Ok (n : Z)
  | ValueError (message : str).

(** The continuation that ends a pattern and answers its group. *)
Definition digits_cont : str -> @Re.cont str := fun digits _ => Some digits.

Section Digits.

(** The decimal digits outside ASCII, with their values, come from the
    Unicode database of the interpreter: [\d] matches them and [int] reads
    them.  The table is a parameter of the model. *)
Variable nonascii_decimal : Z -> option Z.

Definition decimal_value (c : Z) : option Z :=
  if (c <? 128)%Z then
    (if ((48 <=? c) && (c <=? 57))%Z then Some (c - 48)%Z else None)
  else nonascii_decimal c.

Definition is_decimal (c : Z) : bool :=
  match decimal_value c with
  | Some _ => true
  | None => false
  end.

(** The limit that the interpreter puts on the number of digits that [int]
    reads, [sys.get_int_max_str_digits()]: 4300 unless the interpreter was
    started or set otherwise, 0 for no limit.  It is a parameter of the
    model. *)
Variable max_str_digits : nat.

(** The number that a run of decimal digits writes. *)
Definition digits_value (digits : str) : Z :=
  fold_left (fun acc c => (10 * acc + default 0 (decimal_value c))%Z) digits 0%Z.

(** [int(digits)] for a run of decimal digits: the interpreter counts the
    digits, leading zeros too, and raises [ValueError] when there are more
    than 640 of them and more than the limit. *)
Definition int_of_digits (digits : str) : parsed :=
  let n := length digits in
  if ((640 <? n) && (0 <? max_str_digits) && (max_str_digits <? n))%nat then
    ValueError
      (lit "Exceeds the limit (" ++ format_d (Z.of_nat max_str_digits)
       ++ lit " digits) for integer string conversion: value has "
       ++ format_d (Z.of_nat n)
       ++ lit " digits; use sys.set_int_max_str_digits() to increase the limit")
  else Ok (digits_value digits).

(** A letter of the pattern under [re.IGNORECASE]; the letters E and P have
    no case variant outside ASCII. *)
Definition ascii_lower (c : Z) : Z :=
  if ((65 <=? c) && (c <=? 90))%Z then (c + 32)%Z else c.

Definition letter_ci {A} (c : Z) (k : @Re.cont A) : @Re.cont A :=
  fun s =>
    match s with
    | x :: t => if chr_eqb (ascii_lower x) (ascii_lower c) then k t else None
    | [] => None
    end.

(** [re.match(r"EP-?(\d+)", ep_arg, re.IGNORECASE)], answering group 1. *)
Definition ep_arg_pattern : @Re.cont str :=
  letter_ci 69 (letter_ci 80 (Re.optional 45
    (Re.greedy_plus is_decimal digits_cont))).

Definition parse_ep_number (ep_arg : str) : parsed :=
  match ep_arg_pattern ep_arg with
  | None =>
    ValueError (lit "잘못된 에피소드 형식: " ++ ep_arg ++ lit " (예: EP-05)")
  | Some digits => int_of_digits digits
  end.

End Digits.

(** *** [extract_ep_outline] *)

Record ep_outline := {
  outline : str;
  prev_ending_hook : str;
  ep_title : str;
}.

Definition matched {A} (a : A) : @Re.cont A := fun _ => Some a.

(** [### {tag}:(.+?)(?=\n### EP-|\n---|\Z)] under [re.DOTALL], answering
    group 1; group 0 is the literal followed by group 1. *)
Definition block_header (tag : str) : str := lit "### " ++ tag ++ lit ":".

Definition ep_block_pattern (tag : str) : @Re.cont str :=
  Re.literal (block_header tag)
    (Re.lazy_plus Re.any_chr (fun g =>
       Re.lookahead
         (Re.alt (Re.literal (nl ++ lit "### EP-") (matched tt))
            (Re.alt (Re.literal (nl ++ lit "---") (matched tt))
               (Re.at_end (matched tt))))
         (matched g))).

(** [### {tag}:\s*(.+?)(?:\s*\[|$)], answering group 1. *)
Definition title_pattern (tag : str) : @Re.cont str :=
  Re.literal (block_header tag)
    (Re.greedy_star is_space (fun _ =>
       Re.lazy_plus Re.not_nl (fun g =>
         Re.alt
           (Re.greedy_star is_space (fun _ => Re.literal (lit "[") (matched g)) [])
           (Re.at_dollar (matched g)))) []).

(** [\*\*엔딩 훅\*\*:\s*(.+?)(?:\n\n|\n-|\Z)] under [re.DOTALL],
    answering group 1. *)
Definition hook_label : str := lit "**엔딩 훅**:".

Definition hook_pattern : @Re.cont str :=
  Re.literal hook_label
    (Re.greedy_star is_space (fun _ =>
       Re.lazy_plus Re.any_chr (fun g =>
         Re.alt (Re.literal (nl ++ nl) (matched g))
           (Re.alt (Re.literal (nl ++ lit "-") (matched g))
              (Re.at_end (matched g))))) []).

(** [f"EP-{n:02d}"]. *)
Definition ep_tag_of (n : Z) : str := lit "EP-" ++ format_02d n.

Definition extract_ep_outline (text : str) (ep_num : Z) : ep_outline :=
  let ep_tag := ep_tag_of ep_num in
  let prev_tag :=
    if (1 <? ep_num)%Z then Some (ep_tag_of (ep_num - 1)) else None in
  let current := Re.search (ep_block_pattern ep_tag) text in
  let outline' :=
    match current with
    | Some g => block_header ep_tag ++ strip g
    | None => []
    end in
  let ep_title' :=
    match current with
    | Some g =>
      match split_lines (block_header ep_tag ++ g) with
      | first :: _ =>
        match Re.search (title_pattern ep_tag) first with
        | Some t => strip t
        | None => []
        end
      | [] => []
      end
    | None => []
    end in
  let hook :=
    match prev_tag with
    | Some tag =>
      match Re.search (ep_block_pattern tag) text with
      | Some prev_block =>
        match Re.search hook_pattern prev_block with
        | Some h => strip h
        | None => []
        end
      | None => []
      end
    | None => []
    end in
  {| outline := outline'; prev_ending_hook := hook; ep_title := ep_title' |}.

(** *** [extract_characters] and [extract_world_sections] *)

Definition elision_marker : str := lit "[... 이하 생략]".

(** The cut of a section that has more than [limit] lines. *)
Definition truncate_section (limit : nat) (section : str) : str :=
  let lines := split_lines section in
  if bool_decide (limit < length lines) then
    join nl (take limit lines) ++ nl ++ elision_marker
  else section.

(** [{marker}{name}(.+?)(?=stops|\Z)] under [re.DOTALL], each stop being a
    line feed followed by a heading marker; answers group 1. *)
Fixpoint stops_or_end (stops : list str) : @Re.cont unit :=
  match stops with
  | [] => Re.at_end (matched tt)
  | p :: stops' => Re.alt (Re.literal (nl ++ p) (matched tt)) (stops_or_end stops')
  end.

Definition section_pattern (marker name : str) (stops : list str) : @Re.cont str :=
  Re.literal (marker ++ name)
    (Re.lazy_plus Re.any_chr (fun g => Re.lookahead (stops_or_end stops) (matched g))).

Definition mentioned_headers (outline : str) : list str :=
  let mentioned :=
    omap (fun '(name, section_header) =>
            if contains name outline then Some section_header else None)
         CHARACTER_NAMES in
  match mentioned with
  | [] => [lit "사일라즈 엔타리스"]
  | _ :: _ => mentioned
  end.

Definition character_sections (text outline : str) : list str :=
  omap (fun header =>
          match Re.search (section_pattern (lit "## ") header [lit "## "]) text with
          | Some g => Some (truncate_section 80 (lit "## " ++ header ++ g))
          | None => None
          end)
       (mentioned_headers outline).

Definition extract_characters (text outline : str) : str :=
  join (nl ++ nl) (character_sections text outline).

(** The set of section names; the categories are visited in the order of
    the dictionary, and a category is taken at its first keyword found. *)
Definition always_sections : list str :=
  match dict_get WORLD_KEYWORDS "circle" with
  | Some config => sections config
  | None => []
  end.

Definition take_rule (outline : str) (needed : gset str) (rule : string * KeywordRule)
  : gset str :=
  let '(_, config) := rule in
  if existsb (fun keyword => contains keyword outline) (keywords config)
  then needed ∪ list_to_set (sections config)
  else needed.

Definition needed_sections (outline : str) : gset str :=
  fold_left (take_rule outline) WORLD_KEYWORDS (list_to_set always_sections).

(** A Python set is visited in an order that the language leaves open;
    [elements] stands for it. *)
Definition world_sections (text outline : str) : list str :=
  omap (fun section_name =>
          match Re.search (section_pattern (lit "### ") section_name
                             [lit "### "; lit "## "]) text with
          | Some g => Some (truncate_section 60 (lit "### " ++ section_name ++ g))
          | None => None
          end)
       (elements (needed_sections outline)).

Definition extract_world_sections (text outline : str) : str :=
  join (nl ++ nl) (world_sections text outline).

End ContextAssembly.
Import ContextAssembly.

(** ** The other checks of [validate.py] and its report *)

Module Linter.

(** [sum(1 for x in l if p x)]. *)
Fixpoint count_if {A} (p : A -> bool) (l : list A) : nat :=
  match l with
  | [] => 0
  | x :: l' => if p x then S (count_if p l') else count_if p l'
  end.

(** *** [check_f3_scene_separators] *)

Definition is_rule_line (line : str) : bool := str_eqb (strip line) rule_line.

Definition check_f3_scene_separators (text : str) : CheckResult :=
  let lines := split_lines text in
  let count := Z.of_nat (count_if is_rule_line lines) in
  let passed := ((3 <=? count) && (count <=? 6))%Z in
  {| id := lit "F3";
     name := lit "씬 구분자";
     result := verdict_of passed;
     value := count;
     criteria := lit "3~6개";
     detail := lit "--- 구분자 " ++ format_d count ++ lit "개"
               ++ shortage_note passed count 3 |}.

(** *** [check_f5_next_preview] *)

(** [\*\*다음\s*화\s*예고\*\*]. *)
Definition preview_pattern : @Re.cont unit :=
  Re.literal (lit "**다음")
    (Re.greedy_star is_space (fun _ =>
       Re.literal (lit "화")
         (Re.greedy_star is_space (fun _ =>
            Re.literal (lit "예고**") (matched tt)) [])) []).

Definition has_preview (text : str) : bool :=
  match Re.search preview_pattern text with
  | Some _ => true
  | None => false
  end.

Definition check_f5_next_preview (text : str) : CheckResult :=
  let has_preview := has_preview text in
  {| id := lit "F5";
     name := lit "다음 화 예고";
     result := verdict_of has_preview;
     value := if has_preview then 1 else 0;
     criteria := lit "**다음 화 예고** 1개";
     detail := lit "다음 화 예고 " ++ (if has_preview then lit "존재" else lit "없음") |}.

(** *** The sentences of [check_f6_sentence_endings] *)

(** [(?<=[.!?])\s+]. *)
Definition is_sentence_end (c : Z) : bool := mem c (lit ".!?").

Definition sentence_gap (prev : option Z) : @Re.cont str :=
  fun s =>
    match prev with
    | Some p =>
      if is_sentence_end p then Re.greedy_plus is_space (fun _ rest => Some rest) s
      else None
    | None => None
    end.

(** [p.strip() for p in parts if p.strip()]. *)
Definition stripped_parts (parts : list str) : list str :=
  omap (fun p => match strip p with
                 | [] => None
                 | q => Some q
                 end) parts.

Definition line_sentences (line : str) : list str :=
  match strip line with
  | [] => []
  | line' => stripped_parts (Re.split sentence_gap line')
  end.

Fixpoint body_sentences (raw_lines : list str) : list str :=
  match raw_lines with
  | [] => []
  | line :: rest => line_sentences line ++ body_sentences rest
  end.

(** One line of the detail: [f"  [{g['length']}연속] ...{' / ...'.join(g['samples'])}"]. *)
Definition group_detail (g : ViolationGroup) : str :=
  lit "  [" ++ format_d (g_length g) ++ lit "연속] ..."
  ++ join (lit " / ...") (g_samples g).

(** [None] is an [IndexError] of one of the two loops. *)
Definition check_f6_sentence_endings (text : str) : option CheckResult :=
  let body := extract_body text in
  let sentences := body_sentences (split_lines body) in
  match classify_sentences sentences with
  | None => None
  | Some (sentence_texts, categories) =>
    match find_violation_groups categories sentence_texts with
    | None => None
    | Some violation_groups =>
      let count := Z.of_nat (length violation_groups) in
      let passed := (count =? 0)%Z in
      let detail_parts :=
        (lit "과거형 문미 연속 위반 " ++ format_d count ++ lit "개소")
        :: (if passed then [] else map group_detail (take 3 violation_groups)) in
      Some {| id := lit "F6";
              name := lit "문미 연속";
              result := verdict_of passed;
              value := count;
              criteria := lit "과거형(~았/었/였/했다) 3연속 0개소";
              detail := join nl detail_parts |}
    end
  end.

Section Digits.

Variable nonascii_decimal : Z -> option Z.

(** *** [check_f4_markdown_structure] *)

(** [^# EP-\d+:] under [re.MULTILINE], after the [^]. *)
Definition header_pattern : @Re.cont str :=
  Re.literal (lit "# EP-")
    (Re.greedy_plus (is_decimal nonascii_decimal) (fun _ => Re.literal (lit ":") Some)).

Definition header_matches (text : str) : list str :=
  Re.findall_bol header_pattern text.

Definition check_f4_markdown_structure (text : str) : CheckResult :=
  let matches := header_matches text in
  let count := Z.of_nat (length matches) in
  let passed := (count =? 1)%Z in
  {| id := lit "F4";
     name := lit "마크다운 구조";
     result := verdict_of passed;
     value := count;
     criteria := lit "# EP-XX: 헤더 1개";
     detail := lit "헤더 " ++ format_d count ++ lit "개 발견"
               ++ (if passed then [] else lit " (정확히 1개 필요)") |}.

(** *** [validate] and the exit status of the script *)









End Digits.

End Linter.
Import Linter.

(** ** [get_previous_episode_ending] *)

Module Continuity.

Section Files.

(** The episode files are given by what the file system answers:
    [glob_files pilot pattern] is the list of the files that
    [glob(pattern)] yields, in its order, in the episodes directory or, for
    [pilot], in its [pilot] directory, each file by what
    [read_text(encoding="utf-8")] answers for it: its text, or [None] when
    the call raises (a directory of that name, bytes that are no UTF-8);
    [pilot_exists] tells whether the [pilot] directory exists. *)
Variable glob_files : bool -> str -> list (option str).
Variable pilot_exists : bool.

(** [text[-500:] if len(text) > 500 else text]. *)
Definition ending_of (text : str) : str :=
  if bool_decide (500 < length text) then last_chars 500 text else text.

(** The loop over the two patterns in one directory: [None] when no pattern
    yields a file; otherwise the first file is read, and [Some None] is the
    exception of [read_text]. *)
Fixpoint first_glob (pilot : bool) (patterns : list str) : option (option str) :=
  match patterns with
  | [] => None
  | pattern :: patterns' =>
    match glob_files pilot pattern with
    | file :: _ => Some (ending_of <$> file)
    | [] => first_glob pilot patterns'
    end
  end.

(** [None] is the exception of [read_text], which the function lets
    through. *)
Definition get_previous_episode_ending (ep_num : Z) : option str :=
  if (ep_num <=? 1)%Z then Some []
  else
    let prev_tag := ep_tag_of (ep_num - 1) in
    let patterns := [prev_tag ++ lit "_*.md"; prev_tag ++ lit "*.md"] in
    match first_glob false patterns with
    | Some ending => ending
    | None =>
      if pilot_exists then
        match first_glob true patterns with
        | Some ending => ending
        | None => Some []
        end
      else Some []
    end.

End Files.

End Continuity.
Import Continuity.

(** ** Statements of the specification, in its own words *)

Module Spec.

(** The case split of the specification for the classifier: [NON_DA] when the
    cleaned unit does not end in 다, and otherwise one of the two outcomes it
    gives for the syllable before 다. *)
Definition ending_split_as_stated (unit : str) : Prop :=
  let clean := rstrip ending_punct unit in
  (last clean <> Some da -> _classify_ending unit = NON_DA) /\
  (last clean = Some da ->
   _classify_ending unit = OTHER_DA \/ _classify_ending unit = PAST).

(** A maximal run of PAST entries: [l] entries from index [s] on, all PAST,
    with no PAST entry just before and none just after. *)
Definition run_of_past (cats : list Category) (s l : nat) : Prop :=
  forall i, s <= i < s + l -> cats !! i = Some PAST.

Definition maximal_past_run (cats : list Category) (s l : nat) : Prop :=
  0 < l /\ run_of_past cats s l /\
  (forall s', s = S s' -> cats !! s' <> Some PAST) /\
  cats !! (s + l) <> Some PAST.

(** The group recorded for the run [l] from [s]: start, length and the
    last 30 characters of its first three sentences. *)
Definition group_of_run (texts : list str) (g : ViolationGroup) (s l : nat) : Prop :=
  g_start g = Z.of_nat s /\ g_length g = Z.of_nat l /\
  exists t0 t1 t2,
    texts !! s = Some t0 /\ texts !! (s + 1) = Some t1 /\
    texts !! (s + 2) = Some t2 /\
    g_samples g = [last_chars 30 t0; last_chars 30 t1; last_chars 30 t2].

(** Groups in the order of the sequence, no two of them touching. *)
Definition groups_apart (groups : list ViolationGroup) : Prop :=
  forall i j g1 g2, i < j -> groups !! i = Some g1 -> groups !! j = Some g2 ->
    (g_start g1 + g_length g1 < g_start g2)%Z.

(** The state of the scan after the entries [done]: [c] entries at the end
    are PAST and the one before them is not; the groups are the maximal runs
    of three or more that have been closed. *)
Definition scan_inv (texts : list str) (done : list Category) (st : scan_state)
  : Prop :=
  exists c : nat,
    consecutive st = Z.of_nat c /\ c <= length done /\
    run_of_past done (length done - c) c /\
    (c < length done -> done !! (length done - c - 1) <> Some PAST) /\
    (0 < c -> start st = Z.of_nat (length done - c)) /\
    (forall g, g ∈ violation_groups st ->
       exists s l, group_of_run texts g s l /\ 3 <= l /\
         s + l < length done - c /\ maximal_past_run done s l) /\
    (forall s l, 3 <= l -> s + l < length done -> maximal_past_run done s l ->
       exists g, g ∈ violation_groups st /\ group_of_run texts g s l) /\
    groups_apart (violation_groups st).


(** The text of a marker with the inner text [x], which is not empty and
    holds no closing bracket. *)
Definition marker (x : str) : str := lit "[IMG:" ++ x ++ [close_bracket].

Definition inner_ok (x : str) : Prop := x <> [] /\ close_bracket ∉ x.

(** The markers of a text in the words of the claim: the occurrences of
    [IMG:...] in the whole text, from left to right and without overlap.  A
    position where no marker begins is stepped over, whatever stands there;
    after a marker the search goes on behind it. *)
Inductive markers_of : str -> list str -> Prop :=
  | markers_end : markers_of [] []
  | markers_step (c : Z) (t : str) (ms : list str) :
      (forall x rest, inner_ok x -> c :: t <> marker x ++ rest) ->
      markers_of t ms -> markers_of (c :: t) ms
  | markers_hit (x rest : str) (ms : list str) :
      inner_ok x -> markers_of rest ms ->
      markers_of (marker x ++ rest) (marker x :: ms).

(** A draft with a bracket that opens no marker before its three markers. *)
Definition draft_with_note : str := lit "[참고] [IMG:a] [IMG:b] [IMG:c]".

(** A draft with one marker in the header line, one inside a line of prose
    and one after the preview label. *)
Definition draft_with_markers : str :=
  lit "# EP-01: 제목 [IMG:a]" ++ nl ++ lit "본문 [IMG:b] 이다." ++ nl
  ++ lit "**다음 화 예고** [IMG:c]".

(** The canonical episode tag: EP- followed by two ASCII digits. *)
Definition ascii_digit (c : Z) : Prop := (48 <= c <= 57)%Z.

Definition canonical_ep_tag (s : str) : Prop :=
  exists a b, ascii_digit a /\ ascii_digit b /\ s = lit "EP-" ++ [a; b].

Definition parse_raises (nd : Z -> option Z) (limit : nat) (s : str) : Prop :=
  exists message, parse_ep_number nd limit s = ValueError message.

(** The statement of the specification: an error exactly off the canonical
    form. *)
Definition parse_as_stated (nd : Z -> option Z) (limit : nat) : Prop :=
  forall s, parse_raises nd limit s <-> ~ canonical_ep_tag s.

(** What the pattern accepts: E or e, P or p, at most one hyphen, then one
    decimal digit or more, then anything. *)
Definition ep_arg_form (nd : Z -> option Z) (s : str) : Prop :=
  exists e p hyphen digits rest,
    s = [e; p] ++ hyphen ++ digits ++ rest /\
    (e = 69 \/ e = 101)%Z /\ (p = 80 \/ p = 112)%Z /\
    (hyphen = [] \/ hyphen = [45%Z]) /\
    digits <> [] /\ forallb (is_decimal nd) digits = true.

(** What the pattern reads: the digits of an identifier of that form, all
    of them up to the first character that is no decimal digit. *)
Definition ep_arg_reads (nd : Z -> option Z) (s digits : str) : Prop :=
  exists e p hyphen rest,
    s = [e; p] ++ hyphen ++ digits ++ rest /\
    (e = 69 \/ e = 101)%Z /\ (p = 80 \/ p = 112)%Z /\
    (hyphen = [] \/ hyphen = [45%Z]) /\
    digits <> [] /\ forallb (is_decimal nd) digits = true /\
    match rest with
    | [] => True
    | c :: _ => is_decimal nd c = false
    end.

(** More digits than the interpreter converts: more than 640 and more than
    its limit, when it has one. *)
Definition too_many_digits (limit n : nat) : Prop :=
  640 < n /\ 0 < limit /\ limit < n.

Definition no_nl (l : str) : Prop := 10%Z ∉ l.

(** The lines of a section that was cut: at most [limit] lines, or [limit]
    lines followed by the elision marker. *)
Definition lines_within (limit : nat) (section : str) : Prop :=
  length (split_lines section) <= limit \/
  (length (split_lines section) = S limit /\
   last (split_lines section) = Some elision_marker).

(** A character document whose section on 소피아 has 101 lines. *)
Definition long_character_text : str :=
  lit "## 소피아" ++ concat (replicate 100 (nl ++ lit "줄")) ++ nl ++ lit "## 끝".

(** The text up to the first place where one of [stops] begins, or up to
    the end. *)
Definition stop_here (stops : list str) (s : str) : bool :=
  match s with
  | [] => true
  | _ :: _ => existsb (fun p => startswith p s) stops
  end.

Fixpoint until (stops : list str) (s : str) : str :=
  match s with
  | [] => []
  | c :: t => if stop_here stops s then [] else c :: until stops t
  end.

(** Where a block ends: before the next episode heading or a rule.  Where a
    hook ends in the source: before a blank line or a line that starts with a
    hyphen. *)
Definition block_stops : list str := [nl ++ lit "### EP-"; nl ++ lit "---"].
Definition hook_stops : list str := [nl ++ nl; nl ++ lit "-"].

(** [needle] begins nowhere in [pre ++ rest] before the end of [pre]. *)
Definition first_at (needle pre rest : str) : Prop :=
  forall i, i < length pre -> startswith needle (drop i (pre ++ rest)) = false.

(** The hook in the words of the specification: the text after the label, up
    to the next blank line or the next line with a bold label, written with
    or without a list hyphen. *)
Definition stated_stops : list str := [nl ++ nl; nl ++ lit "**"; nl ++ lit "- **"].

Fixpoint after_first (needle s : str) : option str :=
  if startswith needle s then Some (drop (length needle) s)
  else match s with
       | [] => None
       | _ :: t => after_first needle t
       end.

Definition hook_as_stated (block : str) : str :=
  match after_first hook_label block with
  | Some rest => strip (until stated_stops rest)
  | None => []
  end.

Definition prev_hook_as_stated : Prop :=
  forall (text : str) (N : Z) (block : str),
    (1 < N)%Z ->
    Re.search (ep_block_pattern (ep_tag_of (N - 1))) text = Some block ->
    contains hook_label block = true ->
    prev_ending_hook (extract_ep_outline text N) = hook_as_stated block.

(** Two outline documents: in the first the hook is followed by a list item
    without a bold label, in the second by a line with a bold label and no
    hyphen. *)
Definition outline_with_item : str :=
  lit "### EP-01: 제목" ++ nl ++ lit "- **엔딩 훅**: 문이 열렸다." ++ nl
  ++ lit "- 메모: 끝" ++ nl ++ lit "### EP-02: 둘" ++ nl ++ lit "본문".

Definition outline_with_bold_line : str :=
  lit "### EP-01: 제목" ++ nl ++ lit "**엔딩 훅**: 문이 열렸다." ++ nl
  ++ lit "**메모**: 다음 화로" ++ nl ++ lit "### EP-02: 둘" ++ nl ++ lit "본문".

(** *** Lines of a draft, as [extract_body] sees them *)

Definition is_header_start (line : str) : bool :=
  startswith (lit "# EP-") (strip line).

Definition is_preview_start (line : str) : bool :=
  startswith preview_label (strip line)
  || startswith preview_label_nospace (strip line).

Definition is_marker_line (line : str) : bool := is_img_line (strip line).

Definition is_quote_start (line : str) : bool := startswith (lit ">") (strip line).

(** A line of prose: no header, no preview label, no marker alone, no
    rule. *)
Definition body_line (line : str) : Prop :=
  is_header_start line = false /\ is_preview_start line = false /\
  is_marker_line line = false /\ is_rule_line line = false.

(** Some line starts the body: a header, or a rule. *)
Definition starts_body (lines : list str) : Prop :=
  Exists (fun l => is_header_start l = true \/ is_rule_line l = true) lines.

(** The text that a match of a pattern takes at the start of a line. *)
Definition matched_prefix (m : str -> option str) (line : str) : option str :=
  match m line with
  | Some rest => Some (take (length line - length rest) line)
  | None => None
  end.

(** *** Pieces of a line and the gaps between them *)

(** One step of [int]: the number read so far, then one more digit. *)
Definition digit_step (nd : Z -> option Z) (acc : Z) (c : Z) : Z :=
  (10 * acc + default 0 (decimal_value nd c))%Z.

(** The header of a character entry whose name occurs in the outline. *)
Definition header_if_named (outline : str) (entry : str * str) : option str :=
  let '(name, section_header) := entry in
  if contains name outline then Some section_header else None.

(** A first piece, then gaps each followed by its piece. *)
Definition weave (first : str) (rest : list (str * str)) : str :=
  first ++ concat (map (fun gq => gq.1 ++ gq.2) rest).

Definition gap_ok (gq : str * str) : Prop :=
  gq.1 <> [] /\ forallb is_space gq.1 = true.

Definition ends_sentence (piece : str) : Prop :=
  exists c, last piece = Some c /\ is_sentence_end c = true.

(** Every piece that a gap follows ends a sentence. *)
Fixpoint closed_before_gaps (first : str) (rest : list (str * str)) : Prop :=
  match rest with
  | [] => True
  | gq :: rest' => ends_sentence first /\ closed_before_gaps gq.2 rest'
  end.

(** The state of the split: the piece being read ends with the character
    before the position, or is empty after a character that ends no
    sentence. *)
Definition split_inv (prev : option Z) (cur : str) : Prop :=
  match cur with
  | [] => forall c, prev = Some c -> is_sentence_end c = false
  | _ :: _ => last cur = prev
  end.

(** Three PAST entries in a row, from index [i]. *)
Definition three_past (cats : list Category) (i : nat) : Prop :=
  cats !! i = Some PAST /\ cats !! (i + 1) = Some PAST /\ cats !! (i + 2) = Some PAST.

(** The last [n] characters of a text, or the whole text when it has no
    more. *)
Definition is_tail (n : nat) (text e : str) : Prop :=
  exists pre, text = pre ++ e /\ length e = n `min` length text.

(** What reading the first file found gives: the exception of the read, or
    the last 500 characters of its text. *)
Definition ending_read (file : option str) (r : option str) : Prop :=
  match file with
  | None => r = None
  | Some text => exists e, r = Some e /\ is_tail 500 text e
  end.





End Spec.

(** ** The classifier *)

Section Classifier.

Local Open Scope Z_scope.

Lemma reverse_rev {A} (l : list A) : reverse l = rev l.
Proof. unfold reverse. symmetry. apply rev_alt. Qed.

Lemma from_end_last_two (pre : str) (p c : Z) :
  from_end (pre ++ [p; c]) 1 = Some c /\ from_end (pre ++ [p; c]) 2 = Some p.
Proof.
  unfold from_end. rewrite !length_app. simpl length.
  split; (case_decide; [| lia]).
  - replace (length pre + 2 - 1)%nat with (length pre + 1)%nat by lia.
    rewrite lookup_app_r by lia.
    replace (length pre + 1 - length pre)%nat with 1%nat by lia. reflexivity.
  - replace (length pre + 2 - 2)%nat with (length pre + 0)%nat by lia.
    rewrite lookup_app_r by lia.
    replace (length pre + 0 - length pre)%nat with 0%nat by lia. reflexivity.
Qed.

Lemma last_two_cases (s : str) :
  (length s < 2)%nat \/ exists pre p c, s = pre ++ [p; c].
Proof.
  destruct (rev s) as [| c [| p r]] eqn:E.
  - left. apply (f_equal (@length Z)) in E. rewrite length_rev in E. simpl in E. lia.
  - left. apply (f_equal (@length Z)) in E. rewrite length_rev in E. simpl in E. lia.
  - right. exists (rev r), p, c.
    rewrite <- (rev_involutive s), E. simpl. rewrite <- app_assoc. reflexivity.
Qed.

Lemma last_snoc2 (pre : str) (p c : Z) : last (pre ++ [p; c]) = Some c.
Proof.
  replace (pre ++ [p; c]) with ((pre ++ [p]) ++ [c]) by (rewrite <- app_assoc; reflexivity).
  apply last_snoc.
Qed.

Lemma classify_short (sentence : str) :
  (length (rstrip ending_punct sentence) < 2)%nat ->
  _classify_ending sentence = NON_DA.
Proof.
  intros H. unfold _classify_ending.
  rewrite bool_decide_eq_false_2 by lia. reflexivity.
Qed.

Lemma classify_long (sentence pre : str) (p c : Z) :
  rstrip ending_punct sentence = pre ++ [p; c] ->
  _classify_ending sentence =
    if chr_eqb c da then
      if _has_ssang_siot_batchim p then
        if mem p [iss; gess] then OTHER_DA else PAST
      else OTHER_DA
    else NON_DA.
Proof.
  intros E. unfold _classify_ending. rewrite E.
  destruct (from_end_last_two pre p c) as [-> ->].
  rewrite bool_decide_eq_true_2; [reflexivity |].
  rewrite length_app. simpl. lia.
Qed.

Lemma has_ssang_siot_batchim_spec (char : Z) :
  _has_ssang_siot_batchim char = true <->
  0 <= char - 0xAC00 <= 11171 /\ (char - 0xAC00) mod 28 = 20.
Proof.
  unfold _has_ssang_siot_batchim. cbv zeta.
  destruct (char - 44032 <? 0) eqn:E1; simpl.
  - apply Z.ltb_lt in E1. split; [discriminate | lia].
  - apply Z.ltb_ge in E1.
    destruct (char - 44032 >? 11171) eqn:E2.
    + apply Z.gtb_lt in E2. split; [discriminate | lia].
    + rewrite Z.gtb_ltb in E2. apply Z.ltb_ge in E2.
      rewrite Z.eqb_eq. split; [intros; split; [lia | assumption] | tauto].
Qed.

Lemma mem_exceptions (p : Z) : mem p [iss; gess] = true <-> p = iss \/ p = gess.
Proof.
  unfold mem, chr_eqb. simpl. rewrite !orb_true_iff, !Z.eqb_eq.
  split; [intros [H | [H | H]]; [tauto | tauto | discriminate] | tauto].
Qed.

(** What [rstrip] returns: the input without its longest suffix made of the
    given characters. *)
Lemma lstrip_by_spec (q : Z -> bool) (s : str) :
  exists pre, s = pre ++ lstrip_by q s /\ forallb q pre = true /\
    match lstrip_by q s with
    | [] => True
    | c :: _ => q c = false
    end.
Proof.
  induction s as [| c t IH]; simpl.
  - exists []. auto.
  - destruct (q c) eqn:E.
    + destruct IH as (pre & E1 & E2 & E3).
      exists (c :: pre). simpl. rewrite E, E2. repeat split; [congruence | assumption].
    + exists []. simpl. auto.
Qed.

Lemma rstrip_spec (chars s : str) :
  exists suffix, s = rstrip chars s ++ suffix /\
    forallb (fun c => mem c chars) suffix = true /\
    match last (rstrip chars s) with
    | None => True
    | Some c => mem c chars = false
    end.
Proof.
  unfold rstrip, rstrip_by. rewrite !reverse_rev.
  destruct (lstrip_by_spec (fun c => mem c chars) (rev s)) as (pre & E1 & E2 & E3).
  exists (rev pre). repeat split.
  - rewrite <- rev_app_distr, <- E1, rev_involutive. reflexivity.
  - rewrite forallb_forall in *. intros x Hx. apply E2. apply in_rev. assumption.
  - destruct (lstrip_by (fun c => mem c chars) (rev s)) as [| c r]; [exact I |].
    simpl. rewrite last_snoc. assumption.
Qed.

(** C3, as amended: the first two literal units are classified as the
    specification says; in the third one, 그가 있었다., the syllable before 다
    is 었, which carries the final consonant ㅆ and is neither 있 nor 겠, and
    the unit is PAST.  The exception applies when 있 itself stands before 다,
    as in 그가 있다. *)
Theorem classify_ending_literals :
  _classify_ending (lit "그는 싸웠다.") = PAST /\
  _classify_ending (lit "그는 싸운다.") = OTHER_DA /\
  _classify_ending (lit "그가 있었다.") = PAST /\
  from_end (rstrip ending_punct (lit "그가 있었다.")) 2 = Some 0xC5C8 /\
  mem 0xC5C8 [iss; gess] = false /\
  _classify_ending (lit "그가 있다.") = OTHER_DA.
Proof. repeat match goal with |- _ /\ _ => split end; vm_compute; reflexivity. Qed.

(** C3 as stated fails: the unit 그가 있었다. is not classified OTHER_DA. *)
Lemma classify_ending_isseossda_counterexample :
  _classify_ending (lit "그가 있었다.") <> OTHER_DA.
Proof. vm_compute. discriminate. Qed.

(** C1, as amended: with [clean] the unit without its trailing '.', '!',
    '?', spaces and tabs, the classifier returns NON_DA when [clean] has fewer
    than two characters or does not end in 다; when [clean] ends in a
    character p followed by 다, it returns OTHER_DA if ord(p) - 0xAC00 is
    outside [0, 11171] or is not 20 modulo 28, OTHER_DA if it is but p is 있
    or 겠, and PAST in the remaining case.  The result is one of the three
    classes. *)
Theorem classify_ending_cases (sentence : str) :
  let clean := rstrip ending_punct sentence in
  let r := _classify_ending sentence in
  (exists suffix, sentence = clean ++ suffix /\
     Forall (fun c => c ∈ [46; 33; 63; 32; 9]) suffix /\
     forall c, last clean = Some c -> c ∉ [46; 33; 63; 32; 9]) /\
  (((length clean < 2)%nat \/ last clean <> Some da) -> r = NON_DA) /\
  (forall pre p, clean = pre ++ [p; da] ->
     let code := p - 0xAC00 in
     ((code < 0 \/ 11171 < code \/ code mod 28 <> 20) -> r = OTHER_DA) /\
     ((0 <= code <= 11171 /\ code mod 28 = 20 /\ (p = iss \/ p = gess)) ->
      r = OTHER_DA) /\
     ((0 <= code <= 11171 /\ code mod 28 = 20 /\ p <> iss /\ p <> gess) ->
      r = PAST)) /\
  (r = PAST \/ r = OTHER_DA \/ r = NON_DA).
Proof.
  intros clean r. subst r. repeat apply conj.
  - destruct (rstrip_spec ending_punct sentence) as (suffix & E1 & E2 & E3).
    fold clean in E1, E3.
    assert (Hmem : forall c, mem c ending_punct = true <-> c ∈ [46; 33; 63; 32; 9]).
    { intros c. unfold mem. change ending_punct with [46; 33; 63; 32; 9].
      unfold chr_eqb. simpl. rewrite !orb_true_iff, !Z.eqb_eq.
      rewrite !elem_of_cons, elem_of_nil. intuition congruence. }
    exists suffix. repeat split; [assumption | |].
    + apply Forall_forall. intros c Hc. apply Hmem.
      rewrite forallb_forall in E2. apply E2. apply list_elem_of_In. assumption.
    + intros c Hc. rewrite Hc in E3. rewrite <- Hmem. congruence.
  - intros [H | H]; [apply classify_short; assumption |].
    destruct (last_two_cases clean) as [Hs | (pre & p & c & E)];
      [apply classify_short; assumption |].
    rewrite (classify_long _ _ _ _ E).
    fold clean in H. rewrite E, last_snoc2 in H.
    unfold chr_eqb. destruct (Z.eqb_spec c da); [congruence | reflexivity].
  - intros pre p E code. rewrite (classify_long _ _ _ _ E).
    unfold chr_eqb. rewrite Z.eqb_refl.
    pose proof (has_ssang_siot_batchim_spec p) as Hs.
    pose proof (mem_exceptions p) as Hm. fold code in Hs.
    repeat apply conj.
    + intros H. destruct (_has_ssang_siot_batchim p); [| reflexivity].
      exfalso. destruct Hs as [Hs _]. specialize (Hs eq_refl). lia.
    + intros (H1 & H2 & H3).
      destruct Hs as [_ Hs]. rewrite Hs by tauto.
      destruct Hm as [_ Hm]. rewrite Hm by assumption. reflexivity.
    + intros (H1 & H2 & H3 & H4).
      destruct Hs as [_ Hs]. rewrite Hs by tauto.
      destruct (mem p [iss; gess]); [| reflexivity].
      exfalso. destruct Hm as [Hm _]. specialize (Hm eq_refl). tauto.
  - destruct (_classify_ending sentence); auto.
Qed.

Lemma classify_ending_cases_witness :
  _classify_ending (lit "그는 싸웠다.") = PAST.
Proof.
  destruct (classify_ending_cases (lit "그는 싸웠다.")) as (_ & _ & H & _).
  apply (H (lit "그는 싸") 0xC6E0); [vm_compute; reflexivity |].
  vm_compute. repeat split; discriminate.
Defined.

(** C1 as stated fails on the unit 다: it ends in 다, no character stands
    before it, and it is classified NON_DA, which is none of the outcomes the
    statement gives for a unit that ends in 다. *)
Lemma classify_ending_lone_da_counterexample :
  ~ Spec.ending_split_as_stated (lit "다").
Proof.
  intros [_ H].
  destruct (H ltac:(vm_compute; reflexivity)) as [E | E]; vm_compute in E; discriminate.
Qed.

(** C9: a unit whose cleaned form has fewer than two characters is NON_DA,
    and so is the unit 다, although it ends in 다. *)
Theorem classify_ending_short_unit (unit : str) :
  (length (rstrip ending_punct unit) < 2)%nat ->
  _classify_ending unit = NON_DA.
Proof. apply classify_short. Qed.

Lemma classify_ending_short_unit_witness :
  last (rstrip ending_punct (lit "다")) = Some da /\
  _classify_ending (lit "다") = NON_DA.
Proof.
  split; [vm_compute; reflexivity |].
  apply (classify_ending_short_unit (lit "다")). vm_compute. lia.
Defined.

End Classifier.

(** ** The run detector *)

Section RunDetector.

Import Spec.

Lemma Category_eqb_PAST (cat : Category) :
  Category_eqb cat PAST = true <-> cat = PAST.
Proof. destruct cat; simpl; split; congruence. Qed.

Lemma last_chars_suffix (n : nat) (t : str) :
  exists pre, t = pre ++ last_chars n t /\ length (last_chars n t) = n `min` length t.
Proof.
  unfold last_chars. exists (take (length t - n) t).
  rewrite take_drop, length_drop. split; [reflexivity | lia].
Qed.

Lemma getitem_nat {A} (l : list A) (i k : nat) :
  getitem l (Z.of_nat i + Z.of_nat k) = l !! (i + k).
Proof.
  unfold getitem.
  destruct (Z.ltb_spec (Z.of_nat i + Z.of_nat k) 0) as [H | H]; [lia |].
  f_equal. lia.
Qed.

Lemma make_group_three (texts : list str) (s l : nat) (t0 t1 t2 : str) :
  3 <= l ->
  texts !! s = Some t0 -> texts !! (s + 1) = Some t1 -> texts !! (s + 2) = Some t2 ->
  make_group texts (Z.of_nat s) (Z.of_nat l) =
    Some {| g_start := Z.of_nat s; g_length := Z.of_nat l;
            g_samples := [last_chars 30 t0; last_chars 30 t1; last_chars 30 t2] |}.
Proof.
  intros Hl H0 H1 H2. unfold make_group, range.
  rewrite Z.min_r by lia.
  replace (Z.of_nat s + 3 - Z.of_nat s)%Z with 3%Z by lia.
  change (Z.to_nat 3) with 3. cbn [seq map mapM].
  rewrite !getitem_nat.
  replace (s + 0) with s by lia.
  rewrite H0, H1, H2. reflexivity.
Qed.

(** Lookups in a sequence extended by one entry. *)
Lemma maximal_past_run_snoc_before (done : list Category) (x : Category) (s l : nat) :
  s + l < length done ->
  maximal_past_run (done ++ [x]) s l <-> maximal_past_run done s l.
Proof.
  intros Hlt. unfold maximal_past_run, run_of_past.
  assert (E : forall i, i <= s + l -> (done ++ [x]) !! i = done !! i).
  { intros i Hi. apply lookup_app_l. lia. }
  split; intros (H1 & H2 & H3 & H4); repeat split; try assumption.
  - intros i Hi. rewrite <- E by lia. apply H2. assumption.
  - intros s' ->. rewrite <- E by lia. apply H3. reflexivity.
  - rewrite <- E by lia. assumption.
  - intros i Hi. rewrite E by lia. apply H2. assumption.
  - intros s' ->. rewrite E by lia. apply H3. reflexivity.
  - rewrite E by lia. assumption.
Qed.

Lemma maximal_past_run_bound (cats : list Category) (s l : nat) :
  maximal_past_run cats s l -> s + l <= length cats.
Proof.
  intros (H1 & H2 & _).
  assert (H : cats !! (s + l - 1) = Some PAST) by (apply H2; lia).
  apply lookup_lt_Some in H. lia.
Qed.

Lemma scan_inv_init (texts : list str) : scan_inv texts [] scan_init.
Proof.
  exists 0. simpl. repeat split; try lia.
  - intros i Hi. lia.
  - intros g Hg. apply elem_of_nil in Hg. contradiction.
  - intros i j g1 g2 _ H. rewrite lookup_nil in H. discriminate.
Qed.

(** The run at the end of [done] is the only run that ends there. *)
Lemma trailing_run_unique (done : list Category) (c s l : nat) :
  c <= length done ->
  run_of_past done (length done - c) c ->
  (c < length done -> done !! (length done - c - 1) <> Some PAST) ->
  0 < l -> s + l = length done ->
  run_of_past done s l ->
  (forall s', s = S s' -> done !! s' <> Some PAST) ->
  s = length done - c /\ l = c.
Proof.
  intros Hc Hrun Hleft Hl Hend Hrun' Hleft'.
  destruct (Nat.lt_trichotomy s (length done - c)) as [H | [H | H]].
  - exfalso. apply Hleft; [lia |]. apply Hrun'. lia.
  - lia.
  - exfalso. destruct s as [| s']; [lia |].
    apply (Hleft' s' eq_refl). apply Hrun. lia.
Qed.

Lemma groups_apart_snoc (groups : list ViolationGroup) (g : ViolationGroup) :
  groups_apart groups ->
  (forall g1, g1 ∈ groups -> (g_start g1 + g_length g1 < g_start g)%Z) ->
  groups_apart (groups ++ [g]).
Proof.
  intros Hap Hlt i j g1 g2 Hij H1 H2.
  destruct (decide (j < length groups)) as [Hj | Hj].
  - rewrite lookup_app_l in H1 by lia. rewrite lookup_app_l in H2 by lia.
    apply (Hap i j g1 g2); assumption.
  - pose proof (lookup_lt_Some _ _ _ H2) as Hb. rewrite length_app in Hb. simpl in Hb.
    assert (j = length groups) by lia. subst j.
    rewrite lookup_app_l in H1 by lia.
    rewrite lookup_app_r in H2 by lia.
    replace (length groups - length groups) with 0 in H2 by lia.
    simpl in H2. injection H2 as <-.
    apply Hlt. eapply list_elem_of_lookup_2. eassumption.
Qed.

Lemma scan_step_inv (texts : list str) (done : list Category) (st : scan_state)
  (x : Category) :
  length done < length texts ->
  scan_inv texts done st ->
  exists st', scan_step texts st (Z.of_nat (length done)) x = Some st' /\
    scan_inv texts (done ++ [x]) st'.
Proof.
  intros Hlen (c & Hc & Hcn & Hrun & Hleft & Hstart & Hsound & Hcompl & Hapart).
  set (n := length done) in *.
  unfold scan_step.
  destruct (Category_eqb x PAST) eqn:Ex.
  - apply Category_eqb_PAST in Ex. subst x.
    eexists. split; [reflexivity |].
    exists (S c). rewrite length_app. simpl length. fold n. cbn [consecutive start violation_groups].
    repeat apply conj.
    + lia.
    + lia.
    + intros i Hi. destruct (decide (i < n)) as [Hin | Hin].
      * rewrite lookup_app_l by assumption. apply Hrun. lia.
      * rewrite lookup_app_r by (fold n; lia).
        replace (i - length done) with 0 by (fold n; lia). reflexivity.
    + intros Hlt. rewrite lookup_app_l by (fold n; lia).
      replace (n + 1 - S c - 1) with (n - c - 1) by lia. apply Hleft. lia.
    + intros _. rewrite Hc. destruct (Z.eqb_spec (Z.of_nat c) 0) as [E | E].
      * f_equal. lia.
      * rewrite Hstart by lia. f_equal. lia.
    + intros g Hg. destruct (Hsound g Hg) as (s & l & Hg1 & Hl & Hsl & Hmax).
      exists s, l. split; [assumption |]. split; [assumption |]. split; [lia |].
      apply maximal_past_run_snoc_before; [fold n; lia | assumption].
    + intros s l Hl Hsl Hmax.
      destruct (decide (s + l < n)) as [Hb | Hb].
      * apply Hcompl; try assumption.
        apply (maximal_past_run_snoc_before done PAST); assumption.
      * exfalso. destruct Hmax as (_ & _ & _ & Hclosed). apply Hclosed.
        rewrite lookup_app_r by (fold n; lia).
        replace (s + l - length done) with 0 by (fold n; lia). reflexivity.
    + assumption.
  - assert (Hx : x <> PAST).
    { intros E. apply Category_eqb_PAST in E. congruence. }
    assert (Hold : forall s l, s + l < n ->
              (maximal_past_run (done ++ [x]) s l <-> maximal_past_run done s l)).
    { intros s l H. apply maximal_past_run_snoc_before. assumption. }
    assert (Hgap : forall g1, g1 ∈ violation_groups st ->
              (g_start g1 + g_length g1 < Z.of_nat (n - c))%Z).
    { intros g1 Hg1. destruct (Hsound g1 Hg1) as (s & l & (E1 & E2 & _) & _ & Hsl & _).
      rewrite E1, E2. lia. }
    assert (Hlast : forall s l, 0 < l -> s + l = n -> maximal_past_run (done ++ [x]) s l ->
              s = n - c /\ l = c).
    { intros s l Hl Hsl (_ & Hr & Hlm & _).
      apply (trailing_run_unique done c s l); try assumption.
      - intros i Hi. rewrite <- (lookup_app_l done [x]) by (fold n; lia). apply Hr. assumption.
      - intros s' ->. rewrite <- (lookup_app_l done [x]) by (fold n; lia).
        apply Hlm. reflexivity. }
    unfold flush_run. rewrite Hc.
    destruct (Z.leb_spec 3 (Z.of_nat c)) as [H3 | H3].
    + assert (is_Some (texts !! (n - c))) as [t0 Ht0] by (apply lookup_lt_is_Some; lia).
      assert (is_Some (texts !! (n - c + 1))) as [t1 Ht1] by (apply lookup_lt_is_Some; lia).
      assert (is_Some (texts !! (n - c + 2))) as [t2 Ht2] by (apply lookup_lt_is_Some; lia).
      rewrite Hstart by lia.
      rewrite (make_group_three texts (n - c) c t0 t1 t2) by (assumption || lia).
      eexists. split; [reflexivity |].
      set (g := {| g_start := _ |}).
      assert (Hg : group_of_run texts g (n - c) c).
      { repeat split. exists t0, t1, t2. repeat split; assumption. }
      assert (Hgmax : maximal_past_run (done ++ [x]) (n - c) c).
      { repeat split.
        - lia.
        - intros i Hi. rewrite lookup_app_l by (fold n; lia). apply Hrun. assumption.
        - intros s' Hs'. rewrite lookup_app_l by (fold n; lia).
          replace s' with (n - c - 1) by lia. apply Hleft. lia.
        - rewrite lookup_app_r by (fold n; lia).
          replace (n - c + c - length done) with 0 by (fold n; lia).
          simpl. congruence. }
      exists 0. rewrite length_app. simpl length. fold n.
      cbn [consecutive start violation_groups].
      repeat apply conj; try lia.
      * intros i Hi. lia.
      * intros _. rewrite lookup_app_r by (fold n; lia).
        replace (n + 1 - 0 - 1 - length done) with 0 by (fold n; lia).
        simpl. congruence.
      * intros g' Hg'. apply elem_of_app in Hg'. destruct Hg' as [Hg' | Hg'].
        -- destruct (Hsound g' Hg') as (s & l & Hg1 & Hl & Hsl & Hmax).
           exists s, l. split; [assumption |]. split; [assumption |]. split; [lia |].
           apply Hold; [lia | assumption].
        -- apply list_elem_of_singleton in Hg'. subst g'.
           exists (n - c), c. split; [exact Hg |]. split; [lia |]. split; [lia | exact Hgmax].
      * intros s l Hl Hsl Hmax.
        destruct (decide (s + l < n)) as [Hb | Hb].
        -- destruct (Hcompl s l Hl Hb) as (g' & Hg'1 & Hg'2); [apply Hold; assumption |].
           exists g'. split; [apply elem_of_app; left |]; assumption.
        -- destruct (Hlast s l) as [-> ->]; [lia | lia | assumption |].
           exists g. split; [apply elem_of_app; right; apply list_elem_of_singleton; reflexivity |].
           assumption.
      * apply groups_apart_snoc; [assumption |].
        intros g1 Hg1. apply Hgap. assumption.
    + eexists. split; [reflexivity |].
      exists 0. rewrite length_app. simpl length. fold n.
      cbn [consecutive start violation_groups].
      repeat apply conj; try lia.
      * intros i Hi. lia.
      * intros _. rewrite lookup_app_r by (fold n; lia).
        replace (n + 1 - 0 - 1 - length done) with 0 by (fold n; lia).
        simpl. congruence.
      * intros g' Hg'.
        destruct (Hsound g' Hg') as (s & l & Hg1 & Hl & Hsl & Hmax).
        exists s, l. split; [assumption |]. split; [assumption |]. split; [lia |].
        apply Hold; [lia | assumption].
      * intros s l Hl Hsl Hmax.
        destruct (decide (s + l < n)) as [Hb | Hb].
        -- apply Hcompl; [assumption | assumption | apply Hold; assumption].
        -- exfalso. destruct (Hlast s l) as [-> ->]; [lia | lia | assumption |]. lia.
      * assumption.
Qed.

Lemma scan_loop_inv (texts : list str) (rest done : list Category) (st : scan_state) :
  length (done ++ rest) <= length texts ->
  scan_inv texts done st ->
  exists st', scan_loop texts st (Z.of_nat (length done)) rest = Some st' /\
    scan_inv texts (done ++ rest) st'.
Proof.
  revert done st. induction rest as [| x rest IH]; intros done st Hlen Hinv.
  - exists st. rewrite app_nil_r. split; [reflexivity | assumption].
  - rewrite length_app in Hlen. simpl in Hlen.
    destruct (scan_step_inv texts done st x) as (st1 & E1 & Hinv1); [lia | assumption |].
    simpl. rewrite E1.
    destruct (IH (done ++ [x]) st1) as (st2 & E2 & Hinv2).
    + rewrite !length_app. simpl. lia.
    + assumption.
    + exists st2. rewrite length_app in E2. simpl in E2.
      replace (Z.of_nat (length done) + 1)%Z with (Z.of_nat (length done + 1)) by lia.
      rewrite <- app_assoc in Hinv2. split; assumption.
Qed.

Lemma find_violation_groups_runs (categories : list Category)
  (sentence_texts : list str) :
  length sentence_texts = length categories ->
  exists groups,
    find_violation_groups categories sentence_texts = Some groups /\
    (forall g, g ∈ groups ->
       exists s l, group_of_run sentence_texts g s l /\ 3 <= l /\
         maximal_past_run categories s l) /\
    (forall s l, 3 <= l -> maximal_past_run categories s l ->
       exists g, g ∈ groups /\ group_of_run sentence_texts g s l) /\
    groups_apart groups.
Proof.
  intros Hlen.
  destruct (scan_loop_inv sentence_texts categories [] scan_init)
    as (st & Eloop & c & Hc & Hcn & Hrun & Hleft & Hstart & Hsound & Hcompl & Hapart).
  { simpl. lia. }
  { apply scan_inv_init. }
  change (Z.of_nat (length (@nil Category))) with 0%Z in Eloop.
  simpl in Eloop, Hcn, Hrun, Hleft, Hstart, Hsound, Hcompl.
  set (n := length categories) in *.
  unfold find_violation_groups. rewrite Eloop. unfold flush_run. rewrite Hc.
  assert (Hlast : forall s l, 0 < l -> s + l = n -> maximal_past_run categories s l ->
            s = n - c /\ l = c).
  { intros s l Hl Hsl (_ & Hr & Hlm & _).
    apply (trailing_run_unique categories c s l); assumption. }
  destruct (Z.leb_spec 3 (Z.of_nat c)) as [H3 | H3].
  - assert (is_Some (sentence_texts !! (n - c))) as [t0 Ht0]
      by (apply lookup_lt_is_Some; lia).
    assert (is_Some (sentence_texts !! (n - c + 1))) as [t1 Ht1]
      by (apply lookup_lt_is_Some; lia).
    assert (is_Some (sentence_texts !! (n - c + 2))) as [t2 Ht2]
      by (apply lookup_lt_is_Some; lia).
    rewrite Hstart by lia.
    rewrite (make_group_three sentence_texts (n - c) c t0 t1 t2) by (assumption || lia).
    eexists. split; [reflexivity |].
    set (g := {| g_start := _ |}).
    assert (Hg : group_of_run sentence_texts g (n - c) c).
    { repeat split. exists t0, t1, t2. repeat split; assumption. }
    assert (Hgmax : maximal_past_run categories (n - c) c).
    { repeat split.
      - lia.
      - assumption.
      - intros s' Hs'. replace s' with (n - c - 1) by lia. apply Hleft. lia.
      - rewrite lookup_ge_None_2 by (fold n; lia). discriminate. }
    repeat apply conj.
    + intros g' Hg'. apply elem_of_app in Hg'. destruct Hg' as [Hg' | Hg'].
      * destruct (Hsound g' Hg') as (s & l & Hg1 & Hl & Hsl & Hmax).
        exists s, l. auto.
      * apply list_elem_of_singleton in Hg'. subst g'.
        exists (n - c), c. split; [exact Hg |]. split; [lia | exact Hgmax].
    + intros s l Hl Hmax.
      pose proof (maximal_past_run_bound _ _ _ Hmax) as Hb. fold n in Hb.
      destruct (decide (s + l < n)) as [Hlt | Hlt].
      * destruct (Hcompl s l Hl Hlt Hmax) as (g' & Hg'1 & Hg'2).
        exists g'. split; [apply elem_of_app; left |]; assumption.
      * destruct (Hlast s l) as [-> ->]; [lia | lia | assumption |].
        exists g. split; [apply elem_of_app; right; apply list_elem_of_singleton; reflexivity |].
        assumption.
    + apply groups_apart_snoc; [assumption |].
      intros g1 Hg1.
      destruct (Hsound g1 Hg1) as (s & l & (E1 & E2 & _) & _ & Hsl & _).
      rewrite E1, E2. simpl. lia.
  - eexists. split; [reflexivity |]. repeat apply conj.
    + intros g' Hg'.
      destruct (Hsound g' Hg') as (s & l & Hg1 & Hl & Hsl & Hmax).
      exists s, l. auto.
    + intros s l Hl Hmax.
      pose proof (maximal_past_run_bound _ _ _ Hmax) as Hb. fold n in Hb.
      destruct (decide (s + l < n)) as [Hlt | Hlt].
      * apply Hcompl; assumption.
      * exfalso. destruct (Hlast s l) as [-> ->]; [lia | lia | assumption |]. lia.
    + assumption.
Qed.

Lemma classify_sentences_aligned (sentences texts : list str) (cats : list Category) :
  classify_sentences sentences = Some (texts, cats) ->
  cats = map _classify_ending texts /\ length texts = length cats.
Proof.
  revert texts cats. induction sentences as [| s rest IH]; intros texts cats H.
  - injection H as <- <-. split; reflexivity.
  - cbn [classify_sentences] in H.
    destruct (bool_decide (length s < 10)); [apply IH; exact H |].
    destruct (strip s) as [| c0 stripped] eqn:Es; [discriminate |].
    destruct (is_dialogue_open c0); [apply IH; exact H |].
    destruct (startswith [39%Z] (c0 :: stripped) && endswith [39%Z] (c0 :: stripped));
      [apply IH; exact H |].
    destruct (classify_sentences rest) as [[texts' cats'] |]; [| discriminate].
    injection H as <- <-. destruct (IH texts' cats' eq_refl) as [-> Hlen].
    split; [reflexivity |]. simpl. rewrite length_map. reflexivity.
Qed.

(** C2: on sentence texts and classifications of the same length, as the
    linter builds them, the detector returns groups; each group is a maximal
    run of PAST entries of length at least 3, with its start index, its
    length and the last 30 characters of its first three sentences; every
    such run has its group, also the run that ends the sequence; the groups
    come in order and do not touch.  On [PAST, PAST, PAST, OTHER_DA, PAST,
    PAST] there is one group, of length 3 at index 0, and on [OTHER_DA, PAST,
    PAST, PAST] one group, of length 3 at index 1. *)
Theorem find_violation_groups_spec :
  (forall (categories : list Category) (sentence_texts : list str),
     length sentence_texts = length categories ->
     exists groups,
       find_violation_groups categories sentence_texts = Some groups /\
       (forall g, g ∈ groups ->
          exists s l, group_of_run sentence_texts g s l /\ 3 <= l /\
            maximal_past_run categories s l) /\
       (forall s l, 3 <= l -> maximal_past_run categories s l ->
          exists g, g ∈ groups /\ group_of_run sentence_texts g s l) /\
       groups_apart groups) /\
  (forall t0 t1 t2 t3 t4 t5 : str,
     find_violation_groups [PAST; PAST; PAST; OTHER_DA; PAST; PAST]
       [t0; t1; t2; t3; t4; t5] =
     Some [{| g_start := 0; g_length := 3;
              g_samples := [last_chars 30 t0; last_chars 30 t1; last_chars 30 t2] |}]) /\
  (forall t0 t1 t2 t3 : str,
     find_violation_groups [OTHER_DA; PAST; PAST; PAST] [t0; t1; t2; t3] =
     Some [{| g_start := 1; g_length := 3;
              g_samples := [last_chars 30 t1; last_chars 30 t2; last_chars 30 t3] |}]) /\
  (forall (n : nat) (t : str),
     exists pre, t = pre ++ last_chars n t /\
       length (last_chars n t) = n `min` length t) /\
  (forall (sentences texts : list str) (cats : list Category),
     classify_sentences sentences = Some (texts, cats) ->
     cats = map _classify_ending texts /\ length texts = length cats).
Proof.
  split; [exact find_violation_groups_runs |].
  split; [intros; reflexivity |].
  split; [intros; reflexivity |].
  split; [exact last_chars_suffix | exact classify_sentences_aligned].
Qed.

Lemma find_violation_groups_spec_witness :
  exists groups,
    find_violation_groups [OTHER_DA; PAST; PAST; PAST; PAST]
      (map lit ["가나다라"; "그는 싸웠다."; "그는 이겼다."; "그는 웃었다.";
                "그리고 떠났다."]%string) = Some groups /\
    exists g, g ∈ groups /\ g_start g = 1%Z /\ g_length g = 4%Z.
Proof.
  destruct find_violation_groups_spec as [H _].
  destruct (H [OTHER_DA; PAST; PAST; PAST; PAST]
              (map lit ["가나다라"; "그는 싸웠다."; "그는 이겼다."; "그는 웃었다.";
                        "그리고 떠났다."]%string) eq_refl)
    as (groups & E & _ & Hcompl & _).
  exists groups. split; [exact E |].
  destruct (Hcompl 1 4) as (g & Hg & E1 & E2 & _).
  - lia.
  - repeat split.
    + lia.
    + intros i Hi.
      destruct i as [| [| [| [| [| i]]]]]; try reflexivity; lia.
    + intros s' Hs'. injection Hs' as <-. discriminate.
    + discriminate.
  - exists g. auto.
Defined.

End RunDetector.

(** ** The length and marker checks *)

Section Checks.

Import Spec.
Local Open Scope Z_scope.

Lemma verdict_of_PASS (b : bool) : verdict_of b = PASS <-> b = true.
Proof. destruct b; simpl; split; congruence. Qed.






(** *** Matching lemmas *)

Lemma startswith_spec (p s : str) :
  startswith p s = true <-> exists rest, s = p ++ rest.
Proof.
  revert s. induction p as [| a p IH]; intros s; simpl.
  - split; [intros _; exists s; reflexivity | reflexivity].
  - destruct s as [| b s].
    + split; [discriminate | intros [rest E]; discriminate].
    + unfold chr_eqb. rewrite andb_true_iff, Z.eqb_eq, IH. split.
      * intros [-> [rest ->]]. exists rest. reflexivity.
      * intros [rest E]. injection E as -> ->. split; [reflexivity | exists rest; reflexivity].
Qed.

Lemma startswith_app (p rest : str) : startswith p (p ++ rest) = true.
Proof. apply startswith_spec. exists rest. reflexivity. Qed.

Lemma literal_app {A} (p rest : str) (k : @Re.cont A) :
  Re.literal p k (p ++ rest) = k rest.
Proof. unfold Re.literal. rewrite startswith_app, drop_app_length. reflexivity. Qed.

Lemma literal_inv {A} (p s : str) (k : @Re.cont A) (r : A) :
  Re.literal p k s = Some r -> exists rest, s = p ++ rest /\ k rest = Some r.
Proof.
  unfold Re.literal. destruct (startswith p s) eqn:E; [| discriminate].
  apply startswith_spec in E. destruct E as [rest ->].
  rewrite drop_app_length. intros H. exists rest. auto.
Qed.

Lemma greedy_star_run {A} (cls : Z -> bool) (k : str -> @Re.cont A) (x rest acc : str)
  (r : A) :
  forallb cls x = true ->
  match rest with
  | [] => True
  | c :: _ => cls c = false
  end ->
  k (acc ++ x) rest = Some r ->
  Re.greedy_star cls k acc (x ++ rest) = Some r.
Proof.
  revert acc. induction x as [| c x IH]; intros acc Hx Hrest Hk.
  - rewrite app_nil_r in Hk. simpl. destruct rest as [| c t]; [assumption |].
    simpl. rewrite Hrest. assumption.
  - simpl in Hx. apply andb_true_iff in Hx. destruct Hx as [Hc Hx].
    simpl. rewrite Hc. rewrite (IH (acc ++ [c])); [reflexivity | assumption | assumption |].
    rewrite <- app_assoc. assumption.
Qed.

Lemma greedy_star_inv {A} (cls : Z -> bool) (k : str -> @Re.cont A) (s acc : str) (r : A) :
  Re.greedy_star cls k acc s = Some r ->
  exists x rest, s = x ++ rest /\ forallb cls x = true /\ k (acc ++ x) rest = Some r.
Proof.
  revert acc. induction s as [| c t IH]; intros acc H; simpl in H.
  - exists [], []. rewrite (app_nil_r acc). repeat split. assumption.
  - assert (Hstop : k acc (c :: t) = Some r ->
              exists x rest, c :: t = x ++ rest /\ forallb cls x = true /\
                k (acc ++ x) rest = Some r).
    { intros Hk. exists [], (c :: t). rewrite (app_nil_r acc). repeat split. assumption. }
    destruct (cls c) eqn:Ec; [| auto].
    destruct (Re.greedy_star cls k (acc ++ [c]) t) as [r' |] eqn:E; [| auto].
    simpl in H. injection H as ->.
    destruct (IH _ E) as (x & rest & -> & Hx & Hk).
    exists (c :: x), rest. simpl. rewrite Ec, Hx. rewrite <- app_assoc in Hk. auto.
Qed.

Lemma findall_skip (m : str -> option str) (a b : str) :
  Re.findall_from m (length a) (a ++ b) = Re.findall_from m 0 b.
Proof.
  induction a as [| c a IH]; [reflexivity |]. simpl. exact IH.
Qed.

Lemma findall_hit (m : str -> option str) (c : Z) (a rest : str) :
  m (c :: a ++ rest) = Some rest ->
  Re.findall m (c :: a ++ rest) = (c :: a) :: Re.findall m rest.
Proof.
  intros H. unfold Re.findall. cbn [Re.findall_from]. rewrite H.
  cbn zeta.
  replace (length (c :: a ++ rest) - length rest)%nat with (S (length a))
    by (simpl; rewrite length_app; lia).
  rewrite firstn_cons, take_app_length.
  replace (S (length a) - 1)%nat with (length a) by lia.
  rewrite findall_skip. reflexivity.
Qed.

Lemma findall_miss (m : str -> option str) (c : Z) (t : str) :
  m (c :: t) = None -> Re.findall m (c :: t) = Re.findall m t.
Proof. intros H. unfold Re.findall. cbn [Re.findall_from]. rewrite H. reflexivity. Qed.

(** *** The marker pattern *)

Lemma lit_img : lit "[IMG:" = [91; 73; 77; 71; 58].
Proof. vm_compute. reflexivity. Qed.

Lemma inner_ok_forallb (x : str) :
  close_bracket ∉ x <-> forallb (fun c => negb (chr_eqb c close_bracket)) x = true.
Proof.
  induction x as [| c x IH]; simpl.
  - split; [reflexivity | intros _ H; apply elem_of_nil in H; contradiction].
  - rewrite not_elem_of_cons, andb_true_iff, IH, negb_true_iff.
    unfold chr_eqb. rewrite Z.eqb_neq. split; intros [H1 H2]; split; congruence.
Qed.

Lemma img_marker_match {A} (k : @Re.cont A) (x post : str) (r : A) :
  inner_ok x -> k post = Some r ->
  img_marker k (marker x ++ post) = Some r.
Proof.
  intros [Hne Hx] Hk. unfold img_marker, marker.
  rewrite <- !app_assoc, literal_app.
  destruct x as [| c x]; [congruence |].
  apply inner_ok_forallb in Hx. simpl in Hx. apply andb_true_iff in Hx.
  destruct Hx as [Hc Hx].
  unfold Re.greedy_plus. cbn [app]. rewrite Hc.
  apply greedy_star_run; [assumption | reflexivity |].
  rewrite <- Hk. exact (literal_app [close_bracket] post k).
Qed.

Lemma img_marker_inv {A} (k : @Re.cont A) (s : str) (r : A) :
  img_marker k s = Some r ->
  exists x rest, inner_ok x /\ s = marker x ++ rest /\ k rest = Some r.
Proof.
  unfold img_marker. intros H.
  apply literal_inv in H. destruct H as (s1 & -> & H).
  unfold Re.greedy_plus in H. destruct s1 as [| c t]; [discriminate |].
  destruct (negb (chr_eqb c close_bracket)) eqn:Ec; [| discriminate].
  apply greedy_star_inv in H. destruct H as (x & s2 & -> & Hx & H).
  apply literal_inv in H. destruct H as (rest & -> & H).
  exists (c :: x), rest. split; [split; [discriminate |] |].
  - apply inner_ok_forallb. simpl. rewrite Ec, Hx. reflexivity.
  - split; [| assumption]. unfold marker. rewrite <- !app_assoc. reflexivity.
Qed.

Lemma img_marker_other_head (c : Z) (t : str) :
  c <> 91 -> img_marker Some (c :: t) = None.
Proof.
  intros Hc. unfold img_marker, Re.literal. rewrite lit_img. cbn [startswith].
  replace (chr_eqb 91 c) with false; [reflexivity |].
  symmetry. apply Z.eqb_neq. congruence.
Qed.

Lemma img_markers_located (pre x post : str) :
  Forall (fun c => c <> 91) pre -> inner_ok x ->
  img_markers (pre ++ marker x ++ post) = marker x :: img_markers post.
Proof.
  intros Hpre Hx. unfold img_markers.
  induction Hpre as [| c pre Hc Hpre IH].
  - pose proof (img_marker_match Some x post post Hx eq_refl) as H.
    assert (E : marker x = 91 :: ([73; 77; 71; 58] ++ x ++ [close_bracket])).
    { unfold marker. rewrite lit_img. reflexivity. }
    rewrite E in *. apply findall_hit. exact H.
  - cbn [app]. rewrite findall_miss by (apply img_marker_other_head; assumption).
    exact IH.
Qed.

Lemma is_img_line_spec (s : str) :
  is_img_line s = true <->
  exists x, inner_ok x /\ (s = marker x \/ s = marker x ++ nl).
Proof.
  unfold is_img_line. split.
  - destruct (img_marker _ s) as [u |] eqn:E; [intros _ | discriminate].
    apply img_marker_inv in E. destruct E as (x & rest & Hx & -> & H).
    exists x. split; [assumption |].
    unfold Re.at_dollar in H. destruct rest as [| c [| c' t]].
    + left. rewrite app_nil_r. reflexivity.
    + right. unfold chr_eqb in H. destruct (Z.eqb_spec c 10); [subst; reflexivity | discriminate].
    + discriminate.
  - intros (x & Hx & [-> | ->]).
    + rewrite <- (app_nil_r (marker x)).
      rewrite (img_marker_match _ x [] tt Hx); reflexivity.
    + rewrite (img_marker_match _ x nl tt Hx); reflexivity.
Qed.

Lemma body_step_img_line (line : str) :
  is_img_line (strip line) = true -> body_step true line = (true, Skip).
Proof.
  intros H. unfold body_step. cbv zeta. rewrite H.
  apply is_img_line_spec in H. destruct H as (x & _ & E).
  assert (E' : exists t, strip line = 91 :: t).
  { unfold marker in E. rewrite lit_img in E. destruct E as [-> | ->]; eexists; reflexivity. }
  destruct E' as [t ->].
  replace (startswith (lit "# EP-") (91 :: t)) with false by reflexivity.
  replace (startswith (lit ">") (91 :: t)) with false by reflexivity.
  replace (startswith preview_label (91 :: t)) with false by reflexivity.
  replace (startswith preview_label_nospace (91 :: t)) with false by reflexivity.
  reflexivity.
Qed.

Lemma body_step_skip_in_body (line : str) :
  body_step true line = (true, Skip) ->
  startswith (lit "# EP-") (strip line) = true \/
  is_img_line (strip line) = true \/
  str_eqb (strip line) rule_line = true.
Proof.
  unfold body_step. cbv zeta.
  destruct (startswith (lit "# EP-") (strip line)); [auto |].
  rewrite andb_false_r. cbn [negb].
  destruct (startswith preview_label (strip line) || startswith preview_label_nospace (strip line));
    [discriminate |].
  destruct (is_img_line (strip line)); [auto |].
  destruct (str_eqb (strip line) rule_line); [auto | discriminate].
Qed.

Lemma img_markers_nil : img_markers [] = [].
Proof. reflexivity. Qed.

Lemma img_markers_step (c : Z) (t : str) :
  img_marker Some (c :: t) = None -> img_markers (c :: t) = img_markers t.
Proof. intros H. unfold img_markers. apply findall_miss. exact H. Qed.

Lemma img_markers_hit (x rest : str) :
  inner_ok x -> img_markers (marker x ++ rest) = marker x :: img_markers rest.
Proof. intros Hx. apply (img_markers_located [] x rest); [constructor | exact Hx]. Qed.

Lemma img_marker_none (s : str) :
  img_marker Some s = None <-> forall x rest, inner_ok x -> s <> marker x ++ rest.
Proof.
  split.
  - intros H x rest Hx ->. rewrite (img_marker_match Some x rest rest Hx eq_refl) in H.
    discriminate.
  - intros H. destruct (img_marker Some s) as [r |] eqn:E; [| reflexivity].
    apply img_marker_inv in E. destruct E as (x & rest & Hx & -> & _).
    exfalso. exact (H x rest Hx eq_refl).
Qed.

Lemma marker_length (x : str) : (0 < length (marker x))%nat.
Proof. unfold marker. rewrite lit_img. simpl. lia. Qed.

Lemma img_markers_occur (n : nat) (text : str) :
  (length text <= n)%nat -> markers_of text (img_markers text).
Proof.
  revert text. induction n as [| n IH]; intros text Hlen.
  - destruct text; [constructor | simpl in Hlen; lia].
  - destruct text as [| c t]; [constructor |].
    destruct (img_marker Some (c :: t)) as [r |] eqn:E.
    + apply img_marker_inv in E. destruct E as (x & rest & Hx & E & _).
      rewrite E, (img_markers_hit x rest Hx).
      apply markers_hit; [exact Hx |]. apply IH.
      apply (f_equal (@length Z)) in E. rewrite length_app in E. simpl in E, Hlen.
      pose proof (marker_length x). lia.
    + rewrite (img_markers_step c t E).
      apply markers_step; [apply img_marker_none; exact E |].
      apply IH. simpl in Hlen. lia.
Qed.

Lemma markers_of_unique (text : str) (ms : list str) :
  markers_of text ms -> img_markers text = ms.
Proof.
  induction 1 as [| c t ms Hno _ IH | x rest ms Hx _ IH].
  - reflexivity.
  - rewrite img_markers_step by (apply img_marker_none; exact Hno). exact IH.
  - rewrite (img_markers_hit x rest Hx), IH. reflexivity.
Qed.

Lemma markers_of_inside (text : str) (ms : list str) :
  markers_of text ms ->
  forall m, m ∈ ms ->
    exists x pre post, inner_ok x /\ m = marker x /\ text = pre ++ m ++ post.
Proof.
  induction 1 as [| c t ms _ _ IH | x rest ms Hx _ IH]; intros m Hm.
  - apply elem_of_nil in Hm. destruct Hm.
  - destruct (IH m Hm) as (x & pre & post & Hx & -> & ->).
    exists x, (c :: pre), post. split; [exact Hx |]. split; reflexivity.
  - apply elem_of_cons in Hm. destruct Hm as [-> | Hm].
    + exists x, [], rest. split; [exact Hx |]. split; reflexivity.
    + destruct (IH m Hm) as (x' & pre & post & Hx' & -> & ->).
      exists x', (marker x ++ pre), post. split; [exact Hx' |].
      split; [reflexivity | rewrite <- app_assoc; reflexivity].
Qed.

(** C10: F2 counts the markers of the whole raw text and passes exactly
    when there are 3 to 5 of them.  For every text the matches are its
    occurrences of [IMG:...] from left to right and without overlap, and
    nothing else: a position where no marker begins, a bracket that opens no
    marker too, is stepped over, and after a marker the count goes on behind
    it; lines, header, body and preview play no part.  So are counted the
    markers of the header line, of a line of prose and of the preview line
    of the sample draft, and the three markers behind a bracketed note.  The
    body derivation drops, by its marker rule, only the lines that are one
    marker and nothing else once stripped, and keeps the line of prose with
    its marker. *)
Theorem check_f2_img_markers_spec :
  (forall text : str,
     value (check_f2_img_markers text) = Z.of_nat (length (img_markers text)) /\
     (result (check_f2_img_markers text) = PASS <->
      3 <= value (check_f2_img_markers text) <= 5)) /\
  (forall (text : str) (ms : list str),
     img_markers text = ms <-> markers_of text ms) /\
  (forall (text m : str),
     m ∈ img_markers text ->
     exists x pre post, (x <> [] /\ close_bracket ∉ x) /\ m = marker x /\
       text = pre ++ m ++ post) /\
  (forall pre x post : str,
     Forall (fun c => c <> 91) pre -> x <> [] -> close_bracket ∉ x ->
     img_markers (pre ++ marker x ++ post) = marker x :: img_markers post) /\
  (forall s : str,
     is_img_line s = true <->
     exists x, (x <> [] /\ close_bracket ∉ x) /\ (s = marker x \/ s = marker x ++ nl)) /\
  (forall line : str,
     (is_img_line (strip line) = true -> body_step true line = (true, Skip)) /\
     (body_step true line = (true, Skip) ->
      startswith (lit "# EP-") (strip line) = true \/
      is_img_line (strip line) = true \/
      str_eqb (strip line) rule_line = true)) /\
  value (check_f2_img_markers draft_with_markers) = 3 /\
  result (check_f2_img_markers draft_with_markers) = PASS /\
  img_markers draft_with_markers = [lit "[IMG:a]"; lit "[IMG:b]"; lit "[IMG:c]"] /\
  extract_body draft_with_markers = lit "본문 [IMG:b] 이다." /\
  img_markers draft_with_note = [lit "[IMG:a]"; lit "[IMG:b]"; lit "[IMG:c]"] /\
  value (check_f2_img_markers draft_with_note) = 3 /\
  result (check_f2_img_markers draft_with_note) = PASS.
Proof.
  split.
  { intros text. split; [reflexivity |].
    unfold check_f2_img_markers. cbn [value result].
    rewrite verdict_of_PASS, andb_true_iff, !Z.leb_le. reflexivity. }
  split.
  { intros text ms. split.
    - intros <-. apply (img_markers_occur (length text)). lia.
    - apply markers_of_unique. }
  split.
  { intros text m. apply (markers_of_inside text (img_markers text)).
    apply (img_markers_occur (length text)). lia. }
  split.
  { intros pre x post Hpre Hne Hx. apply img_markers_located; [assumption | split; assumption]. }
  split; [exact is_img_line_spec |].
  split.
  { intros line. split; [apply body_step_img_line | apply body_step_skip_in_body]. }
  repeat match goal with |- _ /\ _ => split end; vm_compute; reflexivity.
Qed.

Lemma check_f2_img_markers_spec_witness :
  img_markers (lit "제목 " ++ marker (lit "표지") ++ lit " 끝") = [lit "[IMG:표지]"].
Proof.
  destruct check_f2_img_markers_spec as (_ & _ & _ & H & _).
  rewrite (H (lit "제목 ") (lit "표지") (lit " 끝")).
  - vm_compute. reflexivity.
  - vm_compute. repeat (constructor; [discriminate |]). constructor.
  - vm_compute. discriminate.
  - apply inner_ok_forallb. vm_compute. reflexivity.
Defined.

End Checks.

(** ** Episode identifiers *)

Section EpisodeNumber.

Import Spec.
Local Open Scope Z_scope.

Variable nd : Z -> option Z.
Variable limit : nat.

Lemma is_decimal_hyphen : is_decimal nd 45 = false.
Proof. reflexivity. Qed.

Lemma letter_ci_E {A} (k : @Re.cont A) (x : Z) (t : str) :
  letter_ci 69 k (x :: t) = if decide (x = 69 \/ x = 101) then k t else None.
Proof.
  unfold letter_ci, ascii_lower, chr_eqb.
  change ((65 <=? 69) && (69 <=? 90)) with true. cbv iota.
  change (69 + 32) with 101.
  match goal with
  | |- context [Z.eqb ?a 101] => destruct (Z.eqb_spec a 101) as [E | E]
  end; case_decide as H; try reflexivity; exfalso.
  - destruct (Z.leb_spec 65 x), (Z.leb_spec x 90); cbn [andb] in E; lia.
  - destruct H as [-> | ->]; apply E; reflexivity.
Qed.

Lemma letter_ci_P {A} (k : @Re.cont A) (x : Z) (t : str) :
  letter_ci 80 k (x :: t) = if decide (x = 80 \/ x = 112) then k t else None.
Proof.
  unfold letter_ci, ascii_lower, chr_eqb.
  change ((65 <=? 80) && (80 <=? 90)) with true. cbv iota.
  change (80 + 32) with 112.
  match goal with
  | |- context [Z.eqb ?a 112] => destruct (Z.eqb_spec a 112) as [E | E]
  end; case_decide as H; try reflexivity; exfalso.
  - destruct (Z.leb_spec 65 x), (Z.leb_spec x 90); cbn [andb] in E; lia.
  - destruct H as [-> | ->]; apply E; reflexivity.
Qed.

Lemma greedy_star_total {A} (cls : Z -> bool) (k : str -> @Re.cont A) (s acc : str) :
  (forall g t, k g t <> None) -> Re.greedy_star cls k acc s <> None.
Proof.
  intros Hk. revert acc. induction s as [| c t IH]; intros acc; simpl.
  - apply Hk.
  - destruct (cls c); [| apply Hk].
    destruct (Re.greedy_star cls k (acc ++ [c]) t) eqn:E; [discriminate |].
    exfalso. exact (IH _ E).
Qed.

Lemma digits_found (digits rest : str) :
  digits <> [] -> forallb (is_decimal nd) digits = true ->
  Re.greedy_plus (is_decimal nd) digits_cont (digits ++ rest) <> None.
Proof.
  intros Hne Hd. destruct digits as [| c digits]; [congruence |].
  simpl in Hd. apply andb_true_iff in Hd. destruct Hd as [Hc _].
  unfold Re.greedy_plus. cbn [app]. rewrite Hc.
  apply greedy_star_total. intros g t. discriminate.
Qed.

Lemma digits_exact (digits rest : str) :
  digits <> [] -> forallb (is_decimal nd) digits = true ->
  match rest with
  | [] => True
  | c :: _ => is_decimal nd c = false
  end ->
  Re.greedy_plus (is_decimal nd) digits_cont (digits ++ rest) = Some digits.
Proof.
  intros Hne Hd Hrest. destruct digits as [| c digits]; [congruence |].
  simpl in Hd. apply andb_true_iff in Hd. destruct Hd as [Hc Hd].
  unfold Re.greedy_plus. cbn [app]. rewrite Hc.
  apply greedy_star_run; [assumption | assumption | reflexivity].
Qed.

Lemma digits_inv (s digits : str) :
  Re.greedy_plus (is_decimal nd) digits_cont s = Some digits ->
  exists rest, s = digits ++ rest /\ digits <> [] /\
    forallb (is_decimal nd) digits = true.
Proof.
  unfold Re.greedy_plus. destruct s as [| c t]; [discriminate |].
  destruct (is_decimal nd c) eqn:Ec; [| discriminate].
  intros H. apply greedy_star_inv in H. destruct H as (x & rest & -> & Hx & H).
  unfold digits_cont in H. injection H as <-.
  exists rest. split; [reflexivity |]. split; [discriminate |].
  simpl. rewrite Ec, Hx. reflexivity.
Qed.

Lemma ep_arg_pattern_unfold (e p : Z) (t : str) :
  ep_arg_pattern nd (e :: p :: t) =
    if decide (e = 69 \/ e = 101) then
      if decide (p = 80 \/ p = 112) then
        Re.optional 45 (Re.greedy_plus (is_decimal nd) digits_cont) t
      else None
    else None.
Proof.
  unfold ep_arg_pattern. rewrite letter_ci_E.
  case_decide; [| reflexivity]. rewrite letter_ci_P. reflexivity.
Qed.

Lemma ep_arg_pattern_accepts (s : str) :
  ep_arg_form nd s -> ep_arg_pattern nd s <> None.
Proof.
  intros (e & p & hy & digits & rest & -> & He & Hp & Hhy & Hne & Hd).
  cbn [app]. rewrite ep_arg_pattern_unfold.
  rewrite decide_True by assumption. rewrite decide_True by assumption.
  pose proof (digits_found digits rest Hne Hd) as Hfound.
  destruct Hhy as [-> | ->]; cbn [app].
  - destruct digits as [| c digits]; [congruence |].
    unfold Re.optional. cbn [app].
    unfold chr_eqb. destruct (Z.eqb_spec c 45) as [-> | Hc].
    + cbn [forallb] in Hd. rewrite is_decimal_hyphen in Hd. discriminate.
    + exact Hfound.
  - unfold Re.optional, chr_eqb. rewrite Z.eqb_refl.
    destruct (Re.greedy_plus (is_decimal nd) digits_cont (digits ++ rest));
      [discriminate | congruence].
Qed.

Lemma ep_arg_pattern_inv (s digits : str) :
  ep_arg_pattern nd s = Some digits -> ep_arg_form nd s.
Proof.
  destruct s as [| e [| p t]]; [discriminate | |].
  { unfold ep_arg_pattern. rewrite letter_ci_E. case_decide; discriminate. }
  rewrite ep_arg_pattern_unfold.
  case_decide as He; [| discriminate]. case_decide as Hp; [| discriminate].
  intros H.
  assert (Hcases : Re.greedy_plus (is_decimal nd) digits_cont t = Some digits \/
                   exists t', t = 45 :: t' /\
                     Re.greedy_plus (is_decimal nd) digits_cont t' = Some digits).
  { unfold Re.optional in H. destruct t as [| x t']; [left; assumption |].
    unfold chr_eqb in H. destruct (Z.eqb_spec x 45) as [-> | Hx]; [| left; assumption].
    destruct (Re.greedy_plus (is_decimal nd) digits_cont t') as [d |] eqn:E.
    - right. exists t'. simpl in H. split; [reflexivity | congruence].
    - left. assumption. }
  destruct Hcases as [Hd | (t' & -> & Hd)];
    apply digits_inv in Hd; destruct Hd as (rest & -> & Hne & Hd).
  - exists e, p, [], digits, rest. repeat split; auto.
  - exists e, p, [45], digits, rest. repeat split; auto.
Qed.

Lemma greedy_star_longest (cls : Z -> bool) (s acc d : str) :
  Re.greedy_star cls digits_cont acc s = Some d ->
  exists x rest, s = x ++ rest /\ d = acc ++ x /\ forallb cls x = true /\
    match rest with
    | [] => True
    | c :: _ => cls c = false
    end.
Proof.
  revert acc. induction s as [| c t IH]; intros acc H; simpl in H.
  - injection H as <-. exists [], []. rewrite (app_nil_r acc).
    split; [reflexivity |]. split; [reflexivity |]. split; [reflexivity | exact I].
  - destruct (cls c) eqn:Ec.
    + destruct (Re.greedy_star cls digits_cont (acc ++ [c]) t) as [d' |] eqn:E.
      * simpl in H. injection H as <-.
        destruct (IH _ E) as (x & rest & -> & -> & Hx & Hrest).
        exists (c :: x), rest. rewrite <- app_assoc. simpl. rewrite Ec, Hx.
        split; [reflexivity |]. split; [reflexivity |]. split; [reflexivity | exact Hrest].
      * exfalso. revert E. apply greedy_star_total. intros g u. discriminate.
    + injection H as <-. exists [], (c :: t). rewrite (app_nil_r acc).
      split; [reflexivity |]. split; [reflexivity |]. split; [reflexivity | exact Ec].
Qed.

Lemma digits_read (s digits : str) :
  Re.greedy_plus (is_decimal nd) digits_cont s = Some digits ->
  exists rest, s = digits ++ rest /\ digits <> [] /\
    forallb (is_decimal nd) digits = true /\
    match rest with
    | [] => True
    | c :: _ => is_decimal nd c = false
    end.
Proof.
  unfold Re.greedy_plus. destruct s as [| c t]; [discriminate |].
  destruct (is_decimal nd c) eqn:Ec; [| discriminate].
  intros H. apply greedy_star_longest in H.
  destruct H as (x & rest & -> & -> & Hx & Hrest).
  exists rest. split; [reflexivity |]. split; [discriminate |].
  split; [simpl; rewrite Ec, Hx; reflexivity | exact Hrest].
Qed.

(** The group that the pattern answers is the run of digits the identifier
    holds after its letters and its hyphen. *)
Lemma ep_arg_pattern_reads (s digits : str) :
  ep_arg_pattern nd s = Some digits <-> ep_arg_reads nd s digits.
Proof.
  split.
  - destruct s as [| e [| p t]]; [discriminate | |].
    { unfold ep_arg_pattern. rewrite letter_ci_E. case_decide; discriminate. }
    rewrite ep_arg_pattern_unfold.
    case_decide as He; [| discriminate]. case_decide as Hp; [| discriminate].
    intros H.
    assert (Hcases : Re.greedy_plus (is_decimal nd) digits_cont t = Some digits \/
                     exists t', t = 45 :: t' /\
                       Re.greedy_plus (is_decimal nd) digits_cont t' = Some digits).
    { unfold Re.optional in H. destruct t as [| x t']; [left; assumption |].
      unfold chr_eqb in H. destruct (Z.eqb_spec x 45) as [-> | Hx]; [| left; assumption].
      destruct (Re.greedy_plus (is_decimal nd) digits_cont t') as [d |] eqn:E.
      - right. exists t'. simpl in H. split; [reflexivity | congruence].
      - left. assumption. }
    destruct Hcases as [Hd | (t' & -> & Hd)];
      apply digits_read in Hd; destruct Hd as (rest & -> & Hne & Hd & Hrest).
    + exists e, p, [], rest. repeat split; auto.
    + exists e, p, [45], rest. repeat split; auto.
  - intros (e & p & hyphen & rest & -> & He & Hp & Hhy & Hne & Hd & Hrest).
    cbn [app]. rewrite ep_arg_pattern_unfold.
    rewrite decide_True by assumption. rewrite decide_True by assumption.
    pose proof (digits_exact digits rest Hne Hd Hrest) as Hex.
    destruct Hhy as [-> | ->]; cbn [app].
    + destruct digits as [| c digits]; [congruence |].
      unfold Re.optional. cbn [app].
      unfold chr_eqb. destruct (Z.eqb_spec c 45) as [-> | Hc].
      * cbn [forallb] in Hd. rewrite is_decimal_hyphen in Hd. discriminate.
      * exact Hex.
    + unfold Re.optional, chr_eqb. rewrite Z.eqb_refl, Hex. reflexivity.
Qed.

Lemma int_of_digits_raises (digits : str) :
  (exists message, int_of_digits nd limit digits = ValueError message) <->
  too_many_digits limit (length digits).
Proof.
  unfold int_of_digits, too_many_digits. cbv zeta.
  destruct (Nat.ltb_spec 640 (length digits)) as [H1 | H1];
    destruct (Nat.ltb_spec 0 limit) as [H2 | H2];
    destruct (Nat.ltb_spec limit (length digits)) as [H3 | H3]; cbn [andb];
    split; try (intros [message E]; discriminate); try (intros (? & ? & ?); lia).
  - intros _. auto.
  - intros _. eexists. reflexivity.
Qed.

Lemma int_of_digits_value (digits : str) :
  ~ too_many_digits limit (length digits) ->
  int_of_digits nd limit digits = Ok (digits_value nd digits).
Proof.
  intros H. destruct (int_of_digits nd limit digits) as [n | message] eqn:E.
  - unfold int_of_digits in E. cbv zeta in E.
    destruct (_ && _ && _)%bool; [discriminate | symmetry; exact E].
  - exfalso. apply H. apply int_of_digits_raises. exists message. exact E.
Qed.

Lemma parse_raises_iff (s : str) :
  parse_raises nd limit s <->
  ~ ep_arg_form nd s \/
  exists digits, ep_arg_reads nd s digits /\ too_many_digits limit (length digits).
Proof.
  unfold parse_raises, parse_ep_number. split.
  - intros [message H]. destruct (ep_arg_pattern nd s) as [digits |] eqn:E.
    + right. exists digits. split; [apply ep_arg_pattern_reads; exact E |].
      apply int_of_digits_raises. exists message. exact H.
    + left. intros Hform. apply ep_arg_pattern_accepts in Hform. congruence.
  - intros [Hform | (digits & Hreads & Hmany)].
    + destruct (ep_arg_pattern nd s) as [digits |] eqn:E.
      * exfalso. apply Hform. eapply ep_arg_pattern_inv. eassumption.
      * eexists. reflexivity.
    + apply ep_arg_pattern_reads in Hreads. rewrite Hreads.
      apply int_of_digits_raises. exact Hmany.
Qed.

Lemma parse_value (s digits : str) :
  ep_arg_reads nd s digits -> ~ too_many_digits limit (length digits) ->
  parse_ep_number nd limit s = Ok (digits_value nd digits).
Proof.
  intros Hreads Hfew. unfold parse_ep_number.
  apply ep_arg_pattern_reads in Hreads. rewrite Hreads.
  apply int_of_digits_value. exact Hfew.
Qed.

Lemma ascii_digit_value (a : Z) :
  ascii_digit a -> decimal_value nd a = Some (a - 48).
Proof.
  intros [H1 H2]. unfold decimal_value.
  destruct (Z.ltb_spec a 128); [| lia].
  destruct (Z.leb_spec 48 a); [| lia]. destruct (Z.leb_spec a 57); [| lia].
  reflexivity.
Qed.

Lemma ep_tag_reads (digits : str) :
  digits <> [] -> forallb (is_decimal nd) digits = true ->
  ep_arg_reads nd (lit "EP-" ++ digits) digits.
Proof.
  intros Hne Hd. exists 69, 80, [45], []. rewrite app_nil_r.
  split; [reflexivity |]. split; [left; reflexivity |]. split; [left; reflexivity |].
  split; [right; reflexivity |]. split; [exact Hne |]. split; [exact Hd | exact I].
Qed.

Lemma parse_canonical (a b : Z) :
  ascii_digit a -> ascii_digit b ->
  parse_ep_number nd limit (lit "EP-" ++ [a; b]) = Ok (10 * (a - 48) + (b - 48)).
Proof.
  intros Ha Hb.
  pose proof (ascii_digit_value a Ha) as Va. pose proof (ascii_digit_value b Hb) as Vb.
  rewrite (parse_value (lit "EP-" ++ [a; b]) [a; b]).
  - unfold digits_value. cbn [fold_left]. rewrite Va, Vb. cbn [default]. f_equal; lia.
  - apply ep_tag_reads; [discriminate |].
    unfold is_decimal. cbn [forallb]. rewrite Va, Vb. reflexivity.
  - intros (H & _). simpl in H. lia.
Qed.

Lemma parse_too_long (digits : str) :
  forallb (is_decimal nd) digits = true -> too_many_digits limit (length digits) ->
  parse_raises nd limit (lit "EP-" ++ digits).
Proof.
  intros Hd Hmany. apply parse_raises_iff. right. exists digits. split; [| exact Hmany].
  apply ep_tag_reads; [| exact Hd].
  intros ->. destruct Hmany as (H & _). simpl in H. lia.
Qed.

End EpisodeNumber.

(** C8, as amended: parsing raises an error exactly when the identifier does
    not begin with E or e, P or p, at most one hyphen and at least one
    decimal digit, or when the run of digits that it reads there has more
    digits than the interpreter converts (more than 640 and more than its
    limit, 4300 unless set otherwise); in every other case it returns the
    number written by that run of digits, whatever follows it.  On the
    canonical form EP-NN it returns the two-digit number NN, and an
    identifier with 4301 digits raises under the limit of 4300. *)
Theorem parse_ep_number_spec (nd : Z -> option Z) (limit : nat) :
  (forall s : str,
     Spec.parse_raises nd limit s <->
     ~ Spec.ep_arg_form nd s \/
     exists digits, Spec.ep_arg_reads nd s digits /\
       Spec.too_many_digits limit (length digits)) /\
  (forall s digits : str,
     Spec.ep_arg_reads nd s digits ->
     ~ Spec.too_many_digits limit (length digits) ->
     parse_ep_number nd limit s = Ok (digits_value nd digits)) /\
  (forall s digits digits' : str,
     Spec.ep_arg_reads nd s digits -> Spec.ep_arg_reads nd s digits' ->
     digits = digits') /\
  (forall a b : Z, Spec.ascii_digit a -> Spec.ascii_digit b ->
     parse_ep_number nd limit (lit "EP-" ++ [a; b]) = Ok (10 * (a - 48) + (b - 48))%Z) /\
  (forall digits : str,
     forallb (is_decimal nd) digits = true ->
     Spec.too_many_digits limit (length digits) ->
     Spec.parse_raises nd limit (lit "EP-" ++ digits)) /\
  Spec.parse_raises nd 4300 (lit "EP-" ++ replicate 4301 49%Z) /\
  parse_ep_number nd 4300 (lit "EP-" ++ replicate 4300 48%Z) = Ok 0.
Proof.
  split; [apply parse_raises_iff |].
  split; [apply parse_value |].
  split.
  { intros s digits digits' H H'.
    apply ep_arg_pattern_reads in H. apply ep_arg_pattern_reads in H'. congruence. }
  split; [apply parse_canonical |].
  split; [apply parse_too_long |].
  split.
  - eexists. vm_compute. reflexivity.
  - vm_compute. reflexivity.
Qed.

Lemma parse_ep_number_spec_witness :
  parse_ep_number (fun _ => None) 4300 (lit "EP-05") = Ok 5.
Proof.
  destruct (parse_ep_number_spec (fun _ => None) 4300) as (_ & _ & _ & H & _).
  apply (H 48 53)%Z; unfold Spec.ascii_digit; lia.
Defined.

(** C8 as stated fails: EP5, ep-123 and EP-05x are not of the canonical
    form EP-NN and are parsed without an error, whatever the table of digits
    outside ASCII and the limit of the interpreter. *)
Lemma parse_ep_number_counterexample :
  ~ (exists nd limit, Spec.parse_as_stated nd limit) /\
  (forall nd limit, parse_ep_number nd limit (lit "EP5") = Ok 5 /\
                    parse_ep_number nd limit (lit "ep-123") = Ok 123 /\
                    parse_ep_number nd limit (lit "EP-05x") = Ok 5).
Proof.
  split.
  - intros (nd & limit & H). destruct (H (lit "EP5")) as [_ H1].
    destruct H1 as [message E]; [| vm_compute in E; discriminate].
    intros (a & b & _ & _ & E). vm_compute in E. discriminate.
  - intros nd limit. repeat split; vm_compute; reflexivity.
Qed.

(** ** Selection and truncation of lore sections *)

Section Lore.

Import Spec.

Lemma needed_sections_fold (outline : str) :
  needed_sections outline =
  fold_left (take_rule outline) WORLD_KEYWORDS (list_to_set always_sections).
Proof. reflexivity. Qed.

Lemma take_rules_grow (outline : str) (rules : list (string * KeywordRule))
  (needed : gset str) (name : str) :
  name ∈ needed -> name ∈ fold_left (take_rule outline) rules needed.
Proof.
  revert needed. induction rules as [| [cat config] rules IH]; intros needed H.
  - exact H.
  - simpl. apply IH. destruct (existsb _ _); [apply elem_of_union; left |]; exact H.
Qed.

Lemma take_rules_idle (outline : str) (rules : list (string * KeywordRule))
  (needed : gset str) :
  Forall (fun rule => existsb (fun keyword => contains keyword outline)
                        (keywords rule.2) = false) rules ->
  fold_left (take_rule outline) rules needed = needed.
Proof.
  intros H. revert needed. induction H as [| [cat config] rules Hr _ IH]; intros needed.
  - reflexivity.
  - simpl in *. rewrite Hr. apply IH.
Qed.

Lemma always_sections_circle : always_sections = [lit "서클 체계"].
Proof. vm_compute. reflexivity. Qed.

(** C6: the sections of the category that is always included, which are the
    one section 서클 체계, are among the selected sections for every outline;
    an outline without any keyword selects exactly them, as the outline
    의미 없는 텍스트 does; and a selected section that the world document
    holds is part of the result. *)
Theorem needed_sections_always :
  always_sections = [lit "서클 체계"] /\
  (forall outline name : str, name ∈ always_sections -> name ∈ needed_sections outline) /\
  (forall outline : str, lit "서클 체계" ∈ needed_sections outline) /\
  (forall outline : str,
     Forall (fun rule => existsb (fun keyword => contains keyword outline)
                           (keywords rule.2) = false) WORLD_KEYWORDS ->
     needed_sections outline = list_to_set always_sections) /\
  elements (needed_sections (lit "의미 없는 텍스트")) = [lit "서클 체계"] /\
  (forall text outline name g : str,
     name ∈ needed_sections outline ->
     Re.search (section_pattern (lit "### ") name [lit "### "; lit "## "]) text = Some g ->
     truncate_section 60 (lit "### " ++ name ++ g) ∈ world_sections text outline).
Proof.
  assert (Hall : forall outline name : str,
            name ∈ always_sections -> name ∈ needed_sections outline).
  { intros outline name H. rewrite needed_sections_fold.
    apply take_rules_grow. apply elem_of_list_to_set. exact H. }
  split; [exact always_sections_circle |].
  split; [exact Hall |].
  split.
  { intros outline. apply Hall. rewrite always_sections_circle.
    apply list_elem_of_singleton. reflexivity. }
  split.
  { intros outline H. rewrite needed_sections_fold. apply take_rules_idle. exact H. }
  split; [vm_compute; reflexivity |].
  intros text outline name g Hin Hfound. unfold world_sections.
  apply list_elem_of_omap. exists name. split.
  - apply elem_of_elements. exact Hin.
  - rewrite Hfound. reflexivity.
Qed.

Lemma needed_sections_always_witness :
  lit "서클 체계" ∈ needed_sections (lit "전투가 시작되었다").
Proof.
  destruct needed_sections_always as (_ & H & _).
  apply (H (lit "전투가 시작되었다") (lit "서클 체계")).
  rewrite always_sections_circle. apply list_elem_of_singleton. reflexivity.
Defined.

(** *** Lines of a section *)

Lemma split_lines_nonempty (s : str) : split_lines s <> [].
Proof.
  destruct s as [| c t]; simpl; [discriminate |].
  destruct (chr_eqb c 10); [discriminate |].
  destruct (split_lines t); discriminate.
Qed.

Lemma no_nl_nil : no_nl [].
Proof. intros H. apply elem_of_nil in H. exact H. Qed.

Lemma no_nl_cons (c : Z) (l : str) : c <> 10%Z -> no_nl l -> no_nl (c :: l).
Proof. intros Hc Hl H. apply elem_of_cons in H. destruct H; [congruence | auto]. Qed.

Lemma split_lines_no_nl (s : str) : Forall no_nl (split_lines s).
Proof.
  induction s as [| c t IH]; simpl.
  - constructor; [apply no_nl_nil | constructor].
  - unfold chr_eqb. destruct (Z.eqb_spec c 10) as [-> | Hc].
    + constructor; [apply no_nl_nil | exact IH].
    + destruct (split_lines t) as [| l ls]; [repeat constructor; apply no_nl_cons; auto using no_nl_nil |].
      inversion IH; subst. constructor; [apply no_nl_cons |]; assumption.
Qed.

Lemma split_lines_app_nl (a b : str) :
  split_lines (a ++ nl ++ b) = split_lines a ++ split_lines b.
Proof.
  induction a as [| c a IH]; [reflexivity |].
  cbn [app split_lines]. destruct (chr_eqb c 10).
  - cbn [app] in IH. rewrite IH. reflexivity.
  - cbn [app] in IH. rewrite IH.
    pose proof (split_lines_nonempty a) as Hne.
    destruct (split_lines a) as [| l ls]; [congruence | reflexivity].
Qed.

Lemma split_lines_line (l : str) : no_nl l -> split_lines l = [l].
Proof.
  induction l as [| c l IH]; intros H; [reflexivity |].
  simpl. unfold chr_eqb. destruct (Z.eqb_spec c 10) as [-> | Hc].
  - exfalso. apply H. apply elem_of_cons. left. reflexivity.
  - rewrite IH; [reflexivity |]. intros Hin. apply H. apply elem_of_cons. right. exact Hin.
Qed.

Lemma split_lines_join (ls : list str) :
  ls <> [] -> Forall no_nl ls -> split_lines (join nl ls) = ls.
Proof.
  induction ls as [| l ls IH]; intros Hne H; [congruence |].
  inversion H as [| ? ? Hl Hls]; subst.
  destruct ls as [| l' ls].
  - simpl. apply split_lines_line. exact Hl.
  - change (join nl (l :: l' :: ls)) with (l ++ nl ++ join nl (l' :: ls)).
    rewrite split_lines_app_nl, (split_lines_line l Hl), IH; [reflexivity | discriminate | exact Hls].
Qed.

Lemma no_nl_forallb (l : str) :
  forallb (fun c => negb (chr_eqb c 10)) l = true -> no_nl l.
Proof.
  induction l as [| c l IH]; simpl; intros H; [apply no_nl_nil |].
  apply andb_true_iff in H. destruct H as [Hc Hl].
  apply no_nl_cons; [| auto].
  apply negb_true_iff in Hc. unfold chr_eqb in Hc. apply Z.eqb_neq in Hc. exact Hc.
Qed.

Lemma elision_marker_no_nl : no_nl elision_marker.
Proof. apply no_nl_forallb. vm_compute. reflexivity. Qed.

Lemma truncate_section_cut (limit : nat) (section : str) :
  0 < limit -> limit < length (split_lines section) ->
  split_lines (truncate_section limit section) =
    take limit (split_lines section) ++ [elision_marker].
Proof.
  intros Hpos Hlong. unfold truncate_section.
  rewrite bool_decide_eq_true_2 by exact Hlong.
  rewrite split_lines_app_nl, (split_lines_line _ elision_marker_no_nl).
  rewrite split_lines_join; [reflexivity | |].
  - intros E. apply (f_equal (@length str)) in E.
    rewrite length_take in E. simpl in E. lia.
  - apply Forall_take. apply split_lines_no_nl.
Qed.

Lemma truncate_section_keep (limit : nat) (section : str) :
  length (split_lines section) <= limit -> truncate_section limit section = section.
Proof.
  intros H. unfold truncate_section. rewrite bool_decide_eq_false_2 by lia. reflexivity.
Qed.

Lemma truncate_section_within (limit : nat) (section : str) :
  0 < limit -> lines_within limit (truncate_section limit section).
Proof.
  intros Hpos. destruct (decide (limit < length (split_lines section))) as [H | H].
  - right. rewrite truncate_section_cut by assumption.
    rewrite length_app, length_take. simpl. split; [lia | apply last_snoc].
  - left. rewrite truncate_section_keep by lia. lia.
Qed.

(** C7: every section returned by the character extractor has at most 80
    lines, or 80 lines followed by the elision marker as 81st and last line;
    every section returned by the world extractor has at most 60 lines, or 60
    lines followed by the marker; and a section longer than the limit is cut
    to its first lines followed by the marker. *)
Theorem extracted_sections_within :
  (forall text outline sec : str,
     sec ∈ character_sections text outline -> lines_within 80 sec) /\
  (forall text outline sec : str,
     sec ∈ world_sections text outline -> lines_within 60 sec) /\
  (forall (limit : nat) (section : str),
     0 < limit -> limit < length (split_lines section) ->
     split_lines (truncate_section limit section) =
       take limit (split_lines section) ++ [elision_marker]) /\
  (forall (limit : nat) (section : str),
     length (split_lines section) <= limit ->
     truncate_section limit section = section).
Proof.
  split.
  { intros text outline sec H. unfold character_sections in H.
    apply list_elem_of_omap in H. destruct H as (header & _ & H).
    destruct (Re.search _ text); [| discriminate].
    injection H as <-. apply truncate_section_within. lia. }
  split.
  { intros text outline sec H. unfold world_sections in H.
    apply list_elem_of_omap in H. destruct H as (name & _ & H).
    destruct (Re.search _ text); [| discriminate].
    injection H as <-. apply truncate_section_within. lia. }
  split; [exact truncate_section_cut | exact truncate_section_keep].
Qed.

Lemma extracted_sections_within_witness :
  exists sec,
    character_sections long_character_text (lit "소피아가 웃었다") = [sec] /\
    lines_within 80 sec /\ length (split_lines sec) = 81.
Proof.
  eexists. split; [vm_compute; reflexivity |].
  split; [| vm_compute; reflexivity].
  destruct extracted_sections_within as (H & _).
  apply (H long_character_text (lit "소피아가 웃었다")).
  apply list_elem_of_In. left. vm_compute. reflexivity.
Defined.

End Lore.

(** ** The hook of the previous episode *)

Section Hook.

Import Spec.

Lemma search_here {A} (m : @Re.cont A) (s : str) (r : A) :
  m s = Some r -> Re.search m s = Some r.
Proof. intros H. destruct s; simpl; rewrite H; reflexivity. Qed.

Lemma search_skip {A} (m : @Re.cont A) (pre s : str) :
  (forall i, i < length pre -> m (drop i (pre ++ s)) = None) ->
  Re.search m (pre ++ s) = Re.search m s.
Proof.
  induction pre as [| c pre IH]; intros H; [reflexivity |].
  pose proof (H 0 ltac:(simpl; lia)) as H0. simpl in H0.
  cbn [app Re.search]. rewrite H0. cbn [Re.or_else].
  apply IH. intros i Hi. apply (H (S i)). simpl. lia.
Qed.

Lemma literal_fail {A} (p s : str) (k : @Re.cont A) :
  startswith p s = false -> Re.literal p k s = None.
Proof. intros H. unfold Re.literal. rewrite H. reflexivity. Qed.

Lemma search_literal_absent {A} (p s : str) (k : @Re.cont A) :
  contains p s = false -> Re.search (Re.literal p k) s = None.
Proof.
  induction s as [| c t IH]; simpl; intros H; apply orb_false_iff in H; destruct H as [H1 H2].
  - rewrite literal_fail by assumption. reflexivity.
  - rewrite literal_fail by assumption. simpl. auto.
Qed.

Lemma search_literal_first {A} (p pre rest : str) (k : @Re.cont A) (r : A) :
  first_at p pre (p ++ rest) -> k rest = Some r ->
  Re.search (Re.literal p k) (pre ++ p ++ rest) = Some r.
Proof.
  intros Hfirst Hk. rewrite search_skip.
  - apply search_here. rewrite literal_app. exact Hk.
  - intros i Hi. apply literal_fail. apply Hfirst. exact Hi.
Qed.

Lemma lazy_star_until {A} (stops : list str) (f : str -> A) (k : str -> @Re.cont A)
  (s acc : str) :
  (forall g t, k g t = if stop_here stops t then Some (f g) else None) ->
  Re.lazy_star Re.any_chr k acc s = Some (f (acc ++ until stops s)).
Proof.
  intros Hk. revert acc. induction s as [| c t IH]; intros acc.
  - simpl. rewrite Hk. simpl. rewrite app_nil_r. reflexivity.
  - cbn [Re.lazy_star until]. rewrite Hk.
    destruct (stop_here stops (c :: t)).
    + rewrite app_nil_r. reflexivity.
    + cbn [Re.or_else Re.any_chr]. rewrite IH, <- app_assoc. reflexivity.
Qed.

Lemma lazy_plus_until {A} (stops : list str) (f : str -> A) (k : str -> @Re.cont A)
  (c : Z) (t : str) :
  (forall g t, k g t = if stop_here stops t then Some (f g) else None) ->
  Re.lazy_plus Re.any_chr k (c :: t) = Some (f (c :: until stops t)).
Proof.
  intros Hk. unfold Re.lazy_plus. cbn [Re.any_chr].
  rewrite (lazy_star_until stops f k t [c] Hk). reflexivity.
Qed.

Lemma block_stop_cont (g t : str) :
  Re.lookahead
    (Re.alt (Re.literal (nl ++ lit "### EP-") (matched tt))
       (Re.alt (Re.literal (nl ++ lit "---") (matched tt))
          (Re.at_end (matched tt))))
    (matched g) t =
  if stop_here block_stops t then Some g else None.
Proof.
  unfold Re.lookahead, Re.alt, Re.literal, Re.at_end, matched, block_stops, stop_here.
  destruct t as [| c t]; [reflexivity |]. cbn [existsb].
  destruct (startswith (nl ++ lit "### EP-") (c :: t)); [reflexivity |].
  destruct (startswith (nl ++ lit "---") (c :: t)); reflexivity.
Qed.

Lemma hook_stop_cont (g t : str) :
  Re.alt (Re.literal (nl ++ nl) (matched g))
    (Re.alt (Re.literal (nl ++ lit "-") (matched g)) (Re.at_end (matched g))) t =
  if stop_here hook_stops t then Some g else None.
Proof.
  unfold Re.alt, Re.literal, Re.at_end, matched, hook_stops, stop_here.
  destruct t as [| c t]; [reflexivity |]. cbn [existsb].
  destruct (startswith (nl ++ nl) (c :: t)); [reflexivity |].
  destruct (startswith (nl ++ lit "-") (c :: t)); reflexivity.
Qed.

(** The block of an episode: what follows its first heading, one character at
    least, up to the next heading, a rule or the end. *)
Lemma ep_block_found (tag pre : str) (c : Z) (t : str) :
  first_at (block_header tag) pre (block_header tag ++ c :: t) ->
  Re.search (ep_block_pattern tag) (pre ++ block_header tag ++ c :: t) =
    Some (c :: until block_stops t).
Proof.
  intros Hfirst. unfold ep_block_pattern.
  apply search_literal_first; [exact Hfirst |].
  apply (lazy_plus_until block_stops (fun g => g)). apply block_stop_cont.
Qed.

Lemma ep_block_absent (tag text : str) :
  contains (block_header tag) text = false ->
  Re.search (ep_block_pattern tag) text = None.
Proof. apply search_literal_absent. Qed.

(** The hook of a block: after the first label and the white space that
    follows it, the text up to a blank line, a line that starts with a hyphen
    or the end. *)
Lemma hook_found (pre ws : str) (c : Z) (t : str) :
  first_at hook_label pre (hook_label ++ ws ++ c :: t) ->
  forallb is_space ws = true -> is_space c = false ->
  Re.search hook_pattern (pre ++ hook_label ++ ws ++ c :: t) =
    Some (c :: until hook_stops t).
Proof.
  intros Hfirst Hws Hc. unfold hook_pattern.
  apply search_literal_first; [exact Hfirst |].
  apply greedy_star_run; [exact Hws | exact Hc |].
  apply (lazy_plus_until hook_stops (fun g => g)). apply hook_stop_cont.
Qed.

Lemma hook_absent (block : str) :
  contains hook_label block = false -> Re.search hook_pattern block = None.
Proof. apply search_literal_absent. Qed.

Lemma prev_hook_unfold (text : str) (N : Z) :
  (1 < N)%Z ->
  prev_ending_hook (extract_ep_outline text N) =
    match Re.search (ep_block_pattern (ep_tag_of (N - 1))) text with
    | Some prev_block =>
      match Re.search hook_pattern prev_block with
      | Some h => strip h
      | None => []
      end
    | None => []
    end.
Proof.
  intros H. unfold extract_ep_outline. cbv zeta. cbn [prev_ending_hook].
  destruct (Z.ltb_spec 1 N); [reflexivity | lia].
Qed.

Lemma prev_hook_first_episode (text : str) (N : Z) :
  (N <= 1)%Z -> prev_ending_hook (extract_ep_outline text N) = [].
Proof.
  intros H. unfold extract_ep_outline. cbv zeta. cbn [prev_ending_hook].
  destruct (Z.ltb_spec 1 N); [lia | reflexivity].
Qed.

(** C5, as amended: for an episode number N > 1 whose previous block holds
    the label **엔딩 훅**: followed, after white space, by some text, the
    extractor returns that text up to the next blank line, the next line that
    starts with a hyphen, or the end of the block, without the white space
    around it; it returns the empty string when the previous block or the
    label is absent, and for N <= 1.  The previous block is what follows the
    first heading ### EP-(N-1): up to the next episode heading, a rule or the
    end.  A following line with a bold label and no hyphen stays in the
    hook. *)
Theorem prev_ending_hook_spec :
  (forall (text : str) (N : Z) (block pre ws : str) (c : Z) (t : str),
     (1 < N)%Z ->
     Re.search (ep_block_pattern (ep_tag_of (N - 1))) text = Some block ->
     block = pre ++ hook_label ++ ws ++ c :: t ->
     first_at hook_label pre (hook_label ++ ws ++ c :: t) ->
     forallb is_space ws = true -> is_space c = false ->
     prev_ending_hook (extract_ep_outline text N) = strip (c :: until hook_stops t)) /\
  (forall (text : str) (N : Z) (block : str),
     (1 < N)%Z ->
     Re.search (ep_block_pattern (ep_tag_of (N - 1))) text = Some block ->
     contains hook_label block = false ->
     prev_ending_hook (extract_ep_outline text N) = []) /\
  (forall (text : str) (N : Z),
     (1 < N)%Z ->
     contains (block_header (ep_tag_of (N - 1))) text = false ->
     prev_ending_hook (extract_ep_outline text N) = []) /\
  (forall (text : str) (N : Z),
     (N <= 1)%Z -> prev_ending_hook (extract_ep_outline text N) = []) /\
  (forall (tag pre : str) (c : Z) (t : str),
     first_at (block_header tag) pre (block_header tag ++ c :: t) ->
     Re.search (ep_block_pattern tag) (pre ++ block_header tag ++ c :: t) =
       Some (c :: until block_stops t)) /\
  prev_ending_hook (extract_ep_outline outline_with_item 2) = lit "문이 열렸다." /\
  prev_ending_hook (extract_ep_outline outline_with_bold_line 2) =
    lit "문이 열렸다." ++ nl ++ lit "**메모**: 다음 화로".
Proof.
  split.
  { intros text N block pre ws c t HN Hblock -> Hfirst Hws Hc.
    rewrite prev_hook_unfold by exact HN. rewrite Hblock.
    rewrite (hook_found pre ws c t Hfirst Hws Hc). reflexivity. }
  split.
  { intros text N block HN Hblock Habs.
    rewrite prev_hook_unfold by exact HN. rewrite Hblock.
    rewrite (hook_absent block Habs). reflexivity. }
  split.
  { intros text N HN Habs.
    rewrite prev_hook_unfold by exact HN.
    rewrite (ep_block_absent _ text Habs). reflexivity. }
  split; [exact prev_hook_first_episode |].
  split; [exact ep_block_found |].
  split; vm_compute; reflexivity.
Qed.

Lemma prev_ending_hook_spec_witness :
  prev_ending_hook (extract_ep_outline outline_with_item 2) =
    strip (lit "문이 열렸다.").
Proof.
  destruct prev_ending_hook_spec as (H & _).
  apply (H outline_with_item 2%Z
           (lit " 제목" ++ nl ++ lit "- **엔딩 훅**: 문이 열렸다." ++ nl ++ lit "- 메모: 끝")
           (lit " 제목" ++ nl ++ lit "- ") (lit " ") 47928%Z
           (lit "이 열렸다." ++ nl ++ lit "- 메모: 끝")).
  - lia.
  - vm_compute. reflexivity.
  - vm_compute. reflexivity.
  - intros i Hi.
    do 6 (destruct i as [| i]; [vm_compute; reflexivity |]).
    vm_compute in Hi. lia.
  - vm_compute. reflexivity.
  - vm_compute. reflexivity.
Defined.

(** C5 as stated fails: in this outline the hook of episode 1 is followed by
    a list item that has no bold label; the text up to the next blank line or
    bold-labelled line goes on through that item, and the extractor stops
    before it. *)
Lemma prev_ending_hook_counterexample :
  ~ prev_hook_as_stated /\
  prev_ending_hook (extract_ep_outline outline_with_item 2) = lit "문이 열렸다." /\
  hook_as_stated
    (lit " 제목" ++ nl ++ lit "- **엔딩 훅**: 문이 열렸다." ++ nl ++ lit "- 메모: 끝") =
    lit "문이 열렸다." ++ nl ++ lit "- 메모: 끝".
Proof.
  split; [| split; vm_compute; reflexivity].
  intros H.
  specialize (H outline_with_item 2%Z
                (lit " 제목" ++ nl ++ lit "- **엔딩 훅**: 문이 열렸다." ++ nl
                 ++ lit "- 메모: 끝")).
  assert (E : prev_ending_hook (extract_ep_outline outline_with_item 2) =
              hook_as_stated
                (lit " 제목" ++ nl ++ lit "- **엔딩 훅**: 문이 열렸다." ++ nl
                 ++ lit "- 메모: 끝")).
  { apply H; [lia | vm_compute; reflexivity | vm_compute; reflexivity]. }
  vm_compute in E. discriminate.
Qed.

End Hook.

(** ** Further properties of the linter *)

Section Stripping.

Lemma lstrip_by_app (q : Z -> bool) (a b : str) :
  forallb q a = true -> lstrip_by q (a ++ b) = lstrip_by q b.
Proof.
  induction a as [| c a IH]; simpl; intros H; [reflexivity |].
  apply andb_true_iff in H. destruct H as [Hc Ha]. rewrite Hc. auto.
Qed.

Lemma lstrip_by_fixed (q : Z -> bool) (s : str) :
  match s with
  | [] => True
  | c :: _ => q c = false
  end -> lstrip_by q s = s.
Proof. destruct s as [| c t]; simpl; intros H; [reflexivity | rewrite H; reflexivity]. Qed.

Lemma rstrip_by_app (q : Z -> bool) (a b : str) :
  forallb q b = true -> rstrip_by q (a ++ b) = rstrip_by q a.
Proof.
  intros H. unfold rstrip_by. rewrite reverse_app, lstrip_by_app; [reflexivity |].
  rewrite reverse_rev. rewrite forallb_forall in *. intros x Hx. apply H.
  apply in_rev. exact Hx.
Qed.

Lemma rstrip_by_spec (q : Z -> bool) (s : str) :
  exists suffix, s = rstrip_by q s ++ suffix /\ forallb q suffix = true /\
    match last (rstrip_by q s) with
    | None => True
    | Some c => q c = false
    end.
Proof.
  unfold rstrip_by. rewrite !reverse_rev.
  destruct (lstrip_by_spec q (rev s)) as (pre & E1 & E2 & E3).
  exists (rev pre). repeat split.
  - rewrite <- rev_app_distr, <- E1, rev_involutive. reflexivity.
  - rewrite forallb_forall in *. intros x Hx. apply E2. apply in_rev. exact Hx.
  - destruct (lstrip_by q (rev s)) as [| c r]; [exact I |].
    simpl. rewrite last_snoc. exact E3.
Qed.

Lemma rstrip_by_fixed (q : Z -> bool) (s : str) :
  match last s with
  | None => True
  | Some c => q c = false
  end -> rstrip_by q s = s.
Proof.
  intros H. unfold rstrip_by.
  rewrite lstrip_by_fixed; [apply reverse_involutive |].
  destruct s as [| c t] using rev_ind; [exact I |].
  rewrite reverse_snoc. rewrite last_snoc in H. exact H.
Qed.

(** The stripped text lies inside the text, and neither begins nor ends with
    white space. *)
Lemma strip_inside (s : str) :
  exists a b, s = a ++ strip s ++ b /\ forallb is_space a = true /\
    forallb is_space b = true.
Proof.
  unfold strip.
  destruct (lstrip_by_spec is_space s) as (a & E1 & E2 & _).
  destruct (rstrip_by_spec is_space (lstrip_by is_space s)) as (b & E3 & E4 & _).
  exists a, b. split; [| split; assumption].
  rewrite <- E3. exact E1.
Qed.

Lemma strip_head (s : str) :
  match strip s with
  | [] => True
  | c :: _ => is_space c = false
  end.
Proof.
  unfold strip.
  destruct (lstrip_by_spec is_space s) as (a & _ & _ & E).
  destruct (rstrip_by_spec is_space (lstrip_by is_space s)) as (b & E3 & _ & _).
  destruct (rstrip_by is_space (lstrip_by is_space s)) as [| c r]; [exact I |].
  rewrite E3 in E. exact E.
Qed.

Lemma strip_last (s : str) :
  match last (strip s) with
  | None => True
  | Some c => is_space c = false
  end.
Proof.
  unfold strip.
  destruct (rstrip_by_spec is_space (lstrip_by is_space s)) as (b & _ & _ & E).
  exact E.
Qed.

Lemma strip_fixed (s : str) :
  match s with
  | [] => True
  | c :: _ => is_space c = false
  end ->
  match last s with
  | None => True
  | Some c => is_space c = false
  end -> strip s = s.
Proof.
  intros H1 H2. unfold strip. rewrite lstrip_by_fixed by exact H1.
  apply rstrip_by_fixed. exact H2.
Qed.

Lemma strip_idempotent (s : str) : strip (strip s) = strip s.
Proof. apply strip_fixed; [apply strip_head | apply strip_last]. Qed.

Lemma join_cons_chr (sep : str) (c : Z) (l : str) (ls : list str) :
  join sep ((c :: l) :: ls) = c :: join sep (l :: ls).
Proof. destruct ls; reflexivity. Qed.

Lemma join_split_lines (s : str) : join nl (split_lines s) = s.
Proof.
  induction s as [| c t IH]; [reflexivity |].
  simpl split_lines. unfold chr_eqb. destruct (Z.eqb_spec c 10) as [-> | Hc].
  - pose proof (split_lines_nonempty t) as Hne.
    destruct (split_lines t) as [| l ls]; [congruence |].
    change (join nl ([] :: l :: ls)) with (nl ++ join nl (l :: ls)).
    rewrite IH. reflexivity.
  - pose proof (split_lines_nonempty t) as Hne.
    destruct (split_lines t) as [| l ls]; [congruence |].
    rewrite join_cons_chr, IH. reflexivity.
Qed.

End Stripping.

Section Ending.

(** X1: the class of a unit does not change when '.', '!', '?', spaces or
    tabs are added at its end, and it is the class of the last two
    characters of the cleaned unit. *)
Theorem classify_ending_trailing :
  (forall sentence tail : str,
     forallb (fun c => mem c ending_punct) tail = true ->
     _classify_ending (sentence ++ tail) = _classify_ending sentence) /\
  (forall (sentence pre : str) (p c : Z),
     rstrip ending_punct sentence = pre ++ [p; c] ->
     _classify_ending sentence = _classify_ending [p; c]).
Proof.
  split.
  - intros sentence tail H. unfold _classify_ending, rstrip.
    rewrite rstrip_by_app by exact H. reflexivity.
  - intros sentence pre p c E.
    rewrite (classify_long sentence pre p c E).
    symmetry. apply (classify_long [p; c] []). simpl.
    unfold rstrip. apply rstrip_by_fixed.
    destruct (rstrip_by_spec (fun x => mem x ending_punct) sentence) as (b & _ & _ & Hl).
    fold (rstrip ending_punct sentence) in Hl. rewrite E, last_snoc2 in Hl.
    exact Hl.
Qed.

Lemma classify_ending_trailing_witness :
  _classify_ending (lit "그는 싸웠다" ++ lit "!? .") = _classify_ending (lit "그는 싸웠다").
Proof.
  destruct classify_ending_trailing as [H _].
  apply (H (lit "그는 싸웠다") (lit "!? .")). vm_compute. reflexivity.
Defined.

End Ending.

Section Body.

Import Spec.

Lemma body_step_cases (in_body : bool) (line : str) :
  body_step in_body line =
    if is_header_start line then (true, Skip)
    else if is_quote_start line && negb in_body then (in_body, Skip)
    else if negb in_body then
      (if is_rule_line line then (true, Skip) else (in_body, Skip))
    else if is_preview_start line then (in_body, Break)
    else if is_marker_line line then (in_body, Skip)
    else if is_rule_line line then (in_body, Skip)
    else (in_body, Append).
Proof. reflexivity. Qed.

Lemma body_step_append (line : str) :
  body_line line -> body_step true line = (true, Append).
Proof.
  intros (H1 & H2 & H3 & H4). rewrite body_step_cases, H1, H2, H3, H4.
  rewrite andb_false_r. reflexivity.
Qed.

Lemma body_step_append_inv (in_body in_body' : bool) (line : str) :
  body_step in_body line = (in_body', Append) ->
  in_body = true /\ in_body' = true /\ body_line line.
Proof.
  rewrite body_step_cases. unfold body_line.
  destruct (is_header_start line); [discriminate |].
  destruct in_body; cbn [negb]; rewrite ?andb_true_r, ?andb_false_r.
  - destruct (is_preview_start line); [discriminate |].
    destruct (is_marker_line line); [discriminate |].
    destruct (is_rule_line line); [discriminate |].
    intros H. injection H as <-. repeat split.
  - destruct (is_quote_start line); [discriminate |].
    destruct (is_rule_line line); discriminate.
Qed.

Lemma body_step_stays (line : str) : (body_step true line).1 = true.
Proof.
  rewrite body_step_cases.
  destruct (is_header_start line); [reflexivity |].
  rewrite andb_false_r. cbn [negb].
  destruct (is_preview_start line); [reflexivity |].
  destruct (is_marker_line line); [reflexivity |].
  destruct (is_rule_line line); reflexivity.
Qed.

Lemma body_step_idle (line : str) :
  is_header_start line = false -> is_rule_line line = false ->
  body_step false line = (false, Skip).
Proof.
  intros H1 H2. rewrite body_step_cases, H1, H2. cbn [negb].
  rewrite andb_true_r. destruct (is_quote_start line); reflexivity.
Qed.

Lemma quote_start_head (line : str) :
  is_quote_start line = true -> exists t, strip line = 62%Z :: t.
Proof.
  unfold is_quote_start. intros H. apply startswith_spec in H.
  destruct H as [r H]. exists r. rewrite H. reflexivity.
Qed.

Lemma quote_not_rule (line : str) :
  is_quote_start line = true -> is_rule_line line = false.
Proof.
  intros H. destruct (quote_start_head line H) as [t E].
  unfold is_rule_line, str_eqb. rewrite E. apply andb_false_intro2. reflexivity.
Qed.

Lemma body_loop_cons (line : str) (rest : list str) (in_body : bool) (acc : list str) :
  body_loop (line :: rest) in_body acc =
    match body_step in_body line with
    | (in_body', Skip) => body_loop rest in_body' acc
    | (in_body', Append) => body_loop rest in_body' (acc ++ [line])
    | (_, Break) => acc
    end.
Proof. reflexivity. Qed.

Lemma body_loop_acc (lines : list str) (in_body : bool) (acc : list str) :
  body_loop lines in_body acc = acc ++ body_loop lines in_body [].
Proof.
  revert in_body acc. induction lines as [| line rest IH]; intros in_body acc.
  - simpl. rewrite app_nil_r. reflexivity.
  - simpl. destruct (body_step in_body line) as [b' [| |]].
    + apply IH.
    + rewrite (IH b' (acc ++ [line])), (IH b' [line]).
      rewrite <- app_assoc. reflexivity.
    + rewrite app_nil_r. reflexivity.
Qed.

Lemma body_loop_kept (lines : list str) (in_body : bool) :
  body_loop lines in_body [] `sublist_of` lines /\
  Forall body_line (body_loop lines in_body []).
Proof.
  revert in_body. induction lines as [| line rest IH]; intros in_body.
  - simpl. split; constructor.
  - simpl. destruct (body_step in_body line) as [b' [| |]] eqn:E.
    + destruct (IH b') as [H1 H2]. split; [apply sublist_cons |]; assumption.
    + destruct (IH b') as [H1 H2]. rewrite body_loop_acc.
      apply body_step_append_inv in E. destruct E as (_ & _ & E).
      split; [apply sublist_skip; exact H1 | constructor; assumption].
    + split; [apply sublist_nil_l | constructor].
Qed.

(** X2: the body is made of lines of the draft, in their order, joined by
    line feeds, and none of them is a header line, a rule, a line that is
    one marker, or a line that begins with a preview label. *)
Theorem extract_body_lines (text : str) :
  exists kept : list str,
    extract_body text = join nl kept /\
    kept `sublist_of` split_lines text /\
    Forall body_line kept.
Proof.
  exists (body_loop (split_lines text) false []).
  split; [reflexivity | apply body_loop_kept].
Qed.

Lemma body_loop_idle (lines acc : list str) :
  Forall (fun l => is_header_start l = false /\ is_rule_line l = false) lines ->
  body_loop lines false acc = acc.
Proof.
  intros H. induction H as [| line rest [H1 H2] _ IH]; [reflexivity |].
  simpl. rewrite (body_step_idle line H1 H2). exact IH.
Qed.

(** X3: a draft without a header line and without a rule has an empty body:
    the body starts at the first of these and at nothing else, so that F1
    measures 0 characters and fails. *)
Theorem extract_body_unstarted (text : str) :
  Forall (fun l => is_header_start l = false /\ is_rule_line l = false)
    (split_lines text) ->
  extract_body text = [] /\
  value (check_f1_char_count text) = 0%Z /\
  result (check_f1_char_count text) = FAIL.
Proof.
  intros H.
  assert (E : extract_body text = []).
  { unfold extract_body. rewrite body_loop_idle by exact H. reflexivity. }
  split; [exact E |].
  unfold check_f1_char_count, f1_char_count. rewrite E. split; reflexivity.
Qed.

Lemma extract_body_unstarted_witness :
  extract_body (lit "첫 줄" ++ nl ++ lit "> 요약" ++ nl ++ lit "** 다음 **") = [].
Proof.
  apply (extract_body_unstarted
           (lit "첫 줄" ++ nl ++ lit "> 요약" ++ nl ++ lit "** 다음 **")).
  vm_compute. repeat constructor.
Defined.

Lemma preview_breaks (line : str) :
  is_preview_start line = true -> body_step true line = (true, Break).
Proof.
  intros H. rewrite body_step_cases, H.
  assert (E : is_header_start line = false).
  { unfold is_preview_start in H. unfold is_header_start.
    destruct (strip line) as [| c t]; [discriminate |].
    apply orb_true_iff in H.
    assert (Hc : c = 42%Z).
    { destruct H as [H | H]; apply startswith_spec in H; destruct H as [r H];
        vm_compute in H; congruence. }
    subst c. reflexivity. }
  rewrite E, andb_false_r. reflexivity.
Qed.

Lemma body_step_starts (line : str) (a : line_action) (b' : bool) :
  is_header_start line = true \/ is_rule_line line = true ->
  body_step false line = (b', a) -> b' = true.
Proof.
  intros H. rewrite body_step_cases.
  destruct (is_header_start line); [intros E; injection E as <- <-; reflexivity |].
  destruct H as [H | H]; [discriminate |].
  cbn [negb]. rewrite andb_true_r.
  destruct (is_quote_start line) eqn:Eq.
  - rewrite (quote_not_rule line Eq) in H. discriminate.
  - rewrite H. intros E. injection E as <- <-. reflexivity.
Qed.

Lemma body_loop_cut (pre : list str) (line : str) (post : list str)
  (in_body : bool) (acc : list str) :
  is_preview_start line = true ->
  in_body = true \/ starts_body pre ->
  body_loop (pre ++ line :: post) in_body acc = body_loop pre in_body acc.
Proof.
  intros Hline. revert in_body acc.
  induction pre as [| l pre IH]; intros in_body acc H.
  - destruct H as [-> | H]; [| inversion H].
    simpl. rewrite (preview_breaks line Hline). reflexivity.
  - cbn [app body_loop].
    destruct (body_step in_body l) as [b' a] eqn:E.
    assert (Hnext : b' = true \/ starts_body pre).
    { destruct in_body.
      - left. pose proof (body_step_stays l) as Hs. rewrite E in Hs. exact Hs.
      - destruct H as [H | H]; [discriminate |].
        apply Exists_cons in H. destruct H as [H | H]; [left | right; exact H].
        exact (body_step_starts l a b' H E). }
    destruct a; [apply IH; exact Hnext | apply IH; exact Hnext | reflexivity].
Qed.

(** X4: once the body has started, by a header line or a rule, a line that
    begins with a preview label ends it: that line and all the text after it
    leave the body unchanged. *)
Theorem extract_body_preview_cut (pre line post : str) :
  no_nl line -> is_preview_start line = true -> starts_body (split_lines pre) ->
  extract_body (pre ++ nl ++ line ++ nl ++ post) = extract_body pre /\
  extract_body (pre ++ nl ++ line) = extract_body pre.
Proof.
  intros Hnl Hline Hpre. unfold extract_body. split.
  - rewrite !split_lines_app_nl, (split_lines_line line Hnl).
    cbn [app]. rewrite body_loop_cut; auto.
  - rewrite split_lines_app_nl, (split_lines_line line Hnl).
    rewrite body_loop_cut; auto.
Qed.

Lemma extract_body_preview_cut_witness :
  extract_body (lit "# EP-01: 제목" ++ nl ++ lit "본문이다." ++ nl
                ++ lit "**다음 화 예고** 곧" ++ nl ++ lit "뒤의 글")
  = extract_body (lit "# EP-01: 제목" ++ nl ++ lit "본문이다.").
Proof.
  apply (extract_body_preview_cut (lit "# EP-01: 제목" ++ nl ++ lit "본문이다.")
           (lit "**다음 화 예고** 곧") (lit "뒤의 글")).
  - apply no_nl_forallb. vm_compute. reflexivity.
  - vm_compute. reflexivity.
  - apply Exists_cons_hd. left. vm_compute. reflexivity.
Defined.

(** X5: a line that begins with '>' is left out only while the body has not
    started.  The header line starts the body, so that a summary line after
    the header is part of the body, and one before it is not. *)
Theorem extract_body_quote_line (header quote : str) :
  no_nl header -> no_nl quote ->
  is_header_start header = true -> is_quote_start quote = true ->
  body_step false quote = (false, Skip) /\
  body_step true quote = (true, Append) /\
  extract_body (header ++ nl ++ quote) = quote /\
  extract_body (quote ++ nl ++ header) = [].
Proof.
  intros Hh Hq Hheader Hquote.
  destruct (quote_start_head quote Hquote) as [t Et].
  assert (Hbody : body_line quote).
  { unfold body_line, is_header_start, is_preview_start, is_marker_line.
    rewrite Et. repeat split; try reflexivity.
    apply quote_not_rule. exact Hquote. }
  assert (E1 : body_step false quote = (false, Skip)).
  { rewrite body_step_cases. destruct Hbody as (-> & _). rewrite Hquote. reflexivity. }
  assert (E2 : body_step true quote = (true, Append)) by (apply body_step_append; exact Hbody).
  assert (E3 : forall b, body_step b header = (true, Skip)).
  { intros b. rewrite body_step_cases, Hheader. reflexivity. }
  repeat split; try assumption; unfold extract_body;
    rewrite split_lines_app_nl, (split_lines_line header Hh), (split_lines_line quote Hq);
    cbn [app]; rewrite !body_loop_cons, ?E1, ?E3, ?body_loop_cons, ?E2, ?E3; reflexivity.
Qed.

Lemma extract_body_quote_line_witness :
  extract_body (lit "# EP-01: 제목" ++ nl ++ lit "> 한줄요약") = lit "> 한줄요약".
Proof.
  destruct (extract_body_quote_line (lit "# EP-01: 제목") (lit "> 한줄요약"))
    as (_ & _ & H & _).
  - apply no_nl_forallb. vm_compute. reflexivity.
  - apply no_nl_forallb. vm_compute. reflexivity.
  - vm_compute. reflexivity.
  - vm_compute. reflexivity.
  - exact H.
Defined.

Lemma body_loop_prose (lines acc : list str) :
  Forall body_line lines -> body_loop lines true acc = acc ++ lines.
Proof.
  intros H. revert acc. induction H as [| line rest Hl _ IH]; intros acc.
  - simpl. rewrite app_nil_r. reflexivity.
  - simpl. rewrite (body_step_append line Hl), IH, <- app_assoc. reflexivity.
Qed.

(** X6: when the first line of a draft is a header line and every other
    line is prose, the body is the text after that line, unchanged. *)
Theorem extract_body_prose (header rest : str) :
  no_nl header -> is_header_start header = true ->
  Forall body_line (split_lines rest) ->
  extract_body (header ++ nl ++ rest) = rest.
Proof.
  intros Hh Hheader Hrest. unfold extract_body.
  rewrite split_lines_app_nl, (split_lines_line header Hh).
  cbn [app body_loop]. rewrite body_step_cases, Hheader.
  rewrite body_loop_prose by exact Hrest. apply join_split_lines.
Qed.

Lemma extract_body_prose_witness :
  extract_body (lit "# EP-01: 제목" ++ nl ++ lit "첫 문장이다." ++ nl ++ nl
                ++ lit "  둘째 [IMG:a] 문장.")
  = lit "첫 문장이다." ++ nl ++ nl ++ lit "  둘째 [IMG:a] 문장.".
Proof.
  apply (extract_body_prose (lit "# EP-01: 제목")
           (lit "첫 문장이다." ++ nl ++ nl ++ lit "  둘째 [IMG:a] 문장.")).
  - apply no_nl_forallb. vm_compute. reflexivity.
  - vm_compute. reflexivity.
  - vm_compute. repeat constructor.
Defined.

End Body.

(** ** Matches at the start of a line *)

Section LineMatches.

Import Spec.

Variable m : str -> option str.

Hypothesis m_nil : m [] = None.

Hypothesis m_prefix :
  forall s r, m s = Some r -> exists a, a <> [] /\ s = a ++ r.

Hypothesis m_line :
  forall l rest, no_nl l ->
    m (l ++ nl ++ rest) = option_map (fun r => r ++ nl ++ rest) (m l).

Lemma no_nl_head (c : Z) (l : str) : no_nl (c :: l) -> chr_eqb c 10 = false /\ no_nl l.
Proof.
  intros H. split.
  - unfold chr_eqb. apply Z.eqb_neq. intros ->. apply H. apply elem_of_cons. left. reflexivity.
  - intros Hin. apply H. apply elem_of_cons. right. exact Hin.
Qed.

Lemma findall_bol_line_end (l : str) (b : bool) (skip : nat) :
  no_nl l -> skip <= length l -> (skip = 0 -> b = false) ->
  Re.findall_bol_from m b skip l = [].
Proof.
  revert b skip. induction l as [| c t IH]; intros b skip Hl Hs Hb.
  - simpl in Hs. assert (skip = 0) by lia. subst skip. rewrite (Hb eq_refl). reflexivity.
  - apply no_nl_head in Hl. destruct Hl as [Hc Ht].
    cbn [Re.findall_bol_from]. rewrite Hc. destruct skip as [| n].
    + rewrite (Hb eq_refl). apply IH; [exact Ht | lia | reflexivity].
    + apply IH; [exact Ht | simpl in Hs; lia | reflexivity].
Qed.

Lemma findall_bol_line_rest (l rest : str) (b : bool) (skip : nat) :
  no_nl l -> skip <= length l -> (skip = 0 -> b = false) ->
  Re.findall_bol_from m b skip (l ++ nl ++ rest) = Re.findall_bol_from m true 0 rest.
Proof.
  revert b skip. induction l as [| c t IH]; intros b skip Hl Hs Hb.
  - simpl in Hs. assert (skip = 0) by lia. subst skip. rewrite (Hb eq_refl). reflexivity.
  - apply no_nl_head in Hl. destruct Hl as [Hc Ht].
    cbn [app Re.findall_bol_from]. rewrite Hc. destruct skip as [| n].
    + rewrite (Hb eq_refl). apply IH; [exact Ht | lia | reflexivity].
    + apply IH; [exact Ht | simpl in Hs; lia | reflexivity].
Qed.

Lemma matched_prefix_some (a r : str) :
  m (a ++ r) = Some r -> matched_prefix m (a ++ r) = Some a.
Proof.
  intros E. unfold matched_prefix. rewrite E. f_equal.
  replace (length (a ++ r) - length r) with (length a) by (rewrite length_app; lia).
  apply take_app_length.
Qed.

Lemma matched_prefix_none (l : str) : m l = None -> matched_prefix m l = None.
Proof. intros E. unfold matched_prefix. rewrite E. reflexivity. Qed.

Lemma omap_cons_some {A B} (f : A -> option B) (x : A) (y : B) (l : list A) :
  f x = Some y -> omap f (x :: l) = y :: omap f l.
Proof. intros E. simpl. rewrite E. reflexivity. Qed.

Lemma omap_cons_none {A B} (f : A -> option B) (x : A) (l : list A) :
  f x = None -> omap f (x :: l) = omap f l.
Proof. intros E. simpl. rewrite E. reflexivity. Qed.

Lemma findall_bol_hit (a r : str) (c : Z) (t : str) :
  c :: t = a ++ r -> m (c :: t) = Some r -> a <> [] ->
  exists a', a = c :: a' /\ t = a' ++ r /\
    Re.findall_bol_from m true 0 (c :: t) =
      a :: Re.findall_bol_from m (chr_eqb c 10) (length a') t.
Proof.
  intros Es E Ha. destruct a as [| c' a']; [congruence |].
  cbn [app] in Es. injection Es as -> ->.
  exists a'. split; [reflexivity |]. split; [reflexivity |].
  cbn [Re.findall_bol_from]. rewrite E. cbv zeta.
  replace (length (c' :: a' ++ r) - length r) with (S (length a'))
    by (simpl; rewrite length_app; lia).
  replace (S (length a') - 1) with (length a') by lia.
  rewrite firstn_cons, take_app_length. reflexivity.
Qed.

Lemma findall_bol_lines (lines : list str) :
  lines <> [] -> Forall no_nl lines ->
  Re.findall_bol_from m true 0 (join nl lines) = omap (matched_prefix m) lines.
Proof.
  induction lines as [| l lines IH]; intros Hne Hall; [congruence |].
  inversion Hall as [| ? ? Hl Hrest]; subst.
  destruct lines as [| l2 lines].
  - cbn [join]. destruct l as [| c t].
    + rewrite omap_cons_none by (apply matched_prefix_none; exact m_nil).
      simpl. rewrite m_nil. reflexivity.
    + pose proof (no_nl_head c t Hl) as [Hc Ht].
      destruct (m (c :: t)) as [r |] eqn:E.
      * destruct (m_prefix _ _ E) as (a & Ha & Es).
        destruct (findall_bol_hit a r c t Es E Ha) as (a' & -> & -> & ->).
        change (c :: a' ++ r) with ((c :: a') ++ r) in E |- *.
        rewrite (omap_cons_some _ _ _ _ (matched_prefix_some _ _ E)).
        rewrite findall_bol_line_end; [reflexivity | exact Ht | | intros _; exact Hc].
        rewrite length_app. lia.
      * rewrite (omap_cons_none _ _ _ (matched_prefix_none _ E)).
        cbn [Re.findall_bol_from]. rewrite E.
        apply findall_bol_line_end; [exact Ht | lia | intros _; exact Hc].
  - change (join nl (l :: l2 :: lines)) with (l ++ nl ++ join nl (l2 :: lines)).
    set (R := join nl (l2 :: lines)) in *.
    specialize (IH ltac:(discriminate) Hrest).
    pose proof (m_line l R Hl) as Eline.
    destruct l as [| c t].
    + rewrite omap_cons_none by (apply matched_prefix_none; exact m_nil).
      rewrite m_nil in Eline. cbn [app option_map] in *.
      change (nl ++ R) with (10%Z :: R) in *.
      cbn [Re.findall_bol_from]. rewrite Eline.
      change (chr_eqb 10 10) with true. exact IH.
    + pose proof (no_nl_head c t Hl) as [Hc Ht].
      destruct (m (c :: t)) as [r |] eqn:E; cbn [option_map] in Eline.
      * destruct (m_prefix _ _ E) as (a & Ha & Es).
        destruct a as [| c' a']; [congruence |].
        cbn [app] in Es. injection Es as <- ->.
        change (c :: a' ++ r) with ((c :: a') ++ r) in E.
        rewrite (omap_cons_some _ _ _ _ (matched_prefix_some _ _ E)).
        assert (Es : c :: (a' ++ r) ++ nl ++ R = (c :: a') ++ (r ++ nl ++ R)).
        { cbn [app]. rewrite <- app_assoc. reflexivity. }
        cbn [app] in Eline |- *.
        destruct (findall_bol_hit (c :: a') (r ++ nl ++ R) c ((a' ++ r) ++ nl ++ R)
                    Es Eline ltac:(discriminate)) as (a'' & Ea & _ & ->).
        injection Ea as <-.
        rewrite findall_bol_line_rest;
          [| exact Ht | rewrite length_app; lia | intros _; exact Hc].
        rewrite IH. reflexivity.
      * rewrite (omap_cons_none _ _ _ (matched_prefix_none _ E)).
        cbn [app] in Eline |- *. cbn [Re.findall_bol_from]. rewrite Eline.
        rewrite findall_bol_line_rest; [exact IH | exact Ht | lia | intros _; exact Hc].
Qed.

Lemma findall_bol_text (text : str) :
  Re.findall_bol m text = omap (matched_prefix m) (split_lines text).
Proof.
  unfold Re.findall_bol. rewrite <- (join_split_lines text) at 1.
  apply findall_bol_lines; [apply split_lines_nonempty | apply split_lines_no_nl].
Qed.

End LineMatches.

(** ** The header count of F4 *)

Section HeaderCount.

Import Spec.
Variable nd : Z -> option Z.

Lemma decimal_no_nl (d : str) : forallb (is_decimal nd) d = true -> no_nl d.
Proof.
  induction d as [| c d IH]; simpl; intros H; [apply no_nl_nil |].
  apply andb_true_iff in H. destruct H as [Hc Hd].
  apply no_nl_cons; [| auto]. intros ->. discriminate.
Qed.

Lemma header_pattern_inv (s r : str) :
  header_pattern nd s = Some r ->
  exists d, d <> [] /\ forallb (is_decimal nd) d = true /\
    s = lit "# EP-" ++ d ++ lit ":" ++ r.
Proof.
  unfold header_pattern. intros H.
  apply literal_inv in H. destruct H as (s1 & -> & H).
  unfold Re.greedy_plus in H. destruct s1 as [| c t]; [discriminate |].
  destruct (is_decimal nd c) eqn:Ec; [| discriminate].
  apply greedy_star_inv in H. destruct H as (x & s2 & -> & Hx & H).
  apply literal_inv in H. destruct H as (rest & -> & H). injection H as ->.
  exists (c :: x). split; [discriminate |]. split.
  - simpl. rewrite Ec, Hx. reflexivity.
  - cbn [app]. reflexivity.
Qed.

Lemma header_pattern_match (d r : str) :
  d <> [] -> forallb (is_decimal nd) d = true ->
  header_pattern nd (lit "# EP-" ++ d ++ lit ":" ++ r) = Some r.
Proof.
  intros Hne Hd. unfold header_pattern. rewrite literal_app.
  destruct d as [| c d]; [congruence |].
  simpl in Hd. apply andb_true_iff in Hd. destruct Hd as [Hc Hd].
  unfold Re.greedy_plus. cbn [app]. rewrite Hc.
  apply greedy_star_run; [exact Hd | reflexivity |].
  apply (literal_app (lit ":")).
Qed.

Lemma app_before_nl (a x l y : str) :
  a ++ x = l ++ nl ++ y -> no_nl a -> exists l', l = a ++ l'.
Proof.
  revert l. induction a as [| c a IH]; intros l E Ha.
  - exists l. reflexivity.
  - apply no_nl_head in Ha. destruct Ha as [Hc Ha].
    destruct l as [| c' l].
    + cbn [app] in E. injection E as -> _. discriminate.
    + cbn [app] in E. injection E as -> E.
      destruct (IH l E Ha) as [l' ->]. exists l'. reflexivity.
Qed.

Lemma header_text_no_nl (d : str) :
  forallb (is_decimal nd) d = true -> no_nl (lit "# EP-" ++ d ++ lit ":").
Proof.
  intros Hd. apply no_nl_forallb. rewrite !forallb_app.
  rewrite andb_true_iff. split; [vm_compute; reflexivity |].
  rewrite andb_true_iff. split; [| vm_compute; reflexivity].
  clear -Hd. induction d as [| c d IH]; [reflexivity |].
  simpl in *. apply andb_true_iff in Hd. destruct Hd as [Hc Hd].
  rewrite IH by exact Hd. rewrite andb_true_r.
  unfold chr_eqb. destruct (Z.eqb_spec c 10) as [-> | _]; [discriminate | reflexivity].
Qed.

Lemma header_pattern_line (l rest : str) :
  no_nl l ->
  header_pattern nd (l ++ nl ++ rest) =
    option_map (fun r => r ++ nl ++ rest) (header_pattern nd l).
Proof.
  intros Hl. destruct (header_pattern nd l) as [r |] eqn:E; cbn [option_map].
  - apply header_pattern_inv in E. destruct E as (d & Hne & Hd & ->).
    rewrite <- !app_assoc. apply header_pattern_match; assumption.
  - destruct (header_pattern nd (l ++ nl ++ rest)) as [r' |] eqn:E'; [| reflexivity].
    exfalso. apply header_pattern_inv in E'. destruct E' as (d & Hne & Hd & E').
    symmetry in E'. rewrite !app_assoc in E'. rewrite <- (app_assoc l) in E'.
    destruct (app_before_nl _ _ _ _ E') as [l' ->].
    { rewrite <- app_assoc. apply header_text_no_nl. exact Hd. }
    rewrite <- !app_assoc in E. rewrite header_pattern_match in E by assumption.
    discriminate.
Qed.

Lemma header_pattern_prefix (s r : str) :
  header_pattern nd s = Some r -> exists a, a <> [] /\ s = a ++ r.
Proof.
  intros H. apply header_pattern_inv in H. destruct H as (d & _ & _ & ->).
  exists (lit "# EP-" ++ d ++ lit ":"). split.
  - intros E. apply (f_equal (@length Z)) in E. rewrite length_app in E.
    vm_compute in E. discriminate.
  - rewrite <- !app_assoc. reflexivity.
Qed.

(** X7: the matches that F4 counts are, line by line, the beginnings of the
    lines of the form # EP-, one decimal digit or more, and a colon, with
    nothing before the # on the line; F4 passes exactly when there is one
    such line. *)
Theorem header_matches_lines :
  (forall text : str,
     header_matches nd text =
       omap (matched_prefix (header_pattern nd)) (split_lines text)) /\
  (forall line found : str,
     matched_prefix (header_pattern nd) line = Some found <->
     exists digits rest,
       digits <> [] /\ forallb (is_decimal nd) digits = true /\
       line = lit "# EP-" ++ digits ++ lit ":" ++ rest /\
       found = lit "# EP-" ++ digits ++ lit ":") /\
  (forall text : str,
     result (check_f4_markdown_structure nd text) = PASS <->
     length (omap (matched_prefix (header_pattern nd)) (split_lines text)) = 1).
Proof.
  assert (Hlines : forall text : str,
            header_matches nd text =
              omap (matched_prefix (header_pattern nd)) (split_lines text)).
  { intros text. unfold header_matches. apply findall_bol_text.
    - reflexivity.
    - apply header_pattern_prefix.
    - apply header_pattern_line. }
  split; [exact Hlines |]. split.
  - intros line found. split.
    + unfold matched_prefix. destruct (header_pattern nd line) as [r |] eqn:E; [| discriminate].
      intros H. injection H as <-.
      apply header_pattern_inv in E. destruct E as (d & Hne & Hd & ->).
      exists d, r. repeat split; try assumption.
      rewrite !app_assoc, length_app, Nat.add_sub. apply take_app_length.
    + intros (d & r & Hne & Hd & -> & ->).
      pose proof (header_pattern_match d r Hne Hd) as E.
      rewrite !app_assoc in E |- *. rewrite <- (app_assoc _ d) in E |- *.
      apply (matched_prefix_some _ _ _ E).
  - intros text. unfold check_f4_markdown_structure. cbn [result].
    rewrite verdict_of_PASS, Z.eqb_eq, <- Hlines. lia.
Qed.

End HeaderCount.

(** ** The preview label of F5 *)

Section Preview.

Import Spec.

Lemma search_inv {A} (m : @Re.cont A) (s : str) (r : A) :
  Re.search m s = Some r -> exists pre s', s = pre ++ s' /\ m s' = Some r.
Proof.
  induction s as [| c t IH]; simpl.
  - destruct (m []) eqn:E; [| discriminate].
    intros H. exists [], []. simpl in H. split; [reflexivity | congruence].
  - destruct (m (c :: t)) eqn:E; simpl.
    + intros H. exists [], (c :: t). split; [reflexivity | congruence].
    + intros H. destruct (IH H) as (pre & s' & -> & Hm).
      exists (c :: pre), s'. split; [reflexivity | exact Hm].
Qed.

Lemma search_found {A} (m : @Re.cont A) (pre s : str) (r : A) :
  m s = Some r -> Re.search m (pre ++ s) <> None.
Proof.
  intros H. induction pre as [| c pre IH].
  - cbn [app]. rewrite (search_here m s r H). discriminate.
  - cbn [app Re.search]. destruct (m (c :: pre ++ s)); [discriminate | exact IH].
Qed.

Lemma preview_pattern_match (ws1 ws2 post : str) :
  forallb is_space ws1 = true -> forallb is_space ws2 = true ->
  preview_pattern (lit "**다음" ++ ws1 ++ lit "화" ++ ws2 ++ lit "예고**" ++ post) = Some tt.
Proof.
  intros H1 H2. unfold preview_pattern. rewrite literal_app.
  apply greedy_star_run; [exact H1 | reflexivity |].
  rewrite literal_app.
  apply greedy_star_run; [exact H2 | reflexivity |].
  rewrite literal_app. reflexivity.
Qed.

Lemma preview_pattern_inv (s : str) (u : unit) :
  preview_pattern s = Some u ->
  exists ws1 ws2 post,
    s = lit "**다음" ++ ws1 ++ lit "화" ++ ws2 ++ lit "예고**" ++ post /\
    forallb is_space ws1 = true /\ forallb is_space ws2 = true.
Proof.
  unfold preview_pattern. intros H.
  apply literal_inv in H. destruct H as (s1 & -> & H).
  apply greedy_star_inv in H. destruct H as (ws1 & s2 & -> & H1 & H).
  apply literal_inv in H. destruct H as (s3 & -> & H).
  apply greedy_star_inv in H. destruct H as (ws2 & s4 & -> & H2 & H).
  apply literal_inv in H. destruct H as (post & -> & _).
  exists ws1, ws2, post. auto.
Qed.

Lemma has_preview_iff (text : str) :
  has_preview text = true <->
  exists pre ws1 ws2 post,
    text = pre ++ lit "**다음" ++ ws1 ++ lit "화" ++ ws2 ++ lit "예고**" ++ post /\
    forallb is_space ws1 = true /\ forallb is_space ws2 = true.
Proof.
  unfold has_preview. split.
  - destruct (Re.search preview_pattern text) as [u |] eqn:E; [intros _ | discriminate].
    apply search_inv in E. destruct E as (pre & s' & -> & E).
    apply preview_pattern_inv in E. destruct E as (ws1 & ws2 & post & -> & H1 & H2).
    exists pre, ws1, ws2, post. auto.
  - intros (pre & ws1 & ws2 & post & -> & H1 & H2).
    pose proof (search_found preview_pattern pre _ tt
                  (preview_pattern_match ws1 ws2 post H1 H2)) as H.
    destruct (Re.search preview_pattern _); [reflexivity | congruence].
Qed.

Lemma join_inside (sep x : str) (l1 l2 : list str) :
  exists a b, join sep (l1 ++ x :: l2) = a ++ x ++ b.
Proof.
  induction l1 as [| l l1 IH].
  - exists []. destruct l2 as [| y l2].
    + exists []. simpl. rewrite app_nil_r. reflexivity.
    + exists (sep ++ join sep (y :: l2)). reflexivity.
  - destruct IH as (a & b & E).
    exists (l ++ sep ++ a), b.
    change (join sep ((l :: l1) ++ x :: l2)) with (join sep (l :: (l1 ++ x :: l2))).
    destruct (l1 ++ x :: l2) as [| y ys] eqn:El.
    + destruct l1; discriminate.
    + change (join sep (l :: y :: ys)) with (l ++ sep ++ join sep (y :: ys)).
      rewrite E, <- !app_assoc. reflexivity.
Qed.

Lemma line_inside (text line : str) :
  line ∈ split_lines text -> exists a b, text = a ++ line ++ b.
Proof.
  intros H. apply list_elem_of_split in H. destruct H as (l1 & l2 & E).
  destruct (join_inside nl line l1 l2) as (a & b & Ej).
  exists a, b. rewrite <- Ej, <- E. symmetry. apply join_split_lines.
Qed.

(** X8: F5 passes exactly when the text holds **다음, 화 and 예고** in a row,
    with any white space, or none, after 다음 and after 화.  Any line at which
    the body can end, one that begins with either preview label, makes F5
    pass. *)
Theorem check_f5_next_preview_spec :
  (forall text : str,
     result (check_f5_next_preview text) = PASS <->
     exists pre ws1 ws2 post,
       text = pre ++ lit "**다음" ++ ws1 ++ lit "화" ++ ws2 ++ lit "예고**" ++ post /\
       forallb is_space ws1 = true /\ forallb is_space ws2 = true) /\
  (forall text line : str,
     line ∈ split_lines text -> is_preview_start line = true ->
     result (check_f5_next_preview text) = PASS).
Proof.
  assert (H5 : forall text, result (check_f5_next_preview text) = PASS <->
                            has_preview text = true).
  { intros text. unfold check_f5_next_preview. cbn [result]. apply verdict_of_PASS. }
  split.
  - intros text. rewrite H5. apply has_preview_iff.
  - intros text line Hin Hline. rewrite H5. apply has_preview_iff.
    destruct (line_inside text line Hin) as (a & b & ->).
    destruct (strip_inside line) as (a' & b' & E & _ & _).
    unfold is_preview_start in Hline. apply orb_true_iff in Hline.
    destruct Hline as [H | H]; apply startswith_spec in H; destruct H as [r Hr];
      rewrite E, Hr.
    + exists (a ++ a'), (lit " "), (lit " "), (r ++ b' ++ b).
      split; [| split; reflexivity].
      change preview_label with (lit "**다음" ++ lit " " ++ lit "화" ++ lit " " ++ lit "예고**").
      rewrite <- !app_assoc. reflexivity.
    + exists (a ++ a'), [], (lit " "), (r ++ b' ++ b).
      split; [| split; reflexivity].
      change preview_label_nospace with (lit "**다음" ++ lit "화" ++ lit " " ++ lit "예고**").
      rewrite <- !app_assoc. reflexivity.
Qed.

Lemma check_f5_next_preview_spec_witness :
  result (check_f5_next_preview (lit "본문" ++ nl ++ lit "  **다음화 예고** 곧")) = PASS.
Proof.
  destruct check_f5_next_preview_spec as [_ H].
  apply (H (lit "본문" ++ nl ++ lit "  **다음화 예고** 곧") (lit "  **다음화 예고** 곧")).
  - apply list_elem_of_In. right. left. vm_compute. reflexivity.
  - vm_compute. reflexivity.
Defined.

End Preview.

(** ** Sentences and the verdict of F6 *)

Section Sentences.

Import Spec.

Lemma sentence_end_no_space (c : Z) : is_sentence_end c = true -> is_space c = false.
Proof.
  unfold is_sentence_end, mem. change (lit ".!?") with [46; 33; 63]%Z.
  unfold chr_eqb. cbn [existsb]. rewrite !orb_true_iff, !Z.eqb_eq.
  intros [-> | [-> | [-> | H]]]; [reflexivity .. | discriminate].
Qed.

Lemma sentence_gap_inv (prev : option Z) (s r : str) :
  sentence_gap prev s = Some r ->
  exists p g, prev = Some p /\ is_sentence_end p = true /\
    g <> [] /\ forallb is_space g = true /\ s = g ++ r.
Proof.
  unfold sentence_gap. destruct prev as [p |]; [| discriminate].
  destruct (is_sentence_end p) eqn:Ep; [| discriminate].
  unfold Re.greedy_plus. destruct s as [| c t]; [discriminate |].
  destruct (is_space c) eqn:Ec; [| discriminate].
  intros H. apply greedy_star_inv in H. destruct H as (x & rest & -> & Hx & H).
  injection H as ->.
  exists p, (c :: x).
  split; [reflexivity |]. split; [exact Ep |]. split; [discriminate |].
  split; [| reflexivity]. simpl. rewrite Ec, Hx. reflexivity.
Qed.

Lemma split_skip (m : option Z -> str -> option str) (g r cur : str) (c : Z) :
  forallb is_space (c :: g) = true ->
  exists w, is_space w = true /\
    Re.split_from m (Some c) (length g) cur (g ++ r) = Re.split_from m (Some w) 0 cur r.
Proof.
  revert c. induction g as [| c' g IH]; intros c H.
  - exists c. simpl in H. rewrite andb_true_r in H. split; [exact H | reflexivity].
  - simpl in H. apply andb_true_iff in H. destruct H as [_ H].
    destruct (IH c' H) as (w & Hw & E). exists w. split; [exact Hw | exact E].
Qed.

Lemma split_from_pieces (n : nat) :
  forall (s : str), length s <= n ->
  forall (prev : option Z) (cur : str), split_inv prev cur ->
  exists first rest,
    Re.split_from sentence_gap prev 0 cur s = (cur ++ first) :: map snd rest /\
    s = weave first rest /\ Forall gap_ok rest /\
    closed_before_gaps (cur ++ first) rest.
Proof.
  induction n as [| n IH]; intros s Hn prev cur Hinv.
  - destruct s as [| c t]; [| simpl in Hn; lia].
    exists [], []. rewrite app_nil_r. repeat split. constructor.
  - destruct s as [| c t].
    { exists [], []. rewrite app_nil_r. repeat split. constructor. }
    cbn [Re.split_from].
    destruct (sentence_gap prev (c :: t)) as [r |] eqn:E.
    + destruct (sentence_gap_inv _ _ _ E) as (p & g & -> & Hp & Hg & Hsp & Es).
      destruct g as [| c' g']; [congruence |].
      cbn [app] in Es. injection Es as <- ->.
      replace (length (c :: g' ++ r) - length r - 1) with (length g')
        by (simpl; rewrite length_app; lia).
      destruct (split_skip sentence_gap g' r [] c Hsp) as (w & Hw & ->).
      destruct (IH r) with (prev := Some w) (cur := @nil Z) as (first & rest & E1 & E2 & E3 & E4).
      { simpl in Hn. rewrite length_app in Hn. lia. }
      { intros x Hx. injection Hx as <-.
        destruct (is_sentence_end w) eqn:Ew; [| reflexivity].
        apply sentence_end_no_space in Ew. congruence. }
      exists [], ((c :: g', first) :: rest).
      rewrite E1, app_nil_r. cbn [map snd app].
      split; [reflexivity |]. split.
      * unfold weave in *. cbn [map concat fst snd app]. rewrite E2 at 1.
        rewrite <- !app_assoc. reflexivity.
      * split; [constructor; [split; [discriminate | exact Hsp] | exact E3] |].
        cbn [closed_before_gaps snd]. split; [| exact E4].
        destruct cur as [| c0 cur']; [rewrite (Hinv p eq_refl) in Hp; discriminate |].
        exists p. split; [exact Hinv | exact Hp].
    + destruct (IH t) with (prev := Some c) (cur := cur ++ [c])
        as (first & rest & E1 & E2 & E3 & E4).
      { simpl in Hn. lia. }
      { unfold split_inv. destruct (cur ++ [c]) as [| x xs] eqn:Ex.
        - destruct cur; discriminate.
        - rewrite <- Ex. apply last_snoc. }
      exists (c :: first), rest.
      rewrite E1. rewrite <- app_assoc in E1, E4 |- *. cbn [app] in *.
      split; [reflexivity |]. split; [| split; assumption].
      unfold weave in *. cbn [app]. rewrite E2 at 1. reflexivity.
Qed.

(** X9: the split of a line into sentence units loses nothing but white
    space: the line is the first unit followed by gaps, each a run of white
    space that is not empty, and the unit after it; every unit that a gap
    follows ends in '.', '!' or '?'. *)
Theorem split_sentences_pieces (line : str) :
  exists first rest,
    Re.split sentence_gap line = first :: map snd rest /\
    line = weave first rest /\ Forall gap_ok rest /\
    closed_before_gaps first rest.
Proof.
  destruct (split_from_pieces (length line) line (Nat.le_refl _) None [])
    as (first & rest & H).
  - intros c Hc. discriminate.
  - exists first, rest. exact H.
Qed.

(** *** No [IndexError] in F6 *)

Lemma stripped_parts_fixed (parts : list str) :
  Forall (fun q => q <> [] /\ strip q = q) (stripped_parts parts).
Proof.
  apply Forall_forall. intros q Hq. unfold stripped_parts in Hq.
  apply list_elem_of_omap in Hq. destruct Hq as (p & _ & Hq).
  destruct (strip p) as [| c t] eqn:E; [discriminate |].
  injection Hq as <-. split; [discriminate |].
  rewrite <- E. apply strip_idempotent.
Qed.

Lemma body_sentences_fixed (raw_lines : list str) :
  Forall (fun q => q <> [] /\ strip q = q) (body_sentences raw_lines).
Proof.
  induction raw_lines as [| line rest IH]; [constructor |].
  cbn [body_sentences]. apply Forall_app. split; [| exact IH].
  unfold line_sentences. destruct (strip line); [constructor | apply stripped_parts_fixed].
Qed.

Lemma classify_sentences_total (sentences : list str) :
  Forall (fun q => q <> [] /\ strip q = q) sentences ->
  exists texts cats, classify_sentences sentences = Some (texts, cats).
Proof.
  intros H. induction H as [| s rest [Hne Hs] _ IH].
  - exists [], []. reflexivity.
  - destruct IH as (texts & cats & IH). cbn [classify_sentences].
    destruct (bool_decide (length s < 10)); [eauto |].
    rewrite Hs. destruct s as [| c0 t]; [congruence |].
    destruct (is_dialogue_open c0); [eauto |].
    destruct (startswith [39%Z] (c0 :: t) && endswith [39%Z] (c0 :: t)); [eauto |].
    rewrite IH. eauto.
Qed.

(** *** Runs of three *)

Lemma past_dec (cats : list Category) (i : nat) :
  cats !! i = Some PAST \/ cats !! i <> Some PAST.
Proof. destruct (cats !! i) as [[| |] |]; auto; right; discriminate. Qed.

Lemma run_extend_left (cats : list Category) (i : nat) :
  cats !! i = Some PAST ->
  exists s, s <= i /\ run_of_past cats s (i + 1 - s) /\
    (forall s', s = S s' -> cats !! s' <> Some PAST).
Proof.
  induction i as [| j IH]; intros H.
  - exists 0. split; [lia |]. split; [| intros s' Hs; lia].
    intros k Hk. replace k with 0 by lia. exact H.
  - destruct (past_dec cats j) as [Hj | Hj].
    + destruct (IH Hj) as (s & Hs & Hrun & Hleft).
      exists s. split; [lia |]. split; [| exact Hleft].
      intros k Hk. destruct (decide (k = S j)) as [-> | Hne]; [exact H |].
      apply Hrun. lia.
    + exists (S j). split; [lia |]. split.
      * intros k Hk. replace k with (S j) by lia. exact H.
      * intros s' Hs. injection Hs as <-. exact Hj.
Qed.

Lemma run_extend_right (cats : list Category) (n s e : nat) :
  length cats - e <= n -> s <= e -> run_of_past cats s (e - s) ->
  exists e', e <= e' /\ run_of_past cats s (e' - s) /\ cats !! e' <> Some PAST.
Proof.
  revert e. induction n as [| n IH]; intros e Hn Hse Hrun.
  - exists e. split; [lia |]. split; [exact Hrun |].
    rewrite lookup_ge_None_2 by lia. discriminate.
  - destruct (past_dec cats e) as [He | He].
    + pose proof (lookup_lt_Some _ _ _ He) as Hlt.
      destruct (IH (S e)) as (e' & He' & Hrun' & Hend); [lia | lia | |].
      * intros k Hk. destruct (decide (k = e)) as [-> | Hne]; [exact He |].
        apply Hrun. lia.
      * exists e'. split; [lia |]. split; assumption.
    + exists e. split; [lia |]. split; assumption.
Qed.

Lemma three_past_run (cats : list Category) (i : nat) :
  three_past cats i -> exists s l, 3 <= l /\ maximal_past_run cats s l.
Proof.
  intros (H0 & H1 & H2).
  destruct (run_extend_left cats i H0) as (s & Hs & Hrun & Hleft).
  destruct (run_extend_right cats (length cats) s (i + 3)) as (e & He & Hrun' & Hend).
  - lia.
  - lia.
  - intros k Hk.
    destruct (decide (k = i + 1)) as [-> | Hn1]; [exact H1 |].
    destruct (decide (k = i + 2)) as [-> | Hn2]; [exact H2 |].
    apply Hrun. lia.
  - exists s, (e - s). split; [lia |]. repeat split.
    + lia.
    + exact Hrun'.
    + exact Hleft.
    + replace (s + (e - s)) with e by lia. exact Hend.
Qed.

Lemma check_f6_returns (text : str) :
  exists (r : CheckResult) (texts : list str) (cats : list Category),
    check_f6_sentence_endings text = Some r /\
    classify_sentences (body_sentences (split_lines (extract_body text)))
      = Some (texts, cats) /\
    cats = map _classify_ending texts /\
    (result r = PASS <-> ~ exists i, three_past cats i) /\
    (result r = PASS <-> value r = 0%Z) /\
    id r = lit "F6".
Proof.
  destruct (classify_sentences_total _ (body_sentences_fixed (split_lines (extract_body text))))
    as (texts & cats & Ec).
  destruct (classify_sentences_aligned _ _ _ Ec) as [Emap Hlen].
  destruct (find_violation_groups_runs cats texts Hlen)
    as (groups & Eg & Hsound & Hcompl & _).
  unfold check_f6_sentence_endings. cbv zeta. rewrite Ec, Eg.
  eexists. exists texts, cats.
  split; [reflexivity |]. split; [reflexivity |]. split; [exact Emap |].
  cbn [result value id]. rewrite verdict_of_PASS, Z.eqb_eq.
  split; [| split; reflexivity].
  split.
  - intros H0 (i & Hi).
    destruct (three_past_run cats i Hi) as (s & l & Hl & Hmax).
    destruct (Hcompl s l Hl Hmax) as (g & Hg & _).
    destruct groups; [apply elem_of_nil in Hg; exact Hg | simpl in H0; lia].
  - intros Hno. destruct groups as [| g groups]; [reflexivity |].
    exfalso. apply Hno.
    destruct (Hsound g) as (s & l & _ & Hl & (_ & Hrun & _)).
    { apply elem_of_cons. left. reflexivity. }
    exists s. repeat split; apply Hrun; lia.
Qed.

(** X10: F6 returns a result for every draft, neither of its loops reading
    outside a list or a string; it passes exactly when no three sentences in
    a row, among those kept and classified, are PAST, and exactly when the
    value it reports is 0. *)
Theorem check_f6_sentence_endings_spec (text : str) :
  exists (r : CheckResult) (texts : list str) (cats : list Category),
    check_f6_sentence_endings text = Some r /\
    classify_sentences (body_sentences (split_lines (extract_body text)))
      = Some (texts, cats) /\
    cats = map _classify_ending texts /\
    (result r = PASS <-> ~ exists i, three_past cats i) /\
    (result r = PASS <-> value r = 0%Z).
Proof.
  destruct (check_f6_returns text) as (r & texts & cats & H1 & H2 & H3 & H4 & H5 & _).
  exists r, texts, cats. auto.
Qed.

End Sentences.

(** ** The report of [validate] *)

Section Report.

Variable nd : Z -> option Z.








End Report.


(** ** Further properties of the context assembler *)

Section Selection.

Import Spec.

Lemma contains_spec (needle s : str) :
  contains needle s = true <-> exists a b, s = a ++ needle ++ b.
Proof.
  induction s as [| c t IH]; simpl.
  - rewrite orb_false_r, startswith_spec. split.
    + intros [r E]. exists [], r. exact E.
    + intros (a & b & E). destruct a as [| ? ?]; [| discriminate].
      exists b. exact E.
  - rewrite orb_true_iff, startswith_spec, IH. split.
    + intros [[r E] | (a & b & E)].
      * exists [], r. exact E.
      * exists (c :: a), b. rewrite E. reflexivity.
    + intros (a & b & E). destruct a as [| c' a].
      * left. exists b. exact E.
      * right. injection E as _ E. exists a, b. exact E.
Qed.

Lemma mentioned_headers_unfold (outline : str) :
  mentioned_headers outline =
    match omap (header_if_named outline) CHARACTER_NAMES with
    | [] => [lit "사일라즈 엔타리스"]
    | _ :: _ => omap (header_if_named outline) CHARACTER_NAMES
    end.
Proof. reflexivity. Qed.

Lemma named_elem (outline header : str) :
  header ∈ omap (header_if_named outline) CHARACTER_NAMES <->
  exists name, (name, header) ∈ CHARACTER_NAMES /\ contains name outline = true.
Proof.
  rewrite list_elem_of_omap. split.
  - intros ([name h] & Hin & H). simpl in H.
    destruct (contains name outline) eqn:E; [| discriminate].
    injection H as ->. exists name. auto.
  - intros (name & Hin & H). exists (name, header). split; [exact Hin |].
    simpl. rewrite H. reflexivity.
Qed.

(** X12: the list of character headers is never empty; it holds the header
    of every character whose short name occurs in the outline, and no other
    header, except that the header 사일라즈 엔타리스 alone is returned when no
    name occurs.  A name occurs when it is a part of the outline, whatever
    stands around it. *)
Theorem mentioned_headers_spec :
  (forall outline : str, mentioned_headers outline <> []) /\
  (forall outline name header : str,
     (name, header) ∈ CHARACTER_NAMES -> contains name outline = true ->
     header ∈ mentioned_headers outline) /\
  (forall outline header : str,
     header ∈ mentioned_headers outline ->
     (exists name, (name, header) ∈ CHARACTER_NAMES /\ contains name outline = true) \/
     (header = lit "사일라즈 엔타리스" /\
      forall name header', (name, header') ∈ CHARACTER_NAMES ->
        contains name outline = false)) /\
  (forall needle s : str,
     contains needle s = true <-> exists a b, s = a ++ needle ++ b).
Proof.
  split.
  { intros outline. rewrite mentioned_headers_unfold.
    destruct (omap _ CHARACTER_NAMES); discriminate. }
  split.
  { intros outline name header Hin H. rewrite mentioned_headers_unfold.
    assert (Hel : header ∈ omap (header_if_named outline) CHARACTER_NAMES).
    { apply named_elem. exists name. auto. }
    destruct (omap (header_if_named outline) CHARACTER_NAMES);
      [apply elem_of_nil in Hel; contradiction | exact Hel]. }
  split; [| exact contains_spec].
  intros outline header H. rewrite mentioned_headers_unfold in H.
  destruct (omap (header_if_named outline) CHARACTER_NAMES) as [| h hs] eqn:E.
  - right. apply list_elem_of_singleton in H. split; [exact H |].
    intros name header' Hin.
    destruct (contains name outline) eqn:Ec; [| reflexivity].
    exfalso. assert (Hel : header' ∈ omap (header_if_named outline) CHARACTER_NAMES).
    { apply named_elem. exists name. auto. }
    rewrite E in Hel. apply elem_of_nil in Hel. exact Hel.
  - left. apply named_elem. rewrite E. exact H.

Qed.

Lemma mentioned_headers_spec_witness :
  lit "소피아" ∈ mentioned_headers (lit "소피아가 문을 열었다").
Proof.
  destruct mentioned_headers_spec as (_ & H & _).
  apply (H (lit "소피아가 문을 열었다") (lit "소피아") (lit "소피아")).
  - apply list_elem_of_In. do 3 right. left. reflexivity.
  - vm_compute. reflexivity.
Defined.

Lemma take_rules_elem (outline : str) (rules : list (string * KeywordRule))
  (needed : gset str) (name : str) :
  name ∈ fold_left (take_rule outline) rules needed <->
  name ∈ needed \/
  exists cat config keyword,
    (cat, config) ∈ rules /\ keyword ∈ keywords config /\
    contains keyword outline = true /\ name ∈ sections config.
Proof.
  revert needed. induction rules as [| [cat config] rules IH]; intros needed.
  - simpl. split; [auto |]. intros [H | (c & cf & k & H & _)]; [exact H |].
    apply elem_of_nil in H. contradiction.
  - cbn [fold_left]. rewrite IH. unfold take_rule at 1. split.
    + intros [H | (c & cf & k & H1 & H2)].
      * destruct (existsb _ (keywords config)) eqn:E; [| auto].
        apply elem_of_union in H. destruct H as [H | H]; [auto |].
        right. apply existsb_exists in E. destruct E as (k & Hk & Ek).
        exists cat, config, k. rewrite elem_of_cons.
        apply list_elem_of_In in Hk. apply elem_of_list_to_set in H. auto.
      * right. exists c, cf, k. rewrite elem_of_cons. auto.
    + intros [H | (c & cf & k & H1 & H2 & H3 & H4)].
      * left. destruct (existsb _ (keywords config)); [apply elem_of_union |]; auto.
      * apply elem_of_cons in H1. destruct H1 as [H1 | H1].
        -- injection H1 as -> ->. left.
           assert (E : existsb (fun keyword => contains keyword outline)
                         (keywords config) = true).
           { apply existsb_exists. exists k. split; [apply list_elem_of_In |]; assumption. }
           rewrite E. apply elem_of_union. right. apply elem_of_list_to_set. exact H4.
        -- right. exists c, cf, k. auto.
Qed.

(** X13: a world section is selected exactly when it belongs to the category
    that is always included, or to a category one of whose keywords occurs
    in the outline. *)
Theorem needed_sections_iff (outline name : str) :
  name ∈ needed_sections outline <->
  name ∈ always_sections \/
  exists cat config keyword,
    (cat, config) ∈ WORLD_KEYWORDS /\ keyword ∈ keywords config /\
    contains keyword outline = true /\ name ∈ sections config.
Proof.
  rewrite needed_sections_fold, take_rules_elem, elem_of_list_to_set. reflexivity.
Qed.

End Selection.

Section Sections.

Import Spec.

Lemma stops_cont (stops : list str) (g t : str) :
  Re.lookahead (stops_or_end stops) (matched g) t =
    if stop_here (map (app nl) stops) t then Some g else None.
Proof.
  unfold Re.lookahead, matched.
  assert (H : stops_or_end stops t =
              if stop_here (map (app nl) stops) t then Some tt else None).
  { induction stops as [| p stops IH].
    - destruct t; reflexivity.
    - cbn [stops_or_end map]. unfold Re.alt, Re.literal, matched. rewrite IH.
      destruct t as [| c t]; [reflexivity |].
      cbn [stop_here existsb].
      destruct (startswith (nl ++ p) (c :: t)); reflexivity. }
  rewrite H. destruct (stop_here _ t); reflexivity.
Qed.

Lemma section_found (marker name : str) (stops : list str) (pre : str) (c : Z) (t : str) :
  first_at (marker ++ name) pre ((marker ++ name) ++ c :: t) ->
  Re.search (section_pattern marker name stops) (pre ++ (marker ++ name) ++ c :: t) =
    Some (c :: until (map (app nl) stops) t).
Proof.
  intros Hfirst. unfold section_pattern.
  apply search_literal_first; [exact Hfirst |].
  apply (lazy_plus_until (map (app nl) stops) (fun g => g)). apply stops_cont.
Qed.

Lemma section_absent (marker name : str) (stops : list str) (text : str) :
  contains (marker ++ name) text = false ->
  Re.search (section_pattern marker name stops) text = None.
Proof. apply search_literal_absent. Qed.

Lemma omap_all_none {A B} (f : A -> option B) (l : list A) :
  (forall x, x ∈ l -> f x = None) -> omap f l = [].
Proof.
  induction l as [| x l IH]; intros H; [reflexivity |].
  rewrite omap_cons_none by (apply H; apply elem_of_cons; left; reflexivity).
  apply IH. intros y Hy. apply H. apply elem_of_cons. right. exact Hy.
Qed.

(** X14: a section is taken from the first place where its heading stands in
    the document with at least one character after it: it is the heading and
    what follows, up to the next heading of a level that ends it or the end
    of the document, cut to the line limit.  A heading that the document does
    not hold gives no section and no error, and without any of the headings
    the result is the empty string. *)
Theorem extract_sections_found :
  (forall (text outline header pre : str) (c : Z) (t : str),
     header ∈ mentioned_headers outline ->
     text = pre ++ (lit "## " ++ header) ++ c :: t ->
     first_at (lit "## " ++ header) pre ((lit "## " ++ header) ++ c :: t) ->
     truncate_section 80 (lit "## " ++ header ++ c :: until [nl ++ lit "## "] t)
       ∈ character_sections text outline) /\
  (forall (text outline name pre : str) (c : Z) (t : str),
     name ∈ needed_sections outline ->
     text = pre ++ (lit "### " ++ name) ++ c :: t ->
     first_at (lit "### " ++ name) pre ((lit "### " ++ name) ++ c :: t) ->
     truncate_section 60
       (lit "### " ++ name ++ c :: until [nl ++ lit "### "; nl ++ lit "## "] t)
       ∈ world_sections text outline) /\
  (forall text outline : str,
     (forall header, header ∈ mentioned_headers outline ->
        contains (lit "## " ++ header) text = false) ->
     extract_characters text outline = []) /\
  (forall text outline : str,
     (forall name, name ∈ needed_sections outline ->
        contains (lit "### " ++ name) text = false) ->
     extract_world_sections text outline = []).
Proof.
  split.
  { intros text outline header pre c t Hin -> Hfirst. unfold character_sections.
    apply list_elem_of_omap. exists header. split; [exact Hin |].
    rewrite (section_found _ _ _ _ _ _ Hfirst). reflexivity. }
  split.
  { intros text outline name pre c t Hin -> Hfirst. unfold world_sections.
    apply list_elem_of_omap. exists name. split; [apply elem_of_elements; exact Hin |].
    rewrite (section_found _ _ _ _ _ _ Hfirst). reflexivity. }
  split.
  { intros text outline H. unfold extract_characters, character_sections.
    rewrite omap_all_none; [reflexivity |].
    intros header Hin. rewrite section_absent; [reflexivity | apply H; exact Hin]. }
  intros text outline H. unfold extract_world_sections, world_sections.
  rewrite omap_all_none; [reflexivity |].
  intros name Hin. apply elem_of_elements in Hin.
  rewrite section_absent; [reflexivity | apply H; exact Hin].
Qed.

Lemma extract_sections_found_witness :
  lit "## 소피아" ++ nl ++ lit "마법사." ∈
    character_sections
      (lit "머리말" ++ nl ++ lit "## 소피아" ++ nl ++ lit "마법사." ++ nl ++ lit "## 끝")
      (lit "소피아가 웃었다").
Proof.
  destruct extract_sections_found as (H & _).
  apply (H _ (lit "소피아가 웃었다") (lit "소피아") (lit "머리말" ++ nl) 10%Z
           (lit "마법사." ++ nl ++ lit "## 끝")).
  - apply list_elem_of_In. left. vm_compute. reflexivity.
  - vm_compute. reflexivity.
  - intros i Hi. do 4 (destruct i as [| i]; [vm_compute; reflexivity |]).
    vm_compute in Hi. lia.
Defined.

Lemma outline_unfold (text : str) (N : Z) :
  outline (extract_ep_outline text N) =
    match Re.search (ep_block_pattern (ep_tag_of N)) text with
    | Some g => block_header (ep_tag_of N) ++ strip g
    | None => []
    end.
Proof. reflexivity. Qed.

Lemma title_unfold (text : str) (N : Z) :
  ep_title (extract_ep_outline text N) =
    match Re.search (ep_block_pattern (ep_tag_of N)) text with
    | Some g =>
      match split_lines (block_header (ep_tag_of N) ++ g) with
      | first :: _ =>
        match Re.search (title_pattern (ep_tag_of N)) first with
        | Some t => strip t
        | None => []
        end
      | [] => []
      end
    | None => []
    end.
Proof. reflexivity. Qed.

(** X15: the outline of an episode is its heading ### EP-NN: followed by the
    text of its block without the white space around it, the block being
    what follows the first such heading, one character at least, up to the
    next episode heading, a rule or the end.  Without that heading in the
    document, outline and title are empty and no error is raised. *)
Theorem extract_ep_outline_block :
  (forall (text : str) (N : Z) (pre : str) (c : Z) (t : str),
     text = pre ++ block_header (ep_tag_of N) ++ c :: t ->
     first_at (block_header (ep_tag_of N)) pre (block_header (ep_tag_of N) ++ c :: t) ->
     outline (extract_ep_outline text N) =
       block_header (ep_tag_of N) ++ strip (c :: until block_stops t)) /\
  (forall (text : str) (N : Z),
     contains (block_header (ep_tag_of N)) text = false ->
     outline (extract_ep_outline text N) = [] /\
     ep_title (extract_ep_outline text N) = []).
Proof.
  split.
  - intros text N pre c t -> Hfirst.
    rewrite outline_unfold, (ep_block_found _ _ _ _ Hfirst). reflexivity.
  - intros text N H.
    rewrite outline_unfold, title_unfold, (ep_block_absent _ _ H). split; reflexivity.
Qed.

Lemma extract_ep_outline_block_witness :
  outline (extract_ep_outline (lit "### EP-02: 둘" ++ nl ++ lit "본문 " ++ nl ++ lit "---") 2)
  = lit "### EP-02:둘" ++ nl ++ lit "본문".
Proof.
  destruct extract_ep_outline_block as [H _].
  rewrite (H (lit "### EP-02: 둘" ++ nl ++ lit "본문 " ++ nl ++ lit "---") 2%Z []
             32%Z (lit "둘" ++ nl ++ lit "본문 " ++ nl ++ lit "---")).
  - vm_compute. reflexivity.
  - vm_compute. reflexivity.
  - intros i Hi. simpl in Hi. lia.
Defined.

End Sections.

Section Truncation.

(** X16: cutting a section is idempotent: a section that was cut to the
    limit and its elision marker is returned unchanged when it is cut
    again. *)
Theorem truncate_section_idempotent (limit : nat) (section : str) :
  0 < limit ->
  truncate_section limit (truncate_section limit section) =
    truncate_section limit section.
Proof.
  intros Hpos.
  destruct (decide (limit < length (split_lines section))) as [H | H].
  - pose proof (truncate_section_cut limit section Hpos H) as Hcut.
    unfold truncate_section at 1. rewrite Hcut.
    assert (Hlen : length (take limit (split_lines section)) = limit)
      by (apply length_take_le; lia).
    rewrite bool_decide_eq_true_2 by (rewrite length_app, Hlen; simpl; lia).
    rewrite (take_app_length' _ _ limit) by (symmetry; exact Hlen).
    unfold truncate_section. rewrite bool_decide_eq_true_2 by exact H. reflexivity.
  - rewrite (truncate_section_keep limit section) by lia.
    apply truncate_section_keep. lia.
Qed.

Lemma truncate_section_idempotent_witness :
  truncate_section 2 (truncate_section 2 (lit "a" ++ nl ++ lit "b" ++ nl ++ lit "c"))
  = truncate_section 2 (lit "a" ++ nl ++ lit "b" ++ nl ++ lit "c").
Proof. apply truncate_section_idempotent. lia. Defined.

End Truncation.

Section PreviousEnding.

Import Spec.

Variable glob_files : bool -> str -> list (option str).
Variable pilot_exists : bool.

Lemma ending_of_tail (text : str) : is_tail 500 text (ending_of text).
Proof.
  unfold ending_of, is_tail. case_bool_decide.
  - destruct (last_chars_suffix 500 text) as (pre & E & Hl).
    exists pre. split; [exact E | exact Hl].
  - exists []. split; [reflexivity | lia].
Qed.

Lemma is_tail_unique (n : nat) (text e e' : str) :
  is_tail n text e -> is_tail n text e' -> e = e'.
Proof.
  intros (pre & E & Hl) (pre' & E' & Hl').
  rewrite E in E'. apply app_inj_2 in E'; [apply E' | congruence].
Qed.

Lemma ending_read_fmap (file : option str) : ending_read file (ending_of <$> file).
Proof.
  destruct file as [text |]; [| reflexivity].
  exists (ending_of text). split; [reflexivity | apply ending_of_tail].
Qed.

Lemma first_glob_length (pilot : bool) (patterns : list str) (e : str) :
  first_glob glob_files pilot patterns = Some (Some e) -> length e <= 500.
Proof.
  induction patterns as [| pattern patterns IH]; simpl; [discriminate |].
  destruct (glob_files pilot pattern) as [| file others]; [exact IH |].
  destruct file as [text |]; [| discriminate].
  intros H. injection H as <-.
  destruct (ending_of_tail text) as (_ & _ & Hl). lia.
Qed.

(** X17: the ending of the previous episode is empty for an episode number
    of 1 or less, and no file is read.  Otherwise the episodes directory is
    searched for the tag of the previous episode followed by an underscore,
    then for the tag alone, and the pilot directory, when it exists, in the
    same way; the first file that the first search with a result yields is
    read, and the ending is the last 500 characters of its text, the whole
    text when it has no more; when that file cannot be read the exception
    is let through; without any file the ending is empty.  The last 500
    characters are determined: a text has one tail of a given length. *)
Theorem get_previous_episode_ending_spec :
  (forall ep_num : Z,
     (ep_num <= 1)%Z ->
     get_previous_episode_ending glob_files pilot_exists ep_num = Some []) /\
  (forall (ep_num : Z) (p1 p2 : str),
     (1 < ep_num)%Z ->
     p1 = ep_tag_of (ep_num - 1) ++ lit "_*.md" ->
     p2 = ep_tag_of (ep_num - 1) ++ lit "*.md" ->
     (forall file others,
        glob_files false p1 = file :: others ->
        ending_read file (get_previous_episode_ending glob_files pilot_exists ep_num)) /\
     (forall file others,
        glob_files false p1 = [] -> glob_files false p2 = file :: others ->
        ending_read file (get_previous_episode_ending glob_files pilot_exists ep_num)) /\
     (glob_files false p1 = [] -> glob_files false p2 = [] ->
      pilot_exists = false ->
      get_previous_episode_ending glob_files pilot_exists ep_num = Some []) /\
     (forall file others,
        glob_files false p1 = [] -> glob_files false p2 = [] ->
        pilot_exists = true -> glob_files true p1 = file :: others ->
        ending_read file (get_previous_episode_ending glob_files pilot_exists ep_num)) /\
     (forall file others,
        glob_files false p1 = [] -> glob_files false p2 = [] ->
        pilot_exists = true -> glob_files true p1 = [] ->
        glob_files true p2 = file :: others ->
        ending_read file (get_previous_episode_ending glob_files pilot_exists ep_num)) /\
     (glob_files false p1 = [] -> glob_files false p2 = [] ->
      glob_files true p1 = [] -> glob_files true p2 = [] ->
      get_previous_episode_ending glob_files pilot_exists ep_num = Some [])) /\
  (forall (ep_num : Z) (e : str),
     get_previous_episode_ending glob_files pilot_exists ep_num = Some e ->
     length e <= 500) /\
  (forall (n : nat) (text e e' : str),
     is_tail n text e -> is_tail n text e' -> e = e').
Proof.
  split.
  { intros ep_num H. unfold get_previous_episode_ending.
    destruct (Z.leb_spec ep_num 1); [reflexivity | lia]. }
  split.
  { intros ep_num p1 p2 Hn -> ->. unfold get_previous_episode_ending.
    destruct (Z.leb_spec ep_num 1); [lia |]. cbv zeta. cbn [first_glob].
    split; [intros file others ->; apply ending_read_fmap |].
    split; [intros file others -> ->; apply ending_read_fmap |].
    split; [intros -> -> ->; reflexivity |].
    split; [intros file others -> -> -> ->; apply ending_read_fmap |].
    split; [intros file others -> -> -> -> ->; apply ending_read_fmap |].
    intros -> -> -> ->. destruct pilot_exists; reflexivity. }
  split; [| exact is_tail_unique].
  intros ep_num e. unfold get_previous_episode_ending.
  destruct (ep_num <=? 1)%Z; [intros H; injection H as <-; simpl; lia |]. cbv zeta.
  destruct (first_glob glob_files false _) as [r |] eqn:E1.
  - intros ->. exact (first_glob_length _ _ _ E1).
  - destruct pilot_exists; [| intros H; injection H as <-; simpl; lia].
    destruct (first_glob glob_files true _) as [r |] eqn:E2.
    + intros ->. exact (first_glob_length _ _ _ E2).
    + intros H. injection H as <-. simpl. lia.
Qed.

End PreviousEnding.

Lemma get_previous_episode_ending_spec_witness :
  get_previous_episode_ending
    (fun pilot _ => if pilot then [] else [Some (replicate 100 97%Z ++ replicate 500 98%Z)])
    false 2 = Some (replicate 500 98%Z).
Proof.
  destruct (get_previous_episode_ending_spec
              (fun pilot _ => if pilot then [] else [Some (replicate 100 97%Z ++ replicate 500 98%Z)])
              false) as (_ & H & _ & Huniq).
  destruct (H 2%Z _ _ ltac:(lia) eq_refl eq_refl) as (Hfirst & _).
  destruct (Hfirst _ _ eq_refl) as (e & -> & Htail).
  f_equal. apply (Huniq 500 (replicate 100 97%Z ++ replicate 500 98%Z)); [exact Htail |].
  exists (replicate 100 97%Z). split; [reflexivity | vm_compute; reflexivity].
Defined.

(** ** Episode tags and numbers *)

Section TagRoundTrip.

Variable nd : Z -> option Z.
Variable limit : nat.

Lemma fold_uint_acc (d : Decimal.uint) (acc : positive) :
  fold_left (Spec.digit_step nd) (uint_chars d) (Z.pos acc) = Z.pos (Pos.of_uint_acc d acc).
Proof.
  revert acc. induction d; intros acc; cbn [uint_chars fold_left Pos.of_uint_acc];
    [reflexivity | rewrite <- IHd; f_equal; unfold Spec.digit_step; cbn; lia ..].
Qed.

Lemma fold_uint (d : Decimal.uint) :
  fold_left (Spec.digit_step nd) (uint_chars d) 0%Z = Z.of_N (Pos.of_uint d).
Proof.
  induction d; cbn [uint_chars fold_left Pos.of_uint];
    [reflexivity | exact IHd | ..];
    (change (Spec.digit_step nd 0 _) with (Z.pos 1) || change (Spec.digit_step nd 0 _) with (Z.pos 2)
     || change (Spec.digit_step nd 0 _) with (Z.pos 3) || change (Spec.digit_step nd 0 _) with (Z.pos 4)
     || change (Spec.digit_step nd 0 _) with (Z.pos 5) || change (Spec.digit_step nd 0 _) with (Z.pos 6)
     || change (Spec.digit_step nd 0 _) with (Z.pos 7) || change (Spec.digit_step nd 0 _) with (Z.pos 8)
     || change (Spec.digit_step nd 0 _) with (Z.pos 9));
    rewrite fold_uint_acc; reflexivity.
Qed.

Lemma fold_zeros (k : nat) (ds : str) :
  fold_left (Spec.digit_step nd) (replicate k 48%Z ++ ds) 0%Z = fold_left (Spec.digit_step nd) ds 0%Z.
Proof. induction k as [| k IH]; [reflexivity | exact IH]. Qed.

Lemma uint_chars_decimal (d : Decimal.uint) :
  forallb (is_decimal nd) (uint_chars d) = true.
Proof. induction d; cbn [uint_chars forallb]; [reflexivity | exact IHd ..]. Qed.

Lemma zeros_decimal (k : nat) : forallb (is_decimal nd) (replicate k 48%Z) = true.
Proof. induction k as [| k IH]; [reflexivity | exact IH]. Qed.

Lemma to_uint_chars_nonempty (p : positive) : uint_chars (Pos.to_uint p) <> [].
Proof.
  pose proof (DecimalPos.Unsigned.to_uint_nonnil p) as H.
  destruct (Pos.to_uint p); [congruence | discriminate ..].
Qed.

(** X18: an episode number that is not negative is read back from its tag,
    as long as the tag has no more digits than the interpreter converts
    (at most 640, or at most its limit, 4300 unless set otherwise): parsing
    EP- followed by the number written with two digits at least returns the
    number.  The tag of a negative number is not an episode identifier:
    parsing it raises the error. *)
Theorem ep_tag_round_trip :
  (forall n : Z,
     (0 <= n)%Z -> ~ Spec.too_many_digits limit (length (format_02d n)) ->
     parse_ep_number nd limit (ep_tag_of n) = Ok n) /\
  (forall n : Z, (0 <= n < 100)%Z -> parse_ep_number nd limit (ep_tag_of n) = Ok n) /\
  (forall n : Z, (n < 0)%Z ->
     exists message, parse_ep_number nd limit (ep_tag_of n) = ValueError message).
Proof.
  assert (Hback : forall n : Z,
            (0 <= n)%Z -> ~ Spec.too_many_digits limit (length (format_02d n)) ->
            parse_ep_number nd limit (ep_tag_of n) = Ok n).
  { intros n Hn Hfew. unfold ep_tag_of. unfold format_02d in *.
    assert (E : exists d, Z.to_int n = Decimal.Pos d /\ uint_chars d <> [] /\
                          Z.of_N (Pos.of_uint d) = n).
    { destruct n as [| p | p]; [| | lia].
      - exists (Decimal.D0 Decimal.Nil). repeat split. discriminate.
      - exists (Pos.to_uint p). split; [reflexivity |].
        split; [apply to_uint_chars_nonempty |].
        rewrite DecimalPos.Unsigned.of_to. reflexivity. }
    destruct E as (d & Ed & Hne & Hval). rewrite Ed in *. cbv zeta in *.
    set (digits := replicate (2 - length (uint_chars d)) 48%Z ++ uint_chars d) in *.
    rewrite (parse_value nd limit (lit "EP-" ++ digits) digits).
    - f_equal. subst digits. unfold digits_value.
      change (fun acc c => (10 * acc + default 0 (decimal_value nd c))%Z)
        with (Spec.digit_step nd).
      rewrite fold_zeros, fold_uint. exact Hval.
    - apply ep_tag_reads.
      + subst digits. intros E. apply app_eq_nil in E. destruct E as [_ E]. congruence.
      + subst digits. rewrite forallb_app, zeros_decimal, uint_chars_decimal. reflexivity.
    - exact Hfew. }
  split; [exact Hback |]. split.
  - intros n Hn. apply Hback; [lia |].
    intros (H & _). revert H.
    assert (Hlen : length (format_02d n) = 2).
    { assert (Hcases : n = 0%Z \/ exists p, n = Z.pos p /\ (p < 100)%positive).
      { destruct n as [| p | p]; [left; reflexivity | | lia].
        right. exists p. split; [reflexivity | lia]. }
      destruct Hcases as [-> | (p & -> & Hp)]; [reflexivity |].
      clear Hn Hback.
      assert (Hin : In p (map Pos.of_nat (seq 1 99))).
      { apply in_map_iff. exists (Pos.to_nat p). split; [apply Pos2Nat.id |].
        apply in_seq. lia. }
      assert (Hall : Forall (fun q => length (format_02d (Z.pos q)) = 2)
                       (map Pos.of_nat (seq 1 99))).
      { repeat (constructor; [vm_compute; reflexivity |]). constructor. }
      exact (proj1 (List.Forall_forall _ _) Hall p Hin). }
    rewrite Hlen. lia.
  - intros n Hn. destruct n as [| p | p]; [lia | lia |].
    unfold ep_tag_of, format_02d. cbn [Z.to_int].
    eexists. unfold parse_ep_number.
    change (lit "EP-" ++ 45%Z :: uint_chars (Pos.to_uint p))
      with (69%Z :: 80%Z :: 45%Z :: 45%Z :: uint_chars (Pos.to_uint p)).
    rewrite ep_arg_pattern_unfold.
    rewrite decide_True by (left; reflexivity).
    rewrite decide_True by (left; reflexivity).
    reflexivity.
Qed.

End TagRoundTrip.

Lemma ep_tag_round_trip_witness :
  parse_ep_number (fun _ => None) 4300 (ep_tag_of 7) = Ok 7 /\
  parse_ep_number (fun _ => None) 4300 (ep_tag_of 123) = Ok 123.
Proof.
  destruct (ep_tag_round_trip (fun _ => None) 4300) as [H _].
  split; apply H; try lia; intros (Hlen & _); vm_compute in Hlen; lia.
Defined.

(** ** The separator count of F3 *)

Section Separators.

Import Spec.

Lemma str_eqb_eq (a b : str) : str_eqb a b = true <-> a = b.
Proof.
  unfold str_eqb. rewrite andb_true_iff, Nat.eqb_eq, startswith_spec. split.
  - intros [Hl [r ->]]. rewrite length_app in Hl.
    destruct r; [symmetry; apply app_nil_r | simpl in Hl; lia].
  - intros ->. split; [reflexivity | exists []; rewrite app_nil_r; reflexivity].
Qed.

Lemma strip_around (a x b : str) :
  forallb is_space a = true -> forallb is_space b = true ->
  match x with
  | [] => True
  | c :: _ => is_space c = false
  end ->
  match last x with
  | None => True
  | Some c => is_space c = false
  end ->
  strip (a ++ x ++ b) = x.
Proof.
  intros Ha Hb Hx1 Hx2. unfold strip.
  rewrite lstrip_by_app by exact Ha.
  destruct x as [| c t].
  - cbn [app]. rewrite <- (app_nil_r b), lstrip_by_app by exact Hb. reflexivity.
  - rewrite (lstrip_by_fixed is_space ((c :: t) ++ b)) by exact Hx1.
    rewrite rstrip_by_app by exact Hb. apply rstrip_by_fixed. exact Hx2.
Qed.

Lemma is_rule_line_iff (line : str) :
  is_rule_line line = true <->
  exists a b, line = a ++ lit "---" ++ b /\
    forallb is_space a = true /\ forallb is_space b = true.
Proof.
  unfold is_rule_line. rewrite str_eqb_eq. split.
  - intros H. destruct (strip_inside line) as (a & b & E & Ha & Hb).
    exists a, b. change (lit "---") with rule_line. rewrite <- H. auto.
  - intros (a & b & -> & Ha & Hb). apply strip_around; [assumption .. | |]; reflexivity.
Qed.

Lemma count_if_app {A} (q : A -> bool) (l1 l2 : list A) :
  count_if q (l1 ++ l2) = count_if q l1 + count_if q l2.
Proof.
  induction l1 as [| x l1 IH]; [reflexivity |].
  simpl. destruct (q x); rewrite IH; reflexivity.
Qed.

(** X19: the value of F3 is the number of lines of the raw text that are
    three hyphens with nothing but white space around them, wherever they
    stand; the count of a text is the sum of the counts of its two parts on
    either side of a line feed; and F3 passes exactly when the value is
    between 3 and 6. *)
Theorem check_f3_scene_separators_spec :
  (forall text : str,
     value (check_f3_scene_separators text) =
       Z.of_nat (count_if is_rule_line (split_lines text)) /\
     (result (check_f3_scene_separators text) = PASS <->
      (3 <= value (check_f3_scene_separators text) <= 6)%Z)) /\
  (forall line : str,
     is_rule_line line = true <->
     exists a b, line = a ++ lit "---" ++ b /\
       forallb is_space a = true /\ forallb is_space b = true) /\
  (forall a b : str,
     value (check_f3_scene_separators (a ++ nl ++ b)) =
       (value (check_f3_scene_separators a) + value (check_f3_scene_separators b))%Z).
Proof.
  split.
  { intros text. split; [reflexivity |].
    unfold check_f3_scene_separators. cbn [value result].
    rewrite verdict_of_PASS, andb_true_iff, !Z.leb_le. reflexivity. }
  split; [exact is_rule_line_iff |].
  intros a b. unfold check_f3_scene_separators. cbn [value].
  rewrite split_lines_app_nl, count_if_app. lia.
Qed.

End Separators.

(** ** The title of an episode *)

Section Title.

Import Spec.

Lemma lazy_star_exact {A} (cls : Z -> bool) (k : str -> @Re.cont A) (x rest acc : str)
  (r : A) :
  forallb cls x = true ->
  (forall u v, x = u ++ v -> v <> [] -> k (acc ++ u) (v ++ rest) = None) ->
  k (acc ++ x) rest = Some r ->
  Re.lazy_star cls k acc (x ++ rest) = Some r.
Proof.
  revert acc. induction x as [| c x IH]; intros acc Hx Hfail Hk.
  - rewrite (app_nil_r acc) in Hk. cbn [app]. destruct rest; simpl; rewrite Hk; reflexivity.
  - simpl in Hx. apply andb_true_iff in Hx. destruct Hx as [Hc Hx].
    cbn [app Re.lazy_star].
    pose proof (Hfail [] (c :: x) eq_refl ltac:(discriminate)) as H0.
    rewrite (app_nil_r acc) in H0. cbn [app] in H0. rewrite H0, Hc. cbn [Re.or_else].
    apply IH; [exact Hx | | rewrite <- app_assoc; exact Hk].
    intros u v -> Hv. rewrite <- app_assoc. apply (Hfail (c :: u) v); [reflexivity | exact Hv].
Qed.

Lemma lazy_star_inv {A} (cls : Z -> bool) (k : str -> @Re.cont A) (s acc : str) (r : A) :
  Re.lazy_star cls k acc s = Some r ->
  exists x t, s = x ++ t /\ k (acc ++ x) t = Some r.
Proof.
  revert acc. induction s as [| c t IH]; intros acc H; cbn [Re.lazy_star] in H.
  - destruct (k acc []) eqn:E; [| discriminate].
    exists [], []. rewrite (app_nil_r acc). split; [reflexivity |]. rewrite E. exact H.
  - destruct (k acc (c :: t)) eqn:E.
    + exists [], (c :: t). rewrite (app_nil_r acc). split; [reflexivity |]. rewrite E. exact H.
    + cbn [Re.or_else] in H. destruct (cls c); [| discriminate].
      destruct (IH _ H) as (x & t' & -> & Hk).
      exists (c :: x), t'. split; [reflexivity |]. rewrite <- app_assoc in Hk. exact Hk.
Qed.

Lemma lazy_plus_inv {A} (cls : Z -> bool) (k : str -> @Re.cont A) (s : str) (r : A) :
  Re.lazy_plus cls k s = Some r ->
  exists g t, s = g ++ t /\ g <> [] /\ k g t = Some r.
Proof.
  unfold Re.lazy_plus. destruct s as [| c s]; [discriminate |].
  destruct (cls c); [| discriminate]. intros H.
  destruct (lazy_star_inv _ _ _ _ _ H) as (x & t & -> & Hk).
  exists (c :: x), t. split; [reflexivity |]. split; [discriminate | exact Hk].
Qed.


Lemma no_nl_app (a b : str) : no_nl a -> no_nl b -> no_nl (a ++ b).
Proof. unfold no_nl. rewrite elem_of_app. tauto. Qed.

Lemma no_nl_app_inv (a b : str) : no_nl (a ++ b) -> no_nl a /\ no_nl b.
Proof. unfold no_nl. rewrite elem_of_app. tauto. Qed.

Lemma no_nl_not_nl (l : str) : no_nl l -> forallb Re.not_nl l = true.
Proof.
  induction l as [| c l IH]; intros H; [reflexivity |].
  apply no_nl_head in H. destruct H as [Hc Hl].
  cbn [forallb]. unfold Re.not_nl at 1. rewrite Hc. cbn [negb andb]. auto.
Qed.

Lemma block_header_no_nl (N : Z) : no_nl (block_header (ep_tag_of N)).
Proof.
  assert (Hlit : forall x : string, forallb (fun c => negb (chr_eqb c 10)) (lit x) = true ->
                   no_nl (lit x)) by (intros x; apply no_nl_forallb).
  assert (Hd : forall d, no_nl (uint_chars d)).
  { intros d. apply (decimal_no_nl (fun _ => None)). apply uint_chars_decimal. }
  unfold block_header, ep_tag_of.
  apply no_nl_app; [apply Hlit; vm_compute; reflexivity |].
  apply no_nl_app; [| apply Hlit; vm_compute; reflexivity].
  apply no_nl_app; [apply Hlit; vm_compute; reflexivity |].
  unfold format_02d. destruct (Z.to_int N) as [d | d].
  - apply no_nl_app; [| apply Hd].
    apply (decimal_no_nl (fun _ => None)). apply zeros_decimal.
  - apply no_nl_cons; [discriminate | apply Hd].
Qed.

Lemma until_line (l y : str) :
  no_nl l -> until block_stops (l ++ y) = l ++ until block_stops y.
Proof.
  induction l as [| c l IH]; intros H; [reflexivity |].
  apply no_nl_head in H. destruct H as [Hc Hl].
  cbn [app until]. unfold stop_here, block_stops, nl. cbn [existsb app startswith].
  replace (chr_eqb 10 c) with false
    by (symmetry; unfold chr_eqb in *; rewrite Z.eqb_sym; exact Hc).
  cbn [andb orb]. f_equal. apply IH. exact Hl.
Qed.

Lemma until_tail (y : str) :
  y = [] \/ (exists b, y = nl ++ b) ->
  until block_stops y = [] \/ exists b, until block_stops y = nl ++ b.
Proof.
  intros [-> | [b ->]]; [left; reflexivity |].
  cbn [app nl until]. destruct (stop_here block_stops (10%Z :: b)); [left; reflexivity |].
  right. exists (until block_stops b). reflexivity.
Qed.

Lemma first_line (a y : str) :
  no_nl a -> y = [] \/ (exists b, y = nl ++ b) ->
  exists ls, split_lines (a ++ y) = a :: ls.
Proof.
  intros Ha [-> | [b ->]].
  - exists []. rewrite app_nil_r. apply split_lines_line. exact Ha.
  - exists (split_lines b). rewrite split_lines_app_nl, (split_lines_line a Ha). reflexivity.
Qed.

(** The title is searched in the heading and what follows it on its line. *)
Lemma ep_title_line (text : str) (N : Z) (pre line after : str) :
  text = pre ++ block_header (ep_tag_of N) ++ line ++ after ->
  first_at (block_header (ep_tag_of N)) pre (block_header (ep_tag_of N) ++ line ++ after) ->
  line ++ after <> [] -> no_nl line ->
  after = [] \/ (exists a, after = nl ++ a) ->
  ep_title (extract_ep_outline text N) =
    match Re.search (title_pattern (ep_tag_of N)) (block_header (ep_tag_of N) ++ line) with
    | Some t => strip t
    | None => []
    end.
Proof.
  intros -> Hfirst Hne Hline Hafter. rewrite title_unfold.
  assert (Hblock : exists c t y, line ++ after = c :: t /\
            c :: until block_stops t = line ++ y /\ (y = [] \/ exists b, y = nl ++ b)).
  { destruct line as [| c l].
    - destruct Hafter as [-> | [a ->]]; [exfalso; apply Hne; reflexivity |].
      exists 10%Z, a, (nl ++ until block_stops a). split; [reflexivity |].
      split; [reflexivity |]. right. exists (until block_stops a). reflexivity.
    - apply no_nl_head in Hline. destruct Hline as [_ Hl].
      exists c, (l ++ after), (until block_stops after). split; [reflexivity |].
      split; [rewrite (until_line l after Hl); reflexivity |].
      apply until_tail. exact Hafter. }
  destruct Hblock as (c & t & y & E & Eb & Hy). rewrite E in Hfirst |- *.
  rewrite (ep_block_found _ _ _ _ Hfirst), Eb, app_assoc.
  destruct (first_line (block_header (ep_tag_of N) ++ line) y) as [ls ->];
    [apply no_nl_app; [apply block_header_no_nl | exact Hline] | exact Hy |].
  reflexivity.
Qed.


(** What follows the title in the pattern: white space and an opening
    bracket, or the end of the line. *)
Lemma title_cont_stop (g sp more : str) :
  forallb is_space sp = true ->
  Re.alt (Re.greedy_star is_space (fun _ => Re.literal (lit "[") (matched g)) [])
    (Re.at_dollar (matched g)) (sp ++ lit "[" ++ more) = Some g.
Proof.
  intros Hsp. unfold Re.alt.
  rewrite (greedy_star_run is_space _ sp (lit "[" ++ more) [] g Hsp);
    [reflexivity | reflexivity |].
  rewrite literal_app. reflexivity.
Qed.

Lemma title_cont_go (g s : str) :
  s <> [] -> no_nl s ->
  (forall sp more, forallb is_space sp = true -> s <> sp ++ lit "[" ++ more) ->
  Re.alt (Re.greedy_star is_space (fun _ => Re.literal (lit "[") (matched g)) [])
    (Re.at_dollar (matched g)) s = None.
Proof.
  intros Hne Hs Hno. unfold Re.alt.
  destruct (Re.greedy_star is_space (fun _ => Re.literal (lit "[") (matched g)) [] s)
    as [r |] eqn:E.
  - exfalso. apply greedy_star_inv in E. destruct E as (x & rest & -> & Hx & E).
    apply literal_inv in E. destruct E as (more & -> & _).
    apply (Hno x more Hx). reflexivity.
  - cbn [Re.or_else]. destruct s as [| c t]; [congruence |].
    apply no_nl_head in Hs. destruct Hs as [Hc _].
    unfold Re.at_dollar. rewrite Hc. destruct t; reflexivity.
Qed.

Lemma all_space_last (v : str) :
  forallb is_space v = true ->
  match last v with
  | None => True
  | Some c => is_space c = false
  end -> v = [].
Proof.
  intros Hv Hlast. destruct (last v) as [c |] eqn:E.
  - apply last_Some in E. destruct E as [v' ->].
    rewrite forallb_app in Hv. apply andb_true_iff in Hv. destruct Hv as [_ Hc].
    simpl in Hc. rewrite Hlast in Hc. discriminate.
  - apply last_None in E. exact E.
Qed.

Lemma bracket_not_space (sp : str) : forallb is_space sp = true -> 91%Z ∉ sp.
Proof.
  induction sp as [| c sp IH]; intros H Hin; [apply elem_of_nil in Hin; exact Hin |].
  simpl in H. apply andb_true_iff in H. destruct H as [Hc Hsp].
  apply elem_of_cons in Hin. destruct Hin as [<- | Hin]; [discriminate | exact (IH Hsp Hin)].
Qed.

Lemma strip_blank (r : str) : forallb is_space r = true -> strip r = [].
Proof.
  intros H. unfold strip. rewrite <- (app_nil_r r), lstrip_by_app by exact H. reflexivity.
Qed.


Lemma last_suffix (a v : str) : v <> [] -> last (a ++ v) = last v.
Proof.
  intros Hv. induction a as [| c a IH]; [reflexivity |].
  cbn [app]. destruct (a ++ v) as [| z l] eqn:E.
  - apply app_eq_nil in E. destruct E as [_ ->]. congruence.
  - exact IH.
Qed.

Lemma title_found (tag ws title sp tail : str) :
  forallb is_space ws = true -> forallb is_space sp = true ->
  title <> [] -> strip title = title -> 91%Z ∉ drop 1 title ->
  no_nl (title ++ sp ++ tail) ->
  tail = [] \/ (exists more, tail = lit "[" ++ more) ->
  exists g, Re.search (title_pattern tag) (block_header tag ++ ws ++ title ++ sp ++ tail) = Some g /\
    strip g = title.
Proof.
  intros Hws Hsp Hne Hstrip Hbr Hnl Htail.
  pose proof (strip_head title) as Hhead. pose proof (strip_last title) as Hlast.
  rewrite Hstrip in Hhead, Hlast.
  destruct title as [| h tl]; [congruence |]. change (91%Z ∉ tl) in Hbr.
  pose proof Hnl as Hnl'. change (no_nl (h :: tl ++ sp ++ tail)) in Hnl'.
  apply no_nl_head in Hnl'. destruct Hnl' as [Hh Hrest].
  assert (Hstart : forall (k : str -> @Re.cont str) (r : str),
            Re.lazy_star Re.not_nl k [h] (tl ++ sp ++ tail) = Some r ->
            Re.search (Re.literal (block_header tag)
              (Re.greedy_star is_space (fun _ => Re.lazy_plus Re.not_nl k) []))
              (block_header tag ++ ws ++ (h :: tl) ++ sp ++ tail) = Some r).
  { intros k r Hk. apply search_here. rewrite literal_app.
    apply greedy_star_run; [exact Hws | exact Hhead |].
    unfold Re.lazy_plus. cbn [app]. unfold Re.not_nl at 1. rewrite Hh. exact Hk. }
  destruct Htail as [-> | [more ->]].
  - exists ((h :: tl) ++ sp). split.
    + apply Hstart. rewrite app_nil_r in *. rewrite <- (app_nil_r (tl ++ sp)).
      apply lazy_star_exact.
      * apply no_nl_not_nl. exact Hrest.
      * intros u v E Hv. rewrite app_nil_r. apply title_cont_go; [exact Hv | |].
        -- rewrite E in Hrest. apply no_nl_app_inv in Hrest. apply Hrest.
        -- intros sp' more Hsp' ->.
           assert (Hin : 91%Z ∈ tl ++ sp).
           { rewrite E, !elem_of_app. right. right. left.
             apply list_elem_of_In. vm_compute. left. reflexivity. }
           apply elem_of_app in Hin. destruct Hin as [Hin | Hin]; [exact (Hbr Hin) |].
           exact (bracket_not_space sp Hsp Hin).
      * reflexivity.
    + apply (strip_around [] (h :: tl) sp); [reflexivity | exact Hsp | exact Hhead | exact Hlast].
  - exists (h :: tl). split; [| exact Hstrip].
    apply Hstart. apply lazy_star_exact.
    + apply no_nl_not_nl. apply no_nl_app_inv in Hrest. apply Hrest.
    + intros u v E Hv.
      assert (Hvlast : match last v with None => True | Some c => is_space c = false end).
      { rewrite <- (last_suffix (h :: u) v Hv). cbn [app]. rewrite <- E. exact Hlast. }
      apply title_cont_go.
      * destruct v; [congruence | discriminate].
      * rewrite E, <- app_assoc in Hrest. apply no_nl_app_inv in Hrest. apply Hrest.
      * intros sp' more' Hsp' E'. apply app_eq_app in E'. destruct E' as [l [[E1 E2] | [E1 E2]]].
        -- destruct l as [| c l].
           ++ rewrite app_nil_r in E1. subst v. apply Hv. apply all_space_last; assumption.
           ++ cbn [app] in E2. injection E2 as <- _. apply Hbr.
              rewrite E, E1, !elem_of_app. right. right. apply elem_of_cons. left. reflexivity.
        -- rewrite E1, forallb_app in Hsp'. apply andb_true_iff in Hsp'.
           destruct Hsp' as [Hv' _]. apply Hv. apply all_space_last; assumption.
    + apply title_cont_stop. exact Hsp.
Qed.

Lemma title_pattern_inv (tag s r : str) :
  title_pattern tag s = Some r ->
  exists ws t, s = block_header tag ++ ws ++ r ++ t.
Proof.
  unfold title_pattern. intros H.
  apply literal_inv in H. destruct H as (s1 & -> & H).
  apply greedy_star_inv in H. destruct H as (ws & s2 & -> & _ & H).
  apply lazy_plus_inv in H. destruct H as (g & t & -> & _ & H).
  assert (r = g) as ->.
  { unfold Re.alt in H.
    destruct (Re.greedy_star is_space (fun _ => Re.literal (lit "[") (matched g)) [] t)
      as [r' |] eqn:E.
    - cbn [Re.or_else] in H. injection H as ->.
      apply greedy_star_inv in E. destruct E as (x & rest & _ & _ & E).
      apply literal_inv in E. destruct E as (more & _ & E). injection E as ->. reflexivity.
    - cbn [Re.or_else] in H. unfold Re.at_dollar, matched in H.
      destruct t as [| c [| c' t]]; [congruence | | discriminate].
      destruct (chr_eqb c 10); congruence. }
  exists ws, t. reflexivity.
Qed.

Lemma after_prefix {A} (a b p c : list A) : a ++ b = p ++ a ++ c -> exists l, b = l ++ c.
Proof.
  intros E. exists (take (length p) b).
  apply (f_equal (drop (length p + length a))) in E.
  rewrite drop_app_ge in E by lia.
  rewrite app_assoc, drop_app_ge in E by (rewrite length_app; lia).
  rewrite length_app in E.
  replace (length p + length a - (length p + length a)) with 0 in E by lia.
  replace (length p + length a - length a) with (length p) in E by lia.
  rewrite drop_0 in E. rewrite <- E. symmetry. apply take_drop.
Qed.

(** A heading followed by nothing but white space on its line has no
    title. *)
Lemma title_blank (tag ws : str) :
  forallb is_space ws = true ->
  match Re.search (title_pattern tag) (block_header tag ++ ws) with
  | Some t => strip t
  | None => []
  end = [].
Proof.
  intros Hws. destruct (Re.search _ _) as [r |] eqn:E; [| reflexivity].
  apply search_inv in E. destruct E as (pre & s & E & H).
  apply title_pattern_inv in H. destruct H as (ws' & t & ->).
  apply after_prefix in E. destruct E as [l ->].
  apply strip_blank. rewrite !forallb_app in Hws.
  apply andb_true_iff in Hws. destruct Hws as [_ Hws].
  apply andb_true_iff in Hws. destruct Hws as [_ Hws].
  apply andb_true_iff in Hws. apply Hws.
Qed.


(** X20: the title of an episode is read on the line of its first heading:
    after the colon and the white space that follows it, the text up to the
    first opening bracket that is not its first character, or up to the end
    of the line, without the white space around it.  A heading with nothing
    but white space after it on its line has an empty title, whatever the
    block holds on its other lines. *)
Theorem extract_ep_outline_title :
  (forall (text : str) (N : Z) (pre ws title sp tail after : str),
     text = pre ++ block_header (ep_tag_of N) ++ (ws ++ title ++ sp ++ tail) ++ after ->
     first_at (block_header (ep_tag_of N)) pre
       (block_header (ep_tag_of N) ++ (ws ++ title ++ sp ++ tail) ++ after) ->
     no_nl (ws ++ title ++ sp ++ tail) ->
     after = [] \/ (exists a, after = nl ++ a) ->
     forallb is_space ws = true -> forallb is_space sp = true ->
     title <> [] -> strip title = title -> 91%Z ∉ drop 1 title ->
     tail = [] \/ (exists more, tail = lit "[" ++ more) ->
     ep_title (extract_ep_outline text N) = title) /\
  (forall (text : str) (N : Z) (pre ws after : str),
     text = pre ++ block_header (ep_tag_of N) ++ ws ++ after ->
     first_at (block_header (ep_tag_of N)) pre (block_header (ep_tag_of N) ++ ws ++ after) ->
     ws ++ after <> [] -> no_nl ws ->
     after = [] \/ (exists a, after = nl ++ a) ->
     forallb is_space ws = true ->
     ep_title (extract_ep_outline text N) = []).
Proof.
  split.
  - intros text N pre ws title sp tail after E Hfirst Hnl Hafter Hws Hsp Hne Hstrip Hbr Htail.
    rewrite (ep_title_line text N pre (ws ++ title ++ sp ++ tail) after E Hfirst);
      [| | exact Hnl | exact Hafter].
    + destruct (title_found (ep_tag_of N) ws title sp tail) as (g & -> & Hg);
        try assumption.
      apply no_nl_app_inv in Hnl. apply Hnl.
    + intros H. apply app_eq_nil in H. destruct H as [H _].
      apply app_eq_nil in H. destruct H as [_ H].
      apply app_eq_nil in H. destruct H as [H _]. exact (Hne H).
  - intros text N pre ws after E Hfirst Hne Hnl Hafter Hws.
    rewrite (ep_title_line text N pre ws after E Hfirst Hne Hnl Hafter).
    apply title_blank. exact Hws.
Qed.

End Title.

Lemma extract_ep_outline_title_witness :
  ep_title (extract_ep_outline
    (lit "개요" ++ nl ++ lit "### EP-03: 귀환 [3화]" ++ nl ++ lit "- 본문") 3) = lit "귀환".
Proof.
  destruct extract_ep_outline_title as [H _].
  apply (H _ 3%Z (lit "개요" ++ nl) (lit " ") (lit "귀환") (lit " ") (lit "[3화]")
           (nl ++ lit "- 본문")).
  - vm_compute. reflexivity.
  - intros i Hi. do 3 (destruct i as [| i]; [vm_compute; reflexivity |]).
    vm_compute in Hi. lia.
  - apply no_nl_forallb. vm_compute. reflexivity.
  - right. exists (lit "- 본문"). reflexivity.
  - reflexivity.
  - reflexivity.
  - discriminate.
  - vm_compute. reflexivity.
  - intros Hin. apply list_elem_of_In in Hin. vm_compute in Hin.
    destruct Hin as [Hin | Hin]; [discriminate | exact Hin].
  - right. exists (lit "3화]"). vm_compute. reflexivity.
Defined.

(** ** The sentences that F6 keeps *)

Section Filter.




End Filter.

